(** * keydso: appointment and work-permit management

    A shallow embedding of the storage layer ([DatabaseStorage], the file
    [server/storage.ts]) and of the REST handlers of [server/routes.ts],
    with the table declarations of [shared/schema.ts].

    Conventions of the embedding.
    - A JavaScript number is a [number] below: an integer, NaN, or some
      other value.  Integers are unbounded here; the code's doubles are
      exact below 2^53.
    - A string is a sequence of 8-bit code units.
    - A JSON body is read at the columns of its table: a key is absent or
      holds a value of the type of its column, null where the column is
      nullable and for [bookingDetails], whose type is JSON.
    - A table is the list of its rows, in the order a query without an
      ORDER BY lists them, together with the last value of the sequence
      behind its [serial] id column.  The engine checks what the database
      checks: the 32-bit range of an integer column, NOT NULL, the primary
      key and the unique constraints.
    - [await] is sequencing in a state-and-exception monad; a rejected
      promise is a thrown [error].  A handler run in that monad runs from
      its first line to its answer; the handlers of two requests that are
      served at once take turns at their awaits, which [task] and
      [interleave] describe.
    - [new Date().toISOString()] and [randomBytes(16)] are read from the
      environment: the handlers and store operations that use them take
      the value read as an argument.
    - [scrypt] (Node's crypto module) is a parameter. *)

From Stdlib Require Import ZArith List String Ascii Bool Lia DecimalString DecimalPos.
From Stdlib.Strings Require Import Byte.
From stdpp Require Import base option list gmap strings finite.

Import ListNotations.
Local Open Scope Z_scope.

(** ** JavaScript values *)

Inductive number : Type :=
  | Int (z : Z)                  (* an integral value *)
  | NaN
  | NonInteger (bits : positive). (* a fractional value or an infinity, named by its bit pattern *)

#[global] Instance number_eq_dec : EqDecision number.
Proof. solve_decision. Defined.

#[global] Instance number_countable : Countable number.
Proof.
  refine (inj_countable'
    (fun n => match n with
              | Int z => inl z
              | NaN => inr (inl ())
              | NonInteger b => inr (inr b)
              end)
    (fun x => match x with
              | inl z => Int z
              | inr (inl _) => NaN
              | inr (inr b) => NonInteger b
              end) _).
  intros []; reflexivity.
Defined.

Definition isNaN (n : number) : bool :=
  match n with NaN => true | _ => false end.

Definition Number_isInteger (n : number) : bool :=
  match n with Int _ => true | _ => false end.

#[warnings="-register-all"] Inductive json : Type :=
  | JNull
  | JBool (b : bool)
  | JNum (n : number)
  | JStr (s : string)
  | JArr (l : list json)
  | JObj (fields : list (string * json)).

Definition Buffer : Type := list byte.

(** *** [parseInt(s, 10)] *)

(* WhiteSpace and LineTerminator code units below 256. *)
Definition is_whitespace (c : ascii) : bool :=
  let n := nat_of_ascii c in
  ((9 <=? n)%nat && (n <=? 13)%nat) || (n =? 32)%nat || (n =? 160)%nat.

Fixpoint skip_whitespace (s : string) : string :=
  match s with
  | String c rest => if is_whitespace c then skip_whitespace rest else s
  | EmptyString => s
  end.

Definition digit_value (c : ascii) : option Z :=
  let n := nat_of_ascii c in
  if ((48 <=? n)%nat && (n <=? 57)%nat)%bool then Some (Z.of_nat n - 48) else None.

(* The longest prefix of decimal digits, most significant first. *)
Fixpoint leading_digits (s : string) : list Z :=
  match s with
  | String c rest =>
      match digit_value c with
      | Some d => d :: leading_digits rest
      | None => []
      end
  | EmptyString => []
  end.

Definition digits_to_Z (ds : list Z) : Z :=
  fold_left (fun acc d => 10 * acc + d) ds 0.

Definition parseInt (s : string) : number :=
  let s1 := skip_whitespace s in
  let '(sign, s2) :=
    match s1 with
    | String "-" rest => (-1, rest)
    | String "+" rest => (1, rest)
    | _ => (1, s1)
    end in
  match leading_digits s2 with
  | [] => NaN
  | ds => Int (sign * digits_to_Z ds)
  end.

(** *** Hexadecimal strings: [buf.toString("hex")] and [Buffer.from(s, "hex")] *)

Definition hex_digit (n : N) : ascii :=
  ascii_of_N (if (n <? 10)%N then 48 + n else 87 + n)%N.

Definition hex_of_byte (b : byte) : string :=
  let n := Byte.to_N b in
  String (hex_digit (n / 16)) (String (hex_digit (n mod 16)) EmptyString).

Fixpoint to_hex (buf : Buffer) : string :=
  match buf with
  | [] => EmptyString
  | b :: rest => hex_of_byte b +:+ to_hex rest
  end.

Definition hex_value (c : ascii) : option N :=
  let n := N_of_ascii c in
  if ((48 <=? n) && (n <=? 57))%N then Some (n - 48)%N
  else if ((97 <=? n) && (n <=? 102))%N then Some (n - 87)%N
  else if ((65 <=? n) && (n <=? 70))%N then Some (n - 55)%N
  else None.

(* Decoding stops at the first pair that is not two hex digits. *)
Fixpoint from_hex (s : string) : Buffer :=
  match s with
  | String hi (String lo rest) =>
      match hex_value hi, hex_value lo with
      | Some h, Some l =>
          match Byte.of_N (16 * h + l) with
          | Some b => b :: from_hex rest
          | None => []
          end
      | _, _ => []
      end
  | _ => []
  end.

(** *** [s.split(".")] *)

Fixpoint split_on (sep : ascii) (s : string) : list string :=
  match s with
  | EmptyString => [EmptyString]
  | String c rest =>
      if Ascii.eqb c sep then EmptyString :: split_on sep rest
      else match split_on sep rest with
           | seg :: segs => String c seg :: segs
           | [] => [String c EmptyString]
           end
  end.


(** ** Promises: state and exceptions *)

Inductive error : Type :=
  | UniqueViolation        (* the engine, 23505: duplicate key value *)
  | NotNullViolation       (* the engine, 23502: a null in a NOT NULL column *)
  | NumericValueOutOfRange (* the engine, 22003: an integer parameter outside the 32-bit range *)
  | InvalidIntegerSyntax   (* the engine, 22P02: a parameter of an integer column is not an integer *)
  | SequenceLimitExceeded  (* the engine, 2200H: nextval at the maximum of the sequence *)
  | NoValuesToSet          (* the query builder: Error("No values to set") *)
  | ZodError               (* schema.parse *)
  | InvalidAppointmentID   (* Error("Invalid appointment ID") *)
  | TypeError              (* scrypt called with an undefined salt *)
  | RangeError.            (* timingSafeEqual on buffers of different lengths *)

Inductive result (A : Type) : Type :=
  | Ok (a : A)
  | Throw (e : error).
Arguments Ok {A} a.
Arguments Throw {A} e.

Definition M (S A : Type) : Type := S -> result A * S.

Definition ret {S A} (a : A) : M S A := fun s => (Ok a, s).

Definition throw {S A} (e : error) : M S A := fun s => (Throw e, s).

Definition bind {S A B} (m : M S A) (k : A -> M S B) : M S B :=
  fun s =>
    match m s with
    | (Ok a, s') => k a s'
    | (Throw e, s') => (Throw e, s')
    end.

Definition gets {S A} (f : S -> A) : M S A := fun s => (Ok (f s), s).

Definition modify {S} (f : S -> S) : M S unit := fun s => (Ok tt, f s).

Definition lift_result {S A} (r : result A) : M S A := fun s => (r, s).

Notation "'let*' x ':=' m 'in' k" := (bind m (fun x => k))
  (at level 10, x name, m at level 200, k at level 200).

(** ** The relational engine *)

(* An integer column ([serial], [integer]) holds a 32-bit value. *)
Definition int4 (z : Z) : bool := (-2147483648 <=? z) && (z <=? 2147483647).

(* An integer as the parameter of a statement, for an integer column.  The
   driver sends the text of the number, and a number of 1e21 or more is
   written with an exponent, which is not the syntax of an integer. *)
Definition int4_param (z : Z) : result Z :=
  if int4 z then Ok z
  else if Z.abs z <? 1000000000000000000000 then Throw NumericValueOutOfRange
  else Throw InvalidIntegerSyntax.

(* The parameters are read in their order; the first that is refused
   decides the error. *)
Fixpoint int4_params (zs : list Z) : result unit :=
  match zs with
  | [] => Ok tt
  | z :: rest =>
      match int4_param z with
      | Ok _ => int4_params rest
      | Throw e => Throw e
      end
  end.

(* A nullable integer column among the parameters: a null is no number. *)
Definition nullable (z : option Z) : list Z :=
  match z with Some k => [k] | None => [] end.

(* A row type with its primary key, its other integer columns (in the
   order of the columns, a null left out), its NOT NULL constraints and its
   unique constraints: [clash r1 r2] holds when two distinct rows cannot
   both be in the table.  A row is appended by an insertion; an update
   writes a new version of the row, which the table lists after the rows it
   held. *)
Class Row (R : Type) := {
  pkey : R -> Z;
  integers : R -> list Z;
  not_null : R -> bool;
  clash : R -> R -> bool;
  clash_sym : forall r1 r2, clash r1 r2 = clash r2 r1;
  clash_pkey : forall r1 r2, pkey r1 = pkey r2 -> clash r1 r2 = true;
}.

Record table (R : Type) : Type := Table {
  rows : list R;
  last_value : Z;       (* of the sequence behind the serial id *)
}.
Arguments Table {R} rows last_value.
Arguments rows {R} t.
Arguments last_value {R} t.

Definition empty_table {R} : table R := Table [] 0.

Section Engine.
Context {R : Type} `{Row R}.

(* No two rows of the list clash. *)
Fixpoint unique (l : list R) : bool :=
  match l with
  | [] => true
  | r :: rest => forallb (fun r' => negb (clash r r')) rest && unique rest
  end.

(* Every integer column of the row holds a 32-bit value. *)
Definition in_range (r : R) : bool := forallb int4 (pkey r :: integers r).

(* The rows a table can hold. *)
Definition valid_rows (l : list R) : bool :=
  unique l && forallb in_range l && forallb not_null l.

(* A JavaScript number as the parameter of a comparison with an integer column. *)
Definition int_param (n : number) : result Z :=
  match n with
  | Int z => int4_param z
  | NaN | NonInteger _ => Throw InvalidIntegerSyntax
  end.

(* SELECT * FROM t WHERE p *)
Definition select_where (p : R -> bool) (t : table R) : list R :=
  filter p (rows t).

(* INSERT INTO t VALUES (...) RETURNING *: [mk] builds the row from its id,
   which is the one supplied or else the next value of the sequence.  The
   integer parameters are read first ([insert_integers]: a supplied id
   among them; the other columns of [mk id] do not depend on the id); then
   the id is drawn, and a value that was drawn stays drawn when the
   insertion fails; then the row is checked. *)
Definition insert_integers (supplied : option Z) (mk : Z -> R) : list Z :=
  match supplied with
  | Some id => id :: integers (mk id)
  | None => integers (mk 0)
  end.

Definition insert_returning (supplied : option Z) (mk : Z -> R) (t : table R)
  : result R * table R :=
  match int4_params (insert_integers supplied mk) with
  | Throw e => (Throw e, t)
  | Ok _ =>
      if bool_decide (supplied = None) && (2147483647 <=? last_value t)
      then (Throw SequenceLimitExceeded, t)
      else
        let '(id, seq) :=
          match supplied with
          | Some id => (id, last_value t)
          | None => (last_value t + 1, last_value t + 1)
          end in
        let r := mk id in
        if negb (not_null r) then (Throw NotNullViolation, Table (rows t) seq)
        else if unique (rows t ++ [r]) then (Ok r, Table (rows t ++ [r]) seq)
        else (Throw UniqueViolation, Table (rows t) seq)
  end.

(* The rows of a table after an update: the rows that [p] selects are
   rewritten by [set] and listed after the others. *)
Definition rewritten (p : R -> bool) (set : R -> R) (l : list R) : list R :=
  filter (fun r => negb (p r)) l ++ (set <$> filter p l).

(* UPDATE t SET ... WHERE p RETURNING *, its parameters read already. *)
Definition update_returning (p : R -> bool) (set : R -> R) (t : table R)
  : result (list R) * table R :=
  let updated := set <$> filter p (rows t) in
  let rows' := rewritten p set (rows t) in
  if negb (forallb not_null updated) then (Throw NotNullViolation, t)
  else if unique rows' then (Ok updated, Table rows' (last_value t))
  else (Throw UniqueViolation, t).
End Engine.

(** ** The schema ([shared/schema.ts]) *)

Module User.
Record t : Type := mk {
  id : Z;
  username : string;
  password : string;
  role : string;             (* 'admin', 'collector', 'approver' *)
  createdBy : option Z;
  teamId : option Z;
}.
End User.

Module Team.
Record t : Type := mk {
  id : Z;
  name : string;
  description : option string;
  createdBy : Z;
  createdAt : string;
}.
End Team.

Module TeamMember.
Record t : Type := mk {
  id : Z;
  teamId : Z;
  userId : Z;
  addedBy : Z;
  addedAt : string;
}.
End TeamMember.

Module Client.
Record t : Type := mk {
  id : Z;
  passportNumber : string;
  fullName : string;
  phoneNumber : string;
  email : string;
  nationalId : string;
  passportImage : string;
  workType : string;
  workplace : string;
  gender : string;
}.
End Client.

Module Appointment.
Record t : Type := mk {
  id : Z;
  clientId : Z;
  teamId : Z;
  status : string;           (* 'pending', 'approved' *)
  collectedBy : Z;
  approvedBy : option Z;
  pdfUrl : option string;
  bookingDetails : json;
  createdAt : string;
}.
End Appointment.

(* typeof users.$inferInsert as the store receives it: the id may be
   supplied; [ensureAdminUser] leaves [teamId] out. *)
Module InsertUser.
Record t : Type := mk {
  id : option Z;
  username : string;
  password : string;
  role : string;
  createdBy : option Z;
  teamId : option Z;
}.
End InsertUser.

Module InsertTeam.
Record t : Type := mk {
  id : option Z;
  name : string;
  description : option string;
  createdBy : Z;
  createdAt : option string;
}.
End InsertTeam.

(* The route hands [teamId] and [userId] over as the body has them. *)
Module InsertTeamMember.
Record t : Type := mk {
  id : option Z;
  teamId : number;
  userId : number;
  addedBy : Z;
  addedAt : option string;
}.
End InsertTeamMember.

Module InsertClient.
Record t : Type := mk {
  id : option Z;
  passportNumber : string;
  fullName : string;
  phoneNumber : string;
  email : string;
  nationalId : string;
  passportImage : string;
  workType : string;
  workplace : string;
  gender : string;
}.
End InsertClient.

Module InsertAppointment.
Record t : Type := mk {
  id : option Z;
  clientId : Z;
  teamId : Z;
  status : string;
  collectedBy : Z;
  approvedBy : option (option Z);   (* absent, null, or a number *)
  pdfUrl : option (option string);
  bookingDetails : json;
  createdAt : string;
}.
End InsertAppointment.

(* Partial<Appointment>: every column may be absent.  The JSON body of a
   request on appointments is read at this type. *)
Module PartialAppointment.
Record t : Type := mk {
  id : option Z;
  clientId : option Z;
  teamId : option Z;
  status : option string;
  collectedBy : option Z;
  approvedBy : option (option Z);
  pdfUrl : option (option string);
  bookingDetails : option json;
  createdAt : option string;
}.

Definition empty : t := mk None None None None None None None None None.

(* { ...a } for a record a *)
Definition of_record (a : Appointment.t) : t :=
  mk (Some (Appointment.id a)) (Some (Appointment.clientId a))
     (Some (Appointment.teamId a)) (Some (Appointment.status a))
     (Some (Appointment.collectedBy a)) (Some (Appointment.approvedBy a))
     (Some (Appointment.pdfUrl a)) (Some (Appointment.bookingDetails a))
     (Some (Appointment.createdAt a)).

Definition later {A} (x y : option A) : option A :=
  match y with Some _ => y | None => x end.

(* { ...a, ...b }: the keys of b win *)
Definition spread (a b : t) : t :=
  mk (later (id a) (id b)) (later (clientId a) (clientId b))
     (later (teamId a) (teamId b)) (later (status a) (status b))
     (later (collectedBy a) (collectedBy b)) (later (approvedBy a) (approvedBy b))
     (later (pdfUrl a) (pdfUrl b)) (later (bookingDetails a) (bookingDetails b))
     (later (createdAt a) (createdAt b)).

(* UPDATE ... SET: the columns present are assigned *)
Definition assign (u : t) (a : Appointment.t) : Appointment.t :=
  Appointment.mk
    (default (Appointment.id a) (id u))
    (default (Appointment.clientId a) (clientId u))
    (default (Appointment.teamId a) (teamId u))
    (default (Appointment.status a) (status u))
    (default (Appointment.collectedBy a) (collectedBy u))
    (default (Appointment.approvedBy a) (approvedBy u))
    (default (Appointment.pdfUrl a) (pdfUrl u))
    (default (Appointment.bookingDetails a) (bookingDetails u))
    (default (Appointment.createdAt a) (createdAt u)).

Definition present {A} (x : option A) : bool :=
  match x with Some _ => true | None => false end.

(* The object has no key with a value: there is nothing to set. *)
Definition is_empty (u : t) : bool :=
  negb (present (id u) || present (clientId u) || present (teamId u) || present (status u)
        || present (collectedBy u) || present (approvedBy u) || present (pdfUrl u)
        || present (bookingDetails u) || present (createdAt u)).

(* The integers among the values to set, in the order of the columns. *)
Definition set_integers (u : t) : list Z :=
  nullable (id u) ++ nullable (clientId u) ++ nullable (teamId u)
  ++ nullable (collectedBy u)
  ++ match approvedBy u with Some (Some k) => [k] | _ => [] end.
End PartialAppointment.

(* insertAppointmentSchema = createInsertSchema(appointments): the columns
   that are NOT NULL and have no default are required. *)
Definition insertAppointmentSchema_parse (o : PartialAppointment.t)
  : result InsertAppointment.t :=
  match PartialAppointment.clientId o, PartialAppointment.teamId o,
        PartialAppointment.status o, PartialAppointment.collectedBy o,
        PartialAppointment.bookingDetails o, PartialAppointment.createdAt o with
  | Some c, Some t, Some s, Some cb, Some bd, Some ca =>
      Ok (InsertAppointment.mk (PartialAppointment.id o) c t s cb
            (PartialAppointment.approvedBy o) (PartialAppointment.pdfUrl o) bd ca)
  | _, _, _, _, _, _ => Throw ZodError
  end.

#[global, refine] Instance user_row : Row User.t := {|
  pkey := User.id;
  integers u := nullable (User.createdBy u) ++ nullable (User.teamId u);
  not_null _ := true;
  clash u1 u2 := (User.id u1 =? User.id u2)
                 || String.eqb (User.username u1) (User.username u2);
|}.
Proof.
  - intros r1 r2. by rewrite Z.eqb_sym, String.eqb_sym.
  - intros r1 r2 E. rewrite E, Z.eqb_refl. reflexivity.
Defined.

#[global, refine] Instance team_row : Row Team.t := {|
  pkey := Team.id;
  integers t := [Team.createdBy t];
  not_null _ := true;
  clash t1 t2 := Team.id t1 =? Team.id t2;
|}.
Proof.
  - intros r1 r2. apply Z.eqb_sym.
  - intros r1 r2 E. rewrite E. apply Z.eqb_refl.
Defined.

#[global, refine] Instance teamMember_row : Row TeamMember.t := {|
  pkey := TeamMember.id;
  integers m := [TeamMember.teamId m; TeamMember.userId m; TeamMember.addedBy m];
  not_null _ := true;
  clash m1 m2 := TeamMember.id m1 =? TeamMember.id m2;
|}.
Proof.
  - intros r1 r2. apply Z.eqb_sym.
  - intros r1 r2 E. rewrite E. apply Z.eqb_refl.
Defined.

#[global, refine] Instance client_row : Row Client.t := {|
  pkey := Client.id;
  integers _ := [];
  not_null _ := true;
  clash c1 c2 := Client.id c1 =? Client.id c2;
|}.
Proof.
  - intros r1 r2. apply Z.eqb_sym.
  - intros r1 r2 E. rewrite E. apply Z.eqb_refl.
Defined.

#[global, refine] Instance appointment_row : Row Appointment.t := {|
  pkey := Appointment.id;
  integers a := [Appointment.clientId a; Appointment.teamId a; Appointment.collectedBy a]
                ++ nullable (Appointment.approvedBy a);
  not_null a := match Appointment.bookingDetails a with JNull => false | _ => true end;
  clash a1 a2 := Appointment.id a1 =? Appointment.id a2;
|}.
Proof.
  - intros r1 r2. apply Z.eqb_sym.
  - intros r1 r2 E. rewrite E. apply Z.eqb_refl.
Defined.

(** ** The store ([server/storage.ts]) *)

Record Storage : Type := mkStorage {
  users : table User.t;
  teams : table Team.t;
  teamMembers : table TeamMember.t;
  clients : table Client.t;
  appointments : table Appointment.t;
  pdfStorage : gmap number Buffer;      (* Map<number, Buffer> *)
}.

(* new DatabaseStorage() over an empty database, before ensureAdminUser ran *)
Definition initial_storage : Storage :=
  mkStorage empty_table empty_table empty_table empty_table empty_table ∅.

Definition set_users (t : table User.t) (st : Storage) : Storage :=
  mkStorage t (teams st) (teamMembers st) (clients st) (appointments st) (pdfStorage st).
Definition set_teams (t : table Team.t) (st : Storage) : Storage :=
  mkStorage (users st) t (teamMembers st) (clients st) (appointments st) (pdfStorage st).
Definition set_teamMembers (t : table TeamMember.t) (st : Storage) : Storage :=
  mkStorage (users st) (teams st) t (clients st) (appointments st) (pdfStorage st).
Definition set_clients (t : table Client.t) (st : Storage) : Storage :=
  mkStorage (users st) (teams st) (teamMembers st) t (appointments st) (pdfStorage st).
Definition set_appointments (t : table Appointment.t) (st : Storage) : Storage :=
  mkStorage (users st) (teams st) (teamMembers st) (clients st) t (pdfStorage st).
Definition set_pdfStorage (m : gmap number Buffer) (st : Storage) : Storage :=
  mkStorage (users st) (teams st) (teamMembers st) (clients st) (appointments st) m.

(* A statement of the engine on one table, as a step of the store. *)
Definition on_table {R A} (get : Storage -> table R) (set : table R -> Storage -> Storage)
    (stmt : table R -> result A * table R) : M Storage A :=
  fun st => let '(r, t') := stmt (get st) in (r, set t' st).

(* !Number.isInteger(id) || id < 1; the comparison is reached by integers only *)
Definition invalid_id (id : number) : bool :=
  negb (Number_isInteger id) ||
  match id with
  | Int z => z <? 1
  | NaN | NonInteger _ => false
  end.

Definition with_user_teamId (teamId : option Z) (u : User.t) : User.t :=
  User.mk (User.id u) (User.username u) (User.password u) (User.role u)
          (User.createdBy u) teamId.

Definition with_user_password (password : string) (u : User.t) : User.t :=
  User.mk (User.id u) (User.username u) password (User.role u)
          (User.createdBy u) (User.teamId u).

(** *** User operations *)

Definition getUser (id : number) : M Storage (option User.t) :=
  let* z := lift_result (int_param id) in
  let* found := gets (fun st => select_where (fun u => User.id u =? z) (users st)) in
  ret (head found).

Definition getUserByUsername (username : string) : M Storage (option User.t) :=
  let* found := gets (fun st =>
    select_where (fun u => String.eqb (User.username u) username) (users st)) in
  ret (head found).

Definition getAllUsers : M Storage (list User.t) :=
  gets (fun st => rows (users st)).

(* SET team_id = $1 WHERE id = $2: the team is the first parameter. *)
Definition updateUserTeam (userId : number) (teamId : option number) : M Storage unit :=
  let* t := lift_result (match teamId with
                         | None => Ok None
                         | Some n => match int_param n with
                                     | Ok k => Ok (Some k)
                                     | Throw e => Throw e
                                     end
                         end) in
  let* z := lift_result (int_param userId) in
  let* _ := on_table users set_users
              (update_returning (fun u => User.id u =? z) (with_user_teamId t)) in
  ret tt.

(** *** Team operations *)

Definition createTeam (now : string) (insertTeam : InsertTeam.t) : M Storage Team.t :=
  on_table teams set_teams
    (insert_returning (InsertTeam.id insertTeam) (fun id =>
       Team.mk id (InsertTeam.name insertTeam) (InsertTeam.description insertTeam)
               (InsertTeam.createdBy insertTeam)
               (default now (InsertTeam.createdAt insertTeam)))).

Definition getTeam (id : number) : M Storage (option Team.t) :=
  if invalid_id id then ret None
  else
    let* z := lift_result (int_param id) in
    let* found := gets (fun st => select_where (fun t => Team.id t =? z) (teams st)) in
    ret (head found).

Definition getAllTeams : M Storage (list Team.t) :=
  gets (fun st => rows (teams st)).

Definition getTeamMembers (teamId : number) : M Storage (list User.t) :=
  let* z := lift_result (int_param teamId) in
  gets (fun st => select_where
    (fun u => match User.teamId u with Some k => k =? z | None => false end) (users st)).

Definition addTeamMember (now : string) (insertTeamMember : InsertTeamMember.t)
  : M Storage TeamMember.t :=
  let* t := lift_result (int_param (InsertTeamMember.teamId insertTeamMember)) in
  let* u := lift_result (int_param (InsertTeamMember.userId insertTeamMember)) in
  on_table teamMembers set_teamMembers
    (insert_returning (InsertTeamMember.id insertTeamMember) (fun id =>
       TeamMember.mk id t u (InsertTeamMember.addedBy insertTeamMember)
                     (default now (InsertTeamMember.addedAt insertTeamMember)))).

Definition removeTeamMember (teamId : number) (userId : number) : M Storage unit :=
  updateUserTeam userId None.

(** *** Client operations *)

Definition createClient (insertClient : InsertClient.t) : M Storage Client.t :=
  on_table clients set_clients
    (insert_returning (InsertClient.id insertClient) (fun id =>
       Client.mk id (InsertClient.passportNumber insertClient)
         (InsertClient.fullName insertClient) (InsertClient.phoneNumber insertClient)
         (InsertClient.email insertClient) (InsertClient.nationalId insertClient)
         (InsertClient.passportImage insertClient) (InsertClient.workType insertClient)
         (InsertClient.workplace insertClient) (InsertClient.gender insertClient))).

Definition getClient (id : number) : M Storage (option Client.t) :=
  if invalid_id id then ret None
  else
    let* z := lift_result (int_param id) in
    let* found := gets (fun st => select_where (fun c => Client.id c =? z) (clients st)) in
    ret (head found).

Definition getAllClients : M Storage (list Client.t) :=
  gets (fun st => rows (clients st)).

(** *** Appointment operations *)

Definition createAppointment (now : string) (insertAppointment : InsertAppointment.t)
  : M Storage Appointment.t :=
  on_table appointments set_appointments
    (insert_returning (InsertAppointment.id insertAppointment) (fun id =>
       Appointment.mk id
         (InsertAppointment.clientId insertAppointment)
         (InsertAppointment.teamId insertAppointment)
         (InsertAppointment.status insertAppointment)
         (InsertAppointment.collectedBy insertAppointment)
         (default None (InsertAppointment.approvedBy insertAppointment))
         (default None (InsertAppointment.pdfUrl insertAppointment))
         (JObj [("date"%string, JStr now)])
         (InsertAppointment.createdAt insertAppointment))).

(* [updated] is undefined when no row has the id.  [set] refuses an object
   without a value; the values to set are the first parameters of the
   statement, the id is the last. *)
Definition updateAppointment (id : number) (update : PartialAppointment.t)
  : M Storage (option Appointment.t) :=
  if invalid_id id then throw InvalidAppointmentID
  else if PartialAppointment.is_empty update then throw NoValuesToSet
  else
    let* _ := lift_result (int4_params (PartialAppointment.set_integers update)) in
    let* z := lift_result (int_param id) in
    let* updated := on_table appointments set_appointments
                      (update_returning (fun a => Appointment.id a =? z)
                                        (PartialAppointment.assign update)) in
    ret (head updated).

Definition getAppointment (id : number) : M Storage (option Appointment.t) :=
  if invalid_id id then ret None
  else
    let* z := lift_result (int_param id) in
    let* found := gets (fun st =>
      select_where (fun a => Appointment.id a =? z) (appointments st)) in
    ret (head found).

Definition getAllAppointments : M Storage (list Appointment.t) :=
  gets (fun st => rows (appointments st)).

Definition getTeamAppointments (teamId : number) : M Storage (list Appointment.t) :=
  let* z := lift_result (int_param teamId) in
  gets (fun st => select_where (fun a => Appointment.teamId a =? z) (appointments st)).

(** *** PDF operations *)

Definition storePdf (appointmentId : number) (pdfBuffer : Buffer) : M Storage unit :=
  modify (fun st => set_pdfStorage (<[appointmentId := pdfBuffer]> (pdfStorage st)) st).

Definition getPdf (appointmentId : number) : M Storage (option Buffer) :=
  gets (fun st => pdfStorage st !! appointmentId).

(** *** Passwords *)

#[global] Instance byte_eq_dec : EqDecision byte := Byte.byte_eq_dec.

(* crypto.timingSafeEqual *)
Definition timingSafeEqual (a b : Buffer) : result bool :=
  if (length a =? length b)%nat then Ok (bool_decide (a = b)) else Throw RangeError.

Section Crypto.
(* scrypt(password, salt, keylen) *)
Variable scrypt : string -> string -> nat -> Buffer.

(* [entropy] is what randomBytes(16) returned. *)
Definition hashPassword (entropy : Buffer) (password : string) : string :=
  let salt := to_hex entropy in
  let buf := scrypt password salt 64 in
  to_hex buf +:+ "." +:+ salt.

Definition createUser (entropy : Buffer) (insertUser : InsertUser.t) : M Storage User.t :=
  let hashedPassword := hashPassword entropy (InsertUser.password insertUser) in
  on_table users set_users
    (insert_returning (InsertUser.id insertUser) (fun id =>
       User.mk id (InsertUser.username insertUser) hashedPassword
               (InsertUser.role insertUser) (InsertUser.createdBy insertUser)
               (InsertUser.teamId insertUser))).

Definition updateUserPassword (entropy : Buffer) (id : number) (newPassword : string)
  : M Storage unit :=
  let hashedPassword := hashPassword entropy newPassword in
  let* z := lift_result (int_param id) in
  let* _ := on_table users set_users
              (update_returning (fun u => User.id u =? z)
                                (with_user_password hashedPassword)) in
  ret tt.

(* Run by the constructor: the first administrator. *)
Definition ensureAdminUser (entropy : Buffer) : M Storage unit :=
  let* adminUser := getUserByUsername "admin" in
  match adminUser with
  | None =>
      let* _ := createUser entropy
                  (InsertUser.mk None "admin" "admin123" "admin" None None) in
      ret tt
  | Some _ => ret tt
  end.

(* [server/routes.ts] *)
Definition comparePasswords (supplied stored : string) : result bool :=
  match split_on "." stored with
  | hashed :: salt :: _ =>
      let hashedBuf := from_hex hashed in
      let suppliedBuf := scrypt supplied salt 64 in
      timingSafeEqual hashedBuf suppliedBuf
  | _ => Throw TypeError
  end.
End Crypto.

(** ** The routes ([server/routes.ts]) *)

Definition parseId (id : string) : option number :=
  let parsed := parseInt id in
  if isNaN parsed then None else Some parsed.

(* The store operations, as the journal of a request names them. *)
Inductive StoreOp : Type :=
  | op_getUser | op_updateUserPassword | op_updateUserTeam
  | op_getTeamMembers | op_addTeamMember | op_removeTeamMember
  | op_getClient
  | op_createAppointment | op_updateAppointment | op_getAppointment
  | op_storePdf | op_getPdf.

Record Server : Type := mkServer {
  storage : Storage;
  journal : list StoreOp;      (* the calls made on [storage], oldest first *)
}.

Definition invoke {A} (op : StoreOp) (m : M Storage A) : M Server A :=
  fun sv =>
    let '(r, st') := m (storage sv) in
    (r, mkServer st' (journal sv ++ [op])).

Inductive payload : Type :=
  | Text (s : string)
  | JsonMessage (message : string)
  | JsonUsers (l : list User.t)
  | JsonTeamMember (m : TeamMember.t)
  | JsonClient (c : Client.t)
  | JsonAppointment (a : option Appointment.t)     (* res.json(undefined) has no body *)
  | Attachment (filename : string) (content : Buffer)
  | Rendered (c : Client.t) (a : Appointment.t).   (* the document pdfkit draws *)

Record response : Type := mkResponse {
  code : Z;
  body : payload;
}.

Definition status_message (c : Z) : string :=
  if c =? 401 then "Unauthorized"
  else if c =? 403 then "Forbidden"
  else if c =? 404 then "Not Found"
  else NilZero.string_of_int (Z.to_int c).

Definition sendStatus (c : Z) : response := mkResponse c (Text (status_message c)).

(* `${n}`; the spelling of a value that is not an integer or NaN is not
   modelled (none is formatted: the routes format parseInt results). *)
Definition number_to_string (n : number) : string :=
  match n with
  | Int z => NilZero.string_of_int (Z.to_int z)
  | NaN => "NaN"
  | NonInteger b => "#" +:+ NilZero.string_of_int (Z.to_int (Z.pos b))
  end.

(* What multer leaves in req.file: the fileFilter keeps PDF parts only. *)
Record UploadedFile : Type := mkFile {
  mimetype : string;
  buffer : Buffer;
}.

Definition upload_single (part : option UploadedFile) : option UploadedFile :=
  match part with
  | Some f => if String.eqb (mimetype f) "application/pdf" then Some f else None
  | None => None
  end.

Definition role_is (u : User.t) (r : string) : bool := String.eqb (User.role u) r.

(* In each handler [user] is req.user, present when req.isAuthenticated(). *)

(* app.get("/api/teams/:id/members") *)
Definition get_api_teams_id_members (user : option User.t) (params_id : string)
  : M Server response :=
  match user with
  | None => ret (sendStatus 401)
  | Some u =>
      if negb (role_is u "admin") then ret (sendStatus 403)
      else match parseId params_id with
           | None => ret (mkResponse 400 (Text "Invalid team ID"))
           | Some id =>
               let* members := invoke op_getTeamMembers (getTeamMembers id) in
               ret (mkResponse 200 (JsonUsers members))
           end
  end.

(* app.post("/api/teams/members"); the body is { teamId, userId } *)
Definition post_api_teams_members (now : string) (user : option User.t)
    (teamId userId : number) : M Server response :=
  match user with
  | None => ret (sendStatus 401)
  | Some u =>
      if negb (role_is u "admin") then ret (sendStatus 403)
      else if bool_decide (teamId = Int 0) then
        (* teamId of 0 means remove from current team *)
        let* _ := invoke op_removeTeamMember (removeTeamMember teamId userId) in
        ret (mkResponse 200 (JsonMessage "Member removed from team"))
      else
        let* teamMember := invoke op_addTeamMember
          (addTeamMember now (InsertTeamMember.mk None teamId userId (User.id u) None)) in
        let* _ := invoke op_updateUserTeam (updateUserTeam userId (Some teamId)) in
        ret (mkResponse 201 (JsonTeamMember teamMember))
  end.

(* app.get("/api/clients/:id") *)
Definition get_api_clients_id (user : option User.t) (params_id : string)
  : M Server response :=
  match user with
  | None => ret (sendStatus 401)
  | Some _ =>
      match parseId params_id with
      | None => ret (mkResponse 400 (Text "Invalid ID"))
      | Some id =>
          let* client := invoke op_getClient (getClient id) in
          match client with
          | None => ret (sendStatus 404)
          | Some c => ret (mkResponse 200 (JsonClient c))
          end
      end
  end.

(* app.post("/api/appointments"); [now] is the clock as the route reads it,
   [now'] as the store reads it afterwards. *)
Definition post_api_appointments (now now' : string) (user : option User.t)
    (req_body : PartialAppointment.t) : M Server response :=
  match user with
  | None => ret (sendStatus 401)
  | Some u =>
      if negb (role_is u "collector") then ret (sendStatus 403)
      else
        let* appointmentData := lift_result (insertAppointmentSchema_parse
          (PartialAppointment.spread req_body
             (PartialAppointment.mk None None None (Some "pending"%string)
                (Some (User.id u)) None None None (Some now)))) in
        let* appointment := invoke op_createAppointment
                              (createAppointment now' appointmentData) in
        ret (mkResponse 201 (JsonAppointment (Some appointment)))
  end.

(* app.patch("/api/appointments/:id") *)
Definition patch_api_appointments_id (user : option User.t) (params_id : string)
    (req_body : PartialAppointment.t) : M Server response :=
  match user with
  | None => ret (sendStatus 401)
  | Some u =>
      if negb (role_is u "approver") then ret (sendStatus 403)
      else match parseId params_id with
           | None => ret (mkResponse 400 (Text "Invalid ID"))
           | Some id =>
               let* appointment := invoke op_getAppointment (getAppointment id) in
               match appointment with
               | None => ret (sendStatus 404)
               | Some a =>
                   let* updated := invoke op_updateAppointment (updateAppointment id
                     (PartialAppointment.spread
                        (PartialAppointment.spread (PartialAppointment.of_record a) req_body)
                        (PartialAppointment.mk None None None (Some "approved"%string)
                           None (Some (Some (User.id u))) None None None))) in
                   ret (mkResponse 200 (JsonAppointment updated))
               end
           end
  end.

(* app.post("/api/appointments/:id/pdf", upload.single('pdf')) *)
Definition post_api_appointments_id_pdf (user : option User.t) (params_id : string)
    (part : option UploadedFile) : M Server response :=
  let req_file := upload_single part in
  match user with
  | None => ret (sendStatus 401)
  | Some u =>
      if negb (role_is u "approver") then ret (sendStatus 403)
      else match parseId params_id with
           | None => ret (mkResponse 400 (Text "Invalid ID"))
           | Some id =>
               let* appointment := invoke op_getAppointment (getAppointment id) in
               match appointment with
               | None => ret (sendStatus 404)
               | Some a =>
                   match req_file with
                   | None => ret (mkResponse 400 (Text "No PDF file uploaded"))
                   | Some f =>
                       let pdfUrl := "/api/appointments/" +:+ number_to_string id
                                     +:+ "/download-pdf" in
                       let* _ := invoke op_storePdf (storePdf id (buffer f)) in
                       let* updated := invoke op_updateAppointment (updateAppointment id
                         (PartialAppointment.spread (PartialAppointment.of_record a)
                            (PartialAppointment.mk None None None None None None
                               (Some (Some pdfUrl)) None None))) in
                       ret (mkResponse 200 (JsonAppointment updated))
                   end
               end
           end
  end.

(* app.get("/api/appointments/:id/download-pdf") *)
Definition get_api_appointments_id_download_pdf (user : option User.t)
    (params_id : string) : M Server response :=
  match user with
  | None => ret (sendStatus 401)
  | Some _ =>
      match parseId params_id with
      | None => ret (mkResponse 400 (Text "Invalid ID"))
      | Some id =>
          let* appointment := invoke op_getAppointment (getAppointment id) in
          match appointment with
          | None => ret (sendStatus 404)
          | Some _ =>
              let* pdfContent := invoke op_getPdf (getPdf id) in
              match pdfContent with
              | None => ret (sendStatus 404)
              | Some content =>
                  ret (mkResponse 200
                         (Attachment ("appointment-" +:+ number_to_string id +:+ ".pdf")
                                     content))
              end
          end
      end
  end.

(* app.get("/api/appointments/:id") *)
Definition get_api_appointments_id (user : option User.t) (params_id : string)
  : M Server response :=
  match user with
  | None => ret (sendStatus 401)
  | Some _ =>
      match parseId params_id with
      | None => ret (mkResponse 400 (Text "Invalid ID"))
      | Some id =>
          let* appointment := invoke op_getAppointment (getAppointment id) in
          match appointment with
          | None => ret (sendStatus 404)
          | Some a => ret (mkResponse 200 (JsonAppointment (Some a)))
          end
      end
  end.

(* app.get("/api/appointments/:id/pdf") *)
Definition get_api_appointments_id_pdf (user : option User.t) (params_id : string)
  : M Server response :=
  match user with
  | None => ret (sendStatus 401)
  | Some _ =>
      match parseId params_id with
      | None => ret (mkResponse 400 (Text "Invalid ID"))
      | Some id =>
          let* appointment := invoke op_getAppointment (getAppointment id) in
          match appointment with
          | None => ret (sendStatus 404)
          | Some a =>
              let* client := invoke op_getClient
                               (getClient (Int (Appointment.clientId a))) in
              match client with
              | None => ret (sendStatus 404)
              | Some c => ret (mkResponse 200 (Rendered c a))
              end
          end
      end
  end.

Section CryptoRoutes.
Variable scrypt : string -> string -> nat -> Buffer.

(* app.post("/api/users/change-password") *)
Definition post_api_users_change_password (entropy : Buffer) (user : option User.t)
    (currentPassword newPassword : string) : M Server response :=
  match user with
  | None => ret (sendStatus 401)
  | Some u =>
      if negb (role_is u "admin") then ret (sendStatus 403)
      else
        let* found := invoke op_getUser (getUser (Int (User.id u))) in
        match found with
        | None => ret (mkResponse 400 (Text "Current password is incorrect"))
        | Some usr =>
            let* same := lift_result
                           (comparePasswords scrypt currentPassword (User.password usr)) in
            if negb same then ret (mkResponse 400 (Text "Current password is incorrect"))
            else
              let* _ := invoke op_updateUserPassword
                (updateUserPassword scrypt entropy (Int (User.id usr)) newPassword) in
              ret (mkResponse 200 (JsonMessage "Password updated successfully"))
        end
  end.
End CryptoRoutes.

(** ** Requests *)

Inductive request : Type :=
  | GetTeamMembers (user : option User.t) (params_id : string)
  | PostTeamMember (now : string) (user : option User.t) (teamId userId : number)
  | GetClient (user : option User.t) (params_id : string)
  | PostAppointment (now now' : string) (user : option User.t)
                    (req_body : PartialAppointment.t)
  | PatchAppointment (user : option User.t) (params_id : string)
                     (req_body : PartialAppointment.t)
  | PostPdf (user : option User.t) (params_id : string) (part : option UploadedFile)
  | DownloadPdf (user : option User.t) (params_id : string)
  | GetAppointment (user : option User.t) (params_id : string)
  | GetAppointmentPdf (user : option User.t) (params_id : string)
  | ChangePassword (entropy : Buffer) (user : option User.t)
                   (currentPassword newPassword : string).

Section Serving.
Variable scrypt : string -> string -> nat -> Buffer.

Definition handle (r : request) : M Server response :=
  match r with
  | GetTeamMembers user id => get_api_teams_id_members user id
  | PostTeamMember now user teamId userId => post_api_teams_members now user teamId userId
  | GetClient user id => get_api_clients_id user id
  | PostAppointment now now' user b => post_api_appointments now now' user b
  | PatchAppointment user id b => patch_api_appointments_id user id b
  | PostPdf user id part => post_api_appointments_id_pdf user id part
  | DownloadPdf user id => get_api_appointments_id_download_pdf user id
  | GetAppointment user id => get_api_appointments_id user id
  | GetAppointmentPdf user id => get_api_appointments_id_pdf user id
  | ChangePassword entropy user cur new =>
      post_api_users_change_password scrypt entropy user cur new
  end.

(* The server after a request, answered or failed. *)
Definition serve (sv : Server) (r : request) : Server := snd (handle r sv).

(* Requests served one after the other. *)
Definition serve_all (sv : Server) (rs : list request) : Server :=
  fold_left serve rs sv.
End Serving.

(** ** Requests served at once *)

(* A handler between two awaits: it has answered or thrown, or it waits for
   a call on the store to settle, and goes on with what the call returns. *)
Inductive task : Type :=
  | Settled (r : result response)
  | Awaiting {A : Type} (op : StoreOp) (call : M Storage A) (continue : A -> task).

(* The handler, run without a pause. *)
Fixpoint run_task (t : task) : M Server response :=
  match t with
  | Settled r => lift_result r
  | Awaiting op call continue =>
      fun sv =>
        match invoke op call sv with
        | (Ok a, sv') => run_task (continue a) sv'
        | (Throw e, sv') => (Throw e, sv')
        end
  end.

(* app.patch("/api/appointments/:id"), await by await *)
Definition patch_api_appointments_id_task (user : option User.t) (params_id : string)
    (req_body : PartialAppointment.t) : task :=
  match user with
  | None => Settled (Ok (sendStatus 401))
  | Some u =>
      if negb (role_is u "approver") then Settled (Ok (sendStatus 403))
      else match parseId params_id with
           | None => Settled (Ok (mkResponse 400 (Text "Invalid ID")))
           | Some id =>
               Awaiting op_getAppointment (getAppointment id) (fun appointment =>
               match appointment with
               | None => Settled (Ok (sendStatus 404))
               | Some a =>
                   Awaiting op_updateAppointment (updateAppointment id
                     (PartialAppointment.spread
                        (PartialAppointment.spread (PartialAppointment.of_record a) req_body)
                        (PartialAppointment.mk None None None (Some "approved"%string)
                           None (Some (Some (User.id u))) None None None)))
                     (fun updated =>
                   Settled (Ok (mkResponse 200 (JsonAppointment updated))))
               end)
           end
  end.

(* app.post("/api/appointments/:id/pdf", upload.single('pdf')), await by await *)
Definition post_api_appointments_id_pdf_task (user : option User.t) (params_id : string)
    (part : option UploadedFile) : task :=
  let req_file := upload_single part in
  match user with
  | None => Settled (Ok (sendStatus 401))
  | Some u =>
      if negb (role_is u "approver") then Settled (Ok (sendStatus 403))
      else match parseId params_id with
           | None => Settled (Ok (mkResponse 400 (Text "Invalid ID")))
           | Some id =>
               Awaiting op_getAppointment (getAppointment id) (fun appointment =>
               match appointment with
               | None => Settled (Ok (sendStatus 404))
               | Some a =>
                   match req_file with
                   | None => Settled (Ok (mkResponse 400 (Text "No PDF file uploaded")))
                   | Some f =>
                       let pdfUrl := "/api/appointments/" +:+ number_to_string id
                                     +:+ "/download-pdf" in
                       Awaiting op_storePdf (storePdf id (buffer f)) (fun _ =>
                       Awaiting op_updateAppointment (updateAppointment id
                         (PartialAppointment.spread (PartialAppointment.of_record a)
                            (PartialAppointment.mk None None None None None None
                               (Some (Some pdfUrl)) None None)))
                         (fun updated =>
                       Settled (Ok (mkResponse 200 (JsonAppointment updated)))))
                   end
               end)
           end
  end.

(* The call a handler waits for settles, and the handler runs on to its
   next await. *)
Definition resume (t : task) (st : Storage) : task * Storage :=
  match t with
  | Settled _ => (t, st)
  | Awaiting _ call continue =>
      match call st with
      | (Ok a, st') => (continue a, st')
      | (Throw e, st') => (Settled (Throw e), st')
      end
  end.

(* The handlers of the requests that are being served, on the store they
   share: [turns] names, turn by turn, the handler whose call settles. *)
Fixpoint interleave (turns : list nat) (ts : list task) (st : Storage)
  : list task * Storage :=
  match turns with
  | [] => (ts, st)
  | k :: rest =>
      match ts !! k with
      | Some t => let '(t', st') := resume t st in interleave rest (<[k := t']> ts) st'
      | None => interleave rest ts st
      end
  end.

(* What a handler has answered, if it has. *)
Definition answer (t : task) : option (result response) :=
  match t with
  | Settled r => Some r
  | Awaiting _ _ _ => None
  end.

(* The status of the appointment found under an id. *)
Definition status_under (id : number) (st : Storage) : option string :=
  match fst (getAppointment id st) with
  | Ok (Some a) => Some (Appointment.status a)
  | _ => None
  end.

(** ** Auxiliary notions *)

(* The sequence of a serial column starts at 1: its last value is 0 before
   the first draw and positive after. *)
Definition sequences_started (st : Storage) : Prop :=
  0 <= last_value (users st) /\ 0 <= last_value (teams st) /\
  0 <= last_value (teamMembers st) /\ 0 <= last_value (clients st) /\
  0 <= last_value (appointments st).

(* Every table satisfies the constraints of its declaration: the primary
   key and the unique constraints, the range of the integer columns, and
   NOT NULL; and the sequences are in their range. *)
Definition consistent (st : Storage) : Prop :=
  valid_rows (rows (users st)) = true /\
  valid_rows (rows (teams st)) = true /\
  valid_rows (rows (teamMembers st)) = true /\
  valid_rows (rows (clients st)) = true /\
  valid_rows (rows (appointments st)) = true /\
  sequences_started st.

Definition positive_integer (n : number) : Prop :=
  exists z, n = Int z /\ 1 <= z.

(* The two errors of the engine for an integer parameter it refuses. *)
Definition refused_integer (e : error) : Prop :=
  e = NumericValueOutOfRange \/ e = InvalidIntegerSyntax.

(* The row createAppointment hands to the engine, given its id. *)
Definition new_appointment (now : string) (ins : InsertAppointment.t) (id : Z)
  : Appointment.t :=
  Appointment.mk id (InsertAppointment.clientId ins) (InsertAppointment.teamId ins)
    (InsertAppointment.status ins) (InsertAppointment.collectedBy ins)
    (default None (InsertAppointment.approvedBy ins))
    (default None (InsertAppointment.pdfUrl ins))
    (JObj [("date"%string, JStr now)]) (InsertAppointment.createdAt ins).

(* The calls of IStorage that write. *)
Inductive call : Type :=
  | call_createUser (entropy : Buffer) (insertUser : InsertUser.t)
  | call_updateUserPassword (entropy : Buffer) (id : number) (newPassword : string)
  | call_updateUserTeam (userId : number) (teamId : option number)
  | call_createTeam (now : string) (insertTeam : InsertTeam.t)
  | call_addTeamMember (now : string) (insertTeamMember : InsertTeamMember.t)
  | call_removeTeamMember (teamId userId : number)
  | call_createClient (insertClient : InsertClient.t)
  | call_createAppointment (now : string) (insertAppointment : InsertAppointment.t)
  | call_updateAppointment (id : number) (update : PartialAppointment.t)
  | call_storePdf (appointmentId : number) (pdfBuffer : Buffer).

Section Calls.
Variable scrypt : string -> string -> nat -> Buffer.

(* The store after a call, fulfilled or rejected. *)
Definition perform (st : Storage) (c : call) : Storage :=
  match c with
  | call_createUser e u => snd (createUser scrypt e u st)
  | call_updateUserPassword e id pw => snd (updateUserPassword scrypt e id pw st)
  | call_updateUserTeam u t => snd (updateUserTeam u t st)
  | call_createTeam now t => snd (createTeam now t st)
  | call_addTeamMember now m => snd (addTeamMember now m st)
  | call_removeTeamMember t u => snd (removeTeamMember t u st)
  | call_createClient c => snd (createClient c st)
  | call_createAppointment now a => snd (createAppointment now a st)
  | call_updateAppointment id u => snd (updateAppointment id u st)
  | call_storePdf id buf => snd (storePdf id buf st)
  end.

Definition perform_all (st : Storage) (cs : list call) : Storage :=
  fold_left perform cs st.
End Calls.

(* A key-derivation function to run the definitions on: the key is the
   password and the salt, cut or padded to the length asked for. *)
Definition toy_scrypt (password salt : string) (keylen : nat) : Buffer :=
  let bytes := list_byte_of_string (password +:+ salt) in
  take keylen (bytes ++ repeat x00 keylen).

(* The :id path parameter of a request, on the routes that have one. *)
Definition params_id_of (r : request) : option string :=
  match r with
  | GetTeamMembers _ id | GetClient _ id | PatchAppointment _ id _ | PostPdf _ id _
  | DownloadPdf _ id | GetAppointment _ id | GetAppointmentPdf _ id => Some id
  | PostTeamMember _ _ _ _ | PostAppointment _ _ _ _ | ChangePassword _ _ _ _ => None
  end.

(* The caller is authenticated and has the role the route asks for. *)
Definition admitted (r : request) : bool :=
  match r with
  | GetTeamMembers (Some u) _ | PostTeamMember _ (Some u) _ _
  | ChangePassword _ (Some u) _ _ => role_is u "admin"
  | PostAppointment _ _ (Some u) _ => role_is u "collector"
  | PatchAppointment (Some u) _ _ | PostPdf (Some u) _ _ => role_is u "approver"
  | GetClient (Some _) _ | DownloadPdf (Some _) _ | GetAppointment (Some _) _
  | GetAppointmentPdf (Some _) _ => true
  | _ => false
  end.

(* A step of a handler that relates the appointments before and after by [Rel]. *)
Definition stable (Rel : list Appointment.t -> list Appointment.t -> Prop)
    {A} (m : M Server A) : Prop :=
  forall sv, Rel (rows (appointments (storage sv)))
                 (rows (appointments (storage (snd (m sv))))).

(* Every code unit of the string satisfies [p]. *)
Fixpoint string_forall (p : ascii -> bool) (s : string) : bool :=
  match s with
  | EmptyString => true
  | String c rest => p c && string_forall p rest
  end.

Definition is_hex (c : ascii) : bool :=
  match hex_value c with Some _ => true | None => false end.





(** ** A small cast, to run the definitions on *)

Definition alice : User.t := User.mk 5 "alice" "hash.salt" "collector" (Some 1) (Some 2).
Definition bob : User.t := User.mk 8 "bob" "hash.salt" "approver" (Some 1) (Some 2).

(* The store after alice opened one appointment, which got id 1. *)
Definition one_pending : Server :=
  snd (post_api_appointments "2025-06-01T09:00:00.000Z" "2025-06-01T09:00:00.001Z"
         (Some alice)
         (PartialAppointment.mk None (Some 9) (Some 2) None None None None
            (Some (JObj [("date"%string, JStr "2025-06-01")])) None)
         (mkServer initial_storage [])).

(* bob approved the appointment. *)
Definition one_approved : Server :=
  snd (patch_api_appointments_id (Some bob) "1" PartialAppointment.empty one_pending).

(** ** The other routes ([server/routes.ts]) *)

(* The JSON body of POST /api/users, read at the columns of [users]. *)
Module PartialUser.
Record t : Type := mk {
  id : option Z;
  username : option string;
  password : option string;
  role : option string;
  createdBy : option Z;
  teamId : option Z;
}.
End PartialUser.

(* insertUserSchema = createInsertSchema(users).extend({ role: z.enum([...]),
   createdBy: z.number().optional(), teamId: z.number({...}) }) *)
Definition insertUserSchema_parse (o : PartialUser.t) : result InsertUser.t :=
  match PartialUser.username o, PartialUser.password o,
        PartialUser.role o, PartialUser.teamId o with
  | Some u, Some p, Some r, Some t =>
      if String.eqb r "admin" || String.eqb r "collector" || String.eqb r "approver"
      then Ok (InsertUser.mk (PartialUser.id o) u p r (PartialUser.createdBy o) (Some t))
      else Throw ZodError
  | _, _, _, _ => Throw ZodError
  end.

(* The JSON body of POST /api/teams; a JSON body has no Date for [createdAt]. *)
Module PartialTeam.
Record t : Type := mk {
  id : option Z;
  name : option string;
  description : option string;
  createdBy : option Z;
}.
End PartialTeam.

(* insertTeamSchema = createInsertSchema(teams).extend({
     name: z.string().min(1, ...), description: z.string().optional() }) *)
Definition insertTeamSchema_parse (o : PartialTeam.t) : result InsertTeam.t :=
  match PartialTeam.name o, PartialTeam.createdBy o with
  | Some n, Some c =>
      if (1 <=? String.length n)%nat
      then Ok (InsertTeam.mk (PartialTeam.id o) n (PartialTeam.description o) c None)
      else Throw ZodError
  | _, _ => Throw ZodError
  end.

(* What these routes send besides the payloads above. *)
Inductive payload_more : Type :=
  | Sent (p : payload)
  | JsonUser (u : User.t)
  | JsonTeam (t : Team.t)
  | JsonTeams (l : list Team.t)
  | JsonClients (l : list Client.t)
  | JsonAppointments (l : list Appointment.t).

Record response_more : Type := mkResponseMore {
  code_more : Z;
  body_more : payload_more;
}.

Definition sent (res : response) : response_more :=
  mkResponseMore (code res) (Sent (body res)).

Section UserRoutes.
Variable scrypt : string -> string -> nat -> Buffer.

(* app.post("/api/users") *)
Definition post_api_users (entropy : Buffer) (user : option User.t)
    (req_body : PartialUser.t) : M Storage response_more :=
  match user with
  | None => ret (sent (sendStatus 401))
  | Some u =>
      if negb (role_is u "admin") then ret (sent (sendStatus 403))
      else
        let* userData := lift_result (insertUserSchema_parse
          (PartialUser.mk (PartialUser.id req_body) (PartialUser.username req_body)
             (PartialUser.password req_body) (PartialUser.role req_body)
             (Some (User.id u)) (PartialUser.teamId req_body))) in
        let* created := createUser scrypt entropy userData in
        ret (mkResponseMore 201 (JsonUser created))
  end.
End UserRoutes.

(* app.get("/api/users") *)
Definition get_api_users (user : option User.t) : M Storage response_more :=
  match user with
  | None => ret (sent (sendStatus 401))
  | Some u =>
      if negb (role_is u "admin") then ret (sent (sendStatus 403))
      else
        let* all := getAllUsers in
        ret (mkResponseMore 200 (Sent (JsonUsers all)))
  end.

(* app.post("/api/teams") *)
Definition post_api_teams (now : string) (user : option User.t)
    (req_body : PartialTeam.t) : M Storage response_more :=
  match user with
  | None => ret (sent (sendStatus 401))
  | Some u =>
      if negb (role_is u "admin") then ret (sent (sendStatus 403))
      else
        let* teamData := lift_result (insertTeamSchema_parse
          (PartialTeam.mk (PartialTeam.id req_body) (PartialTeam.name req_body)
             (PartialTeam.description req_body) (Some (User.id u)))) in
        let* team := createTeam now teamData in
        ret (mkResponseMore 201 (JsonTeam team))
  end.

(* app.get("/api/teams") *)
Definition get_api_teams (user : option User.t) : M Storage response_more :=
  match user with
  | None => ret (sent (sendStatus 401))
  | Some u =>
      if negb (role_is u "admin") then ret (sent (sendStatus 403))
      else
        let* all := getAllTeams in
        ret (mkResponseMore 200 (JsonTeams all))
  end.

(* app.get("/api/clients") *)
Definition get_api_clients (user : option User.t) : M Storage response_more :=
  match user with
  | None => ret (sent (sendStatus 401))
  | Some _ =>
      let* all := getAllClients in
      ret (mkResponseMore 200 (JsonClients all))
  end.

(* app.get("/api/appointments") *)
Definition get_api_appointments (user : option User.t) : M Storage response_more :=
  match user with
  | None => ret (sent (sendStatus 401))
  | Some _ =>
      let* all := getAllAppointments in
      ret (mkResponseMore 200 (JsonAppointments all))
  end.

(* A handler of the first group, run on the store alone. *)
Definition on_storage {A} (h : M Server A) : M Storage A :=
  fun st => let '(r, sv) := h (mkServer st []) in (r, storage sv).

(* Every route of the file but POST /api/clients. *)
Inductive any_request : Type :=
  | Earlier (r : request)
  | PostUser (entropy : Buffer) (user : option User.t) (req_body : PartialUser.t)
  | GetUsers (user : option User.t)
  | PostTeam (now : string) (user : option User.t) (req_body : PartialTeam.t)
  | GetTeams (user : option User.t)
  | GetClients (user : option User.t)
  | GetAppointments (user : option User.t).

Section ServingAll.
Variable scrypt : string -> string -> nat -> Buffer.

Definition handle_any (r : any_request) : M Storage response_more :=
  match r with
  | Earlier r0 =>
      let* res := on_storage (handle scrypt r0) in
      ret (sent res)
  | PostUser entropy user b => post_api_users scrypt entropy user b
  | GetUsers user => get_api_users user
  | PostTeam now user b => post_api_teams now user b
  | GetTeams user => get_api_teams user
  | GetClients user => get_api_clients user
  | GetAppointments user => get_api_appointments user
  end.

Definition serve_any (st : Storage) (r : any_request) : Storage :=
  snd (handle_any r st).

Definition serve_any_all (st : Storage) (rs : list any_request) : Storage :=
  fold_left serve_any rs st.
End ServingAll.

(* The caller of a request. *)
Definition caller_of (r : request) : option User.t :=
  match r with
  | GetTeamMembers u _ | PostTeamMember _ u _ _ | GetClient u _
  | PostAppointment _ _ u _ | PatchAppointment u _ _ | PostPdf u _ _
  | DownloadPdf u _ | GetAppointment u _ | GetAppointmentPdf u _
  | ChangePassword _ u _ _ => u
  end.

Definition caller_of_any (r : any_request) : option User.t :=
  match r with
  | Earlier r0 => caller_of r0
  | PostUser _ u _ | GetUsers u | PostTeam _ u _ | GetTeams u
  | GetClients u | GetAppointments u => u
  end.

(* The caller is authenticated and has the role the route asks for. *)
Definition admitted_any (r : any_request) : bool :=
  match r with
  | Earlier r0 => admitted r0
  | PostUser _ (Some u) _ | GetUsers (Some u) | PostTeam _ (Some u) _
  | GetTeams (Some u) => role_is u "admin"
  | GetClients (Some _) | GetAppointments (Some _) => true
  | _ => false
  end.

(* A computation whose effect on the store is that of a sequence of writing
   calls of the storage interface; [proj] finds the store in the state. *)
Definition acts_by_calls (scrypt : string -> string -> nat -> Buffer)
    {S A} (proj : S -> Storage) (m : M S A) : Prop :=
  forall s, exists cs, proj (snd (m s)) = perform_all scrypt (proj s) cs.

(* What a user is for good: everything but the password and the team. *)
Definition same_identity (u u' : User.t) : Prop :=
  User.id u' = User.id u /\ User.username u' = User.username u /\
  User.role u' = User.role u /\ User.createdBy u' = User.createdBy u.

(* Nothing of [st] is missing in [st']: every user is there with its
   identity and the users are as many or more, teams, team members and
   clients are as they were, the appointments are as many or more, and the
   ids with a PDF have one. *)
Definition grows (st st' : Storage) : Prop :=
  (forall u, u ∈ rows (users st) ->
             exists u', u' ∈ rows (users st') /\ same_identity u u') /\
  (length (rows (users st)) <= length (rows (users st')))%nat /\
  rows (teams st) `prefix_of` rows (teams st') /\
  rows (teamMembers st) `prefix_of` rows (teamMembers st') /\
  rows (clients st) `prefix_of` rows (clients st') /\
  (length (rows (appointments st)) <= length (rows (appointments st')))%nat /\
  (forall id, is_Some (pdfStorage st !! id) -> is_Some (pdfStorage st' !! id)).

(* The store once the constructor has made the first administrator, and
   that administrator. *)
Definition booted : Storage :=
  snd (ensureAdminUser toy_scrypt (repeat x01 16) initial_storage).

Definition admin : User.t :=
  User.mk 1 "admin" (hashPassword toy_scrypt (repeat x01 16) "admin123") "admin" None None.

(* { ...appointment, pdfUrl } *)
Definition with_pdfUrl (pdfUrl : string) (a : Appointment.t) : Appointment.t :=
  Appointment.mk (Appointment.id a) (Appointment.clientId a) (Appointment.teamId a)
    (Appointment.status a) (Appointment.collectedBy a) (Appointment.approvedBy a)
    (Some pdfUrl) (Appointment.bookingDetails a) (Appointment.createdAt a).

(* The digits of a decimal numeral, most significant first. *)
Fixpoint uint_digits (d : Decimal.uint) : list Z :=
  match d with
  | Decimal.Nil => []
  | Decimal.D0 d => 0 :: uint_digits d
  | Decimal.D1 d => 1 :: uint_digits d
  | Decimal.D2 d => 2 :: uint_digits d
  | Decimal.D3 d => 3 :: uint_digits d
  | Decimal.D4 d => 4 :: uint_digits d
  | Decimal.D5 d => 5 :: uint_digits d
  | Decimal.D6 d => 6 :: uint_digits d
  | Decimal.D7 d => 7 :: uint_digits d
  | Decimal.D8 d => 8 :: uint_digits d
  | Decimal.D9 d => 9 :: uint_digits d
  end.


(* An approved appointment names its approver. *)
Definition approver_recorded (a : Appointment.t) : Prop :=
  Appointment.status a = "approved"%string -> Appointment.approvedBy a <> None.

Definition approvals_signed (t : list Appointment.t) : Prop :=
  forall a, a ∈ t -> approver_recorded a.

Definition keeps_signed (t t' : list Appointment.t) : Prop :=
  approvals_signed t -> approvals_signed t'.


(* The method a route is registered under. *)
Inductive method : Type := GET | POST | PATCH.

Definition method_of (r : any_request) : method :=
  match r with
  | Earlier (GetTeamMembers _ _) | Earlier (GetClient _ _) | Earlier (DownloadPdf _ _)
  | Earlier (GetAppointment _ _) | Earlier (GetAppointmentPdf _ _)
  | GetUsers _ | GetTeams _ | GetClients _ | GetAppointments _ => GET
  | Earlier (PatchAppointment _ _ _) => PATCH
  | Earlier (PostTeamMember _ _ _ _) | Earlier (PostAppointment _ _ _ _)
  | Earlier (PostPdf _ _ _) | Earlier (ChangePassword _ _ _ _)
  | PostUser _ _ _ | PostTeam _ _ _ => POST
  end.

(** * Properties *)

Example parseInt_12abc : parseInt "12abc" = Int 12.
Proof. reflexivity. Qed.

Example parseInt_neg : parseInt "  -5" = Int (-5).
Proof. reflexivity. Qed.

Example parseInt_abc : parseInt "abc" = NaN.
Proof. reflexivity. Qed.

Example split_example : split_on "." "ab.cd" = ["ab"; "cd"]%string.
Proof. reflexivity. Qed.

(** ** The engine *)

Section EngineFacts.
Context {R : Type} `{Row R}.

Lemma unique_lookup_lt (l : list R) (i j : nat) (x y : R) :
  unique l = true -> (i < j)%nat -> l !! i = Some x -> l !! j = Some y ->
  clash x y = false.
Proof.
  revert i j. induction l as [|r l IH]; intros i j U Hij Hi Hj; [done|].
  simpl in U. apply andb_true_iff in U as [U1 U2].
  destruct i as [|i], j as [|j]; try lia; simpl in *.
  - injection Hi as ->. rewrite forallb_forall in U1.
    apply negb_true_iff, U1, list_elem_of_In. eapply list_elem_of_lookup_2; eauto.
  - apply (IH i j); auto. lia.
Qed.

Lemma unique_lookup (l : list R) (i j : nat) (x y : R) :
  unique l = true -> i <> j -> l !! i = Some x -> l !! j = Some y ->
  clash x y = false.
Proof.
  intros U Hij Hi Hj. destruct (decide (i < j)%nat).
  - eapply unique_lookup_lt; eauto.
  - rewrite clash_sym. eapply (unique_lookup_lt l j i); eauto. lia.
Qed.

(* An assignment that keeps every row's clashes keeps the table unique. *)
Lemma unique_fmap_same_clash (f : R -> R) (l : list R) :
  (forall r1 r2, clash (f r1) (f r2) = clash r1 r2) ->
  unique (f <$> l) = unique l.
Proof.
  intros Hf. induction l as [|r l IH]; [done|].
  rewrite fmap_cons. cbn [unique]. rewrite IH. f_equal.
  clear IH. induction l as [|x l IHl]; [done|].
  rewrite fmap_cons. cbn [forallb]. by rewrite Hf, IHl.
Qed.

Lemma forallb_perm {A} (q : A -> bool) (l l' : list A) :
  l ≡ₚ l' -> forallb q l = forallb q l'.
Proof.
  induction 1 as [|x l l' _ IH|x y l|l l' l'' _ IH1 _ IH2]; simpl.
  - done.
  - by rewrite IH.
  - by rewrite !andb_assoc, (andb_comm (q y)).
  - by rewrite IH1.
Qed.

(* The constraints do not depend on the order of the rows. *)
Lemma unique_perm (l l' : list R) : l ≡ₚ l' -> unique l = unique l'.
Proof.
  induction 1 as [|x l l' Hp IH|x y l|l l' l'' _ IH1 _ IH2]; simpl.
  - done.
  - by rewrite IH, (forallb_perm _ _ _ Hp).
  - rewrite (clash_sym y x).
    destruct (clash x y), (forallb _ l), (forallb _ l), (unique l); done.
  - by rewrite IH1.
Qed.

(* The rows after an update are those of the table, each rewritten or not. *)
Lemma update_perm (p : R -> bool) (set : R -> R) (l : list R) :
  rewritten p set l ≡ₚ (fun r => if p r then set r else r) <$> l.
Proof.
  unfold rewritten. induction l as [|r l IH]; [done|].
  rewrite fmap_cons, !filter_cons.
  destruct (p r) eqn:E; simpl.
  - rewrite <- Permutation_middle. by apply Permutation_skip.
  - by apply Permutation_skip.
Qed.

Lemma elem_of_update (p : R -> bool) (set : R -> R) (l : list R) (x : R) :
  x ∈ rewritten p set l <->
  (x ∈ l /\ p x = false) \/ (exists r, r ∈ l /\ p r = true /\ x = set r).
Proof.
  unfold rewritten. rewrite elem_of_app, list_elem_of_filter, list_elem_of_fmap. split.
  - intros [[Hp Hx]|(r & -> & [Hp Hr]%list_elem_of_filter)].
    + left. split; [done|]. by destruct (p x).
    + right. exists r. split; [done|]. split; [|done]. by apply Is_true_eq_true.
  - intros [[Hx Hp]|(r & Hr & Hp & ->)].
    + left. split; [|done]. by rewrite Hp.
    + right. exists r. split; [done|]. apply list_elem_of_filter. split; [|done].
      by apply Is_true_eq_left.
Qed.

Lemma length_update (p : R -> bool) (set : R -> R) (l : list R) :
  length (rewritten p set l) = length l.
Proof.
  rewrite (Permutation_length (update_perm p set l)). apply length_fmap.
Qed.

Lemma rewritten_none (p : R -> bool) (set : R -> R) (l : list R) :
  (forall r, r ∈ l -> p r = false) -> rewritten p set l = l.
Proof.
  intros Hp. unfold rewritten. induction l as [|r l IH]; [done|].
  rewrite !filter_cons, (Hp r) by left. simpl.
  f_equal. apply IH. intros r' Hr'. apply Hp. by right.
Qed.

(* The rows that [p] selects, after an update that keeps them selected. *)
Lemma filter_rewritten (p : R -> bool) (set : R -> R) (l : list R) :
  (forall r, p r = true -> p (set r) = true) ->
  filter p (rewritten p set l) = set <$> filter p l.
Proof.
  intros Hset. unfold rewritten. rewrite filter_app.
  assert (filter p (filter (fun r => negb (p r)) l) = []) as ->.
  { induction l as [|r l IH]; [done|]. rewrite filter_cons.
    destruct (p r) eqn:E; simpl; [exact IH|]. rewrite filter_cons, E. exact IH. }
  simpl. induction l as [|r l IH]; [done|]. rewrite filter_cons.
  destruct (p r) eqn:E; simpl; [|exact IH].
  rewrite filter_cons, (Hset r E). simpl. f_equal. exact IH.
Qed.

(* At most one row has a given key. *)
Lemma unique_filter_one (p : R -> bool) (l : list R) (a : R) :
  unique l = true ->
  (forall x y, p x = true -> p y = true -> clash x y = true) ->
  head (filter p l) = Some a -> filter p l = [a].
Proof.
  intros U Hp. induction l as [|r l IH]; [done|].
  simpl in U. apply andb_true_iff in U as [U1 U2].
  rewrite filter_cons. destruct (p r) eqn:E; simpl; [|by apply IH].
  intros [= ->]. f_equal.
  destruct (filter p l) as [|x rest] eqn:Ef; [done|exfalso].
  assert (x ∈ filter p l) as [Hx Hin]%list_elem_of_filter by (rewrite Ef; left).
  rewrite forallb_forall in U1. apply list_elem_of_In, U1 in Hin.
  rewrite (Hp a x E) in Hin by (by apply Is_true_eq_true). discriminate.
Qed.

Lemma valid_rows_unique (l : list R) : valid_rows l = true -> unique l = true.
Proof. unfold valid_rows. by intros [[U _]%andb_true_iff _]%andb_true_iff. Qed.

Lemma valid_rows_elem (l : list R) (r : R) :
  valid_rows l = true -> r ∈ l -> in_range r = true /\ not_null r = true.
Proof.
  unfold valid_rows. intros [[_ Hr]%andb_true_iff Hn]%andb_true_iff Hin.
  rewrite forallb_forall in Hr, Hn. apply list_elem_of_In in Hin. auto.
Qed.

Lemma int4_param_ok (z : Z) : int4 z = true -> int4_param z = Ok z.
Proof. unfold int4_param. by intros ->. Qed.

Lemma int4_param_Ok (z k : Z) : int4_param z = Ok k -> k = z /\ int4 z = true.
Proof.
  unfold int4_param. destruct (int4 z); [by intros [= <-]|].
  by destruct (Z.abs z <? _).
Qed.

Lemma int4_param_Throw (z : Z) (e : error) :
  int4_param z = Throw e -> int4 z = false /\ refused_integer e.
Proof.
  unfold int4_param, refused_integer. destruct (int4 z); [done|].
  destruct (Z.abs z <? _); intros [= <-]; auto.
Qed.

Lemma int4_params_ok (zs : list Z) : int4_params zs = Ok tt <-> forallb int4 zs = true.
Proof.
  induction zs as [|z zs IH]; simpl; [done|].
  unfold int4_param. destruct (int4 z); simpl; [exact IH|].
  by destruct (Z.abs z <? _).
Qed.

Lemma int4_params_Throw (zs : list Z) (e : error) :
  int4_params zs = Throw e -> forallb int4 zs = false /\ refused_integer e.
Proof.
  induction zs as [|z zs IH]; simpl; [done|].
  destruct (int4_param z) as [k|e'] eqn:E.
  - apply int4_param_Ok in E as [_ ->]. exact IH.
  - apply int4_param_Throw in E as [-> He]. by intros [= <-].
Qed.

(* What an insertion does, case by case. *)
Lemma insert_returning_rows supplied mk (t : table R) :
  match insert_returning supplied mk t with
  | (Ok r, t') =>
      rows t' = rows t ++ [r] /\ unique (rows t') = true /\
      r = mk (default (last_value t + 1) supplied) /\
      not_null r = true /\
      forallb int4 (insert_integers supplied mk) = true /\
      (supplied = None -> last_value t < 2147483647)
  | (Throw e, t') =>
      rows t' = rows t /\
      ((refused_integer e /\ forallb int4 (insert_integers supplied mk) = false /\ t' = t) \/
       (e = SequenceLimitExceeded /\ supplied = None /\ 2147483647 <= last_value t /\ t' = t) \/
       (e = NotNullViolation /\
        not_null (mk (default (last_value t + 1) supplied)) = false) \/
       (e = UniqueViolation /\
        unique (rows t ++ [mk (default (last_value t + 1) supplied)]) = false))
  end.
Proof.
  unfold insert_returning.
  destruct (int4_params (insert_integers supplied mk)) as [[]|e] eqn:Ep.
  - apply int4_params_ok in Ep.
    destruct supplied as [id|]; simpl.
    + destruct (not_null (mk id)) eqn:En; simpl; [|by auto 6].
      destruct (unique (rows t ++ [mk id])) eqn:U; simpl; [|by auto 6].
      repeat split; auto. discriminate.
    + destruct (2147483647 <=? last_value t) eqn:El; simpl.
      { apply Z.leb_le in El. split; [done|]. right. left. done. }
      apply Z.leb_gt in El.
      destruct (not_null (mk (last_value t + 1))) eqn:En; simpl; [|by auto 6].
      destruct (unique (rows t ++ [mk (last_value t + 1)])) eqn:U; simpl; [|by auto 6].
      repeat split; auto.
  - apply int4_params_Throw in Ep as [Hf He]. simpl. auto.
Qed.

(* The key of an inserted row is in the range of its column. *)
Lemma insert_returning_pkey supplied mk (t t' : table R) (r : R) :
  (forall id, pkey (mk id) = id) -> 0 <= last_value t ->
  insert_returning supplied mk t = (Ok r, t') -> int4 (pkey r) = true.
Proof.
  intros Hmk Hl E. pose proof (insert_returning_rows supplied mk t) as Hi.
  rewrite E in Hi. destruct Hi as (_ & _ & -> & _ & Hf & Hs). rewrite Hmk.
  destruct supplied as [id|]; simpl in *.
  - by apply andb_true_iff in Hf as [Hf _].
  - specialize (Hs eq_refl). unfold int4. apply andb_true_iff. split; apply Z.leb_le; lia.
Qed.

(* What an update does, case by case. *)
Lemma update_returning_rows (p : R -> bool) (set : R -> R) (t : table R) :
  let updated := set <$> filter p (rows t) in
  let rows' := rewritten p set (rows t) in
  match update_returning p set t with
  | (Ok l, t') => l = updated /\ rows t' = rows' /\ unique rows' = true /\
                  forallb not_null updated = true /\ last_value t' = last_value t
  | (Throw e, t') =>
      t' = t /\
      ((e = NotNullViolation /\ forallb not_null updated = false) \/
       (e = UniqueViolation /\ unique rows' = false))
  end.
Proof.
  unfold update_returning. simpl.
  destruct (forallb not_null _) eqn:En; simpl; [|by auto].
  match goal with |- context [unique ?l] => destruct (unique l) eqn:U end; simpl; auto.
Qed.

(* An update that keeps what the constraints look at is accepted. *)
Lemma update_keeping_clashes (p : R -> bool) (set : R -> R) (t : table R) :
  unique (rows t) = true ->
  (forall r1 r2, clash (if p r1 then set r1 else r1) (if p r2 then set r2 else r2)
                 = clash r1 r2) ->
  (forall r, r ∈ rows t -> p r = true -> not_null (set r) = true) ->
  update_returning p set t =
  (Ok (set <$> filter p (rows t)), Table (rewritten p set (rows t)) (last_value t)).
Proof.
  intros U Hc Hn. unfold update_returning.
  assert (forallb not_null (set <$> filter p (rows t)) = true) as ->.
  { apply forallb_forall. intros x Hx%list_elem_of_In.
    apply list_elem_of_fmap in Hx as (r & -> & [Hp Hr]%list_elem_of_filter).
    apply Hn; [done|]. by apply Is_true_eq_true. }
  simpl. by rewrite (unique_perm _ _ (update_perm p set (rows t))),
                    (unique_fmap_same_clash _ _ Hc), U.
Qed.
End EngineFacts.

Lemma head_filter_lookup {R} (p : R -> bool) (l : list R) (a : R) :
  head (filter p l) = Some a -> p a = true /\ exists i, l !! i = Some a.
Proof.
  intros Hh. apply head_Some_elem_of, list_elem_of_filter in Hh as [Hp Hin].
  split; [by apply Is_true_eq_true|]. by apply list_elem_of_lookup_1.
Qed.

Lemma head_filter_only {R} `{Row R} (p : R -> bool) (l : list R) (k : nat) (a : R) :
  unique l = true -> l !! k = Some a -> p a = true ->
  (forall x, p x = true -> clash x a = true) ->
  head (filter p l) = Some a.
Proof.
  intros Hu Hk Hp Hclash.
  destruct (head (filter p l)) as [a0|] eqn:Hhead.
  - destruct (head_filter_lookup _ _ _ Hhead) as (Hp0 & i & Hi).
    destruct (decide (i = k)) as [->|Hne]; [congruence|]. exfalso.
    pose proof (unique_lookup l i k a0 a Hu Hne Hi Hk) as Hc.
    rewrite (Hclash a0 Hp0) in Hc. discriminate.
  - exfalso. apply head_None in Hhead.
    assert (a ∈ filter p l) as Hin.
    { apply list_elem_of_filter. split; [by apply Is_true_eq_left|].
      by eapply list_elem_of_lookup_2. }
    rewrite Hhead in Hin. by apply elem_of_nil in Hin.
Qed.

(* A row that cannot be appended clashes with a row of the table. *)
Lemma unique_snoc_false {R} `{Row R} (l : list R) (r : R) :
  unique l = true -> unique (l ++ [r]) = false ->
  exists x, x ∈ l /\ clash x r = true.
Proof.
  induction l as [|x l IH]; simpl; [discriminate|].
  intros [U1 U2]%andb_true_iff. rewrite forallb_app, U1. simpl.
  rewrite andb_true_r.
  destruct (clash x r) eqn:Hc; simpl.
  - intros _. exists x. split; [left|exact Hc].
  - intros Hf. destruct (IH U2 Hf) as (y & Hy & Hcy). exists y. split; [by right|exact Hcy].
Qed.

Lemma lookup_snoc_last {A} (l : list A) (x : A) : (l ++ [x]) !! length l = Some x.
Proof. by rewrite lookup_app_r, Nat.sub_diag. Qed.


(* A concrete store satisfies its constraints: by evaluation. *)
Ltac check_consistent := repeat split; try reflexivity; vm_compute; discriminate.

(** ** The blob store *)

Lemma on_table_run {R A} (get : Storage -> table R) set
    (stmt : table R -> result A * table R) st :
  on_table get set stmt st = (fst (stmt (get st)), set (snd (stmt (get st))) st).
Proof. unfold on_table. by destruct (stmt (get st)). Qed.

(* A store operation is run through, whatever the engine answers. *)
Ltac run_store :=
  intros;
  unfold getUser, getTeamMembers, addTeamMember, removeTeamMember, updateUserTeam,
         updateUserPassword, createUser, createTeam, createClient, createAppointment,
         updateAppointment, getClient, getAppointment, getPdf, storePdf,
         bind, lift_result, ret, throw, gets, modify;
  repeat first
    [ rewrite on_table_run
    | match goal with
      | |- context [match ?x with _ => _ end] => destruct x
      | |- context [if ?x then _ else _] => destruct x
      end ];
  try done.

Section CallFacts.
Variable scrypt : string -> string -> nat -> Buffer.

(* Only storePdf writes the blob store. *)
Lemma perform_pdfStorage st c :
  pdfStorage (perform scrypt st c) =
  match c with
  | call_storePdf id buf => <[id := buf]> (pdfStorage st)
  | _ => pdfStorage st
  end.
Proof. destruct c; simpl; run_store. Qed.

Lemma never_stored_absent (cs : list call) (id : number) (st : Storage) :
  (forall bytes, call_storePdf id bytes ∉ cs) ->
  pdfStorage (perform_all scrypt st cs) !! id = pdfStorage st !! id.
Proof.
  revert st. induction cs as [|c cs IH]; intros st Hcs; [done|].
  simpl. rewrite IH.
  - rewrite perform_pdfStorage. destruct c; try done.
    apply lookup_insert_ne. intros ->. eapply Hcs. left.
  - intros bytes Hin. eapply Hcs. right. exact Hin.
Qed.
End CallFacts.

(** C8. Reading the blob store at an id returns exactly the bytes that
    [storePdf] put there, whatever the store held before; and at an id for
    which [storePdf] was never called, in a store that started empty and
    went through any calls of the storage interface, it returns absent. *)
Theorem getPdf_storePdf :
  (forall (st : Storage) (id : number) (bytes : Buffer),
     let st' := snd (storePdf id bytes st) in
     fst (storePdf id bytes st) = Ok tt /\
     getPdf id st' = (Ok (Some bytes), st')) /\
  (forall scrypt (cs : list call) (id : number),
     (forall bytes, call_storePdf id bytes ∉ cs) ->
     let st := perform_all scrypt initial_storage cs in
     getPdf id st = (Ok None, st)).
Proof.
  split.
  - intros st id bytes. simpl. split; [done|].
    unfold getPdf, gets. simpl. by rewrite lookup_insert_eq.
  - intros scrypt cs id Hcs. simpl. unfold getPdf, gets.
    rewrite (never_stored_absent scrypt cs id initial_storage Hcs). done.
Qed.

Lemma getPdf_storePdf_witness :
  let cs := [call_createAppointment "2025-01-01"
               (InsertAppointment.mk None 1 1 "pending" 1 None None JNull "2025-01-01");
             call_storePdf (Int 1) [x25; x50; x44; x46]] in
  (forall bytes, call_storePdf (Int 2) bytes ∉ cs) /\
  getPdf (Int 2) (perform_all toy_scrypt initial_storage cs)
  = (Ok None, perform_all toy_scrypt initial_storage cs).
Proof.
  intros cs.
  assert (Hcs : forall bytes, call_storePdf (Int 2) bytes ∉ cs).
  { intros bytes Hin. unfold cs in Hin.
    apply elem_of_cons in Hin as [Hin|Hin]; [discriminate|].
    apply elem_of_cons in Hin as [Hin|Hin]; [discriminate|].
    by apply elem_of_nil in Hin. }
  split; [exact Hcs|].
  exact (proj2 getPdf_storePdf toy_scrypt cs (Int 2) Hcs).
Defined.

(** ** Store operations, run *)

Lemma invalid_id_Int (z : Z) : invalid_id (Int z) = (z <? 1).
Proof. reflexivity. Qed.

Lemma invalid_id_spec (id : number) : invalid_id id = true <-> ~ positive_integer id.
Proof.
  unfold positive_integer, invalid_id. destruct id as [z| |b]; simpl.
  - rewrite Z.ltb_lt. split.
    + intros Hz (z' & [= <-] & Hz'). lia.
    + intros Hn. destruct (decide (z < 1)); [done|]. exfalso. apply Hn. exists z. split; [done|lia].
  - split; [|done]. intros _ (z & [=] & _).
  - split; [|done]. intros _ (z & [=] & _).
Qed.

(* The three guarded getters answer absent, without a query, for an id
   that is not a positive integer. *)
Lemma guarded_getters_absent (st : Storage) (id : number) :
  ~ positive_integer id ->
  getTeam id st = (Ok None, st) /\
  getClient id st = (Ok None, st) /\
  getAppointment id st = (Ok None, st).
Proof.
  intros Hid. apply invalid_id_spec in Hid.
  unfold getTeam, getClient, getAppointment. rewrite Hid. done.
Qed.

Lemma getAppointment_run (id : number) (st : Storage) :
  getAppointment id st =
  (match id with
   | Int z => if z <? 1 then Ok None
              else match int4_param z with
                   | Ok _ => Ok (head (filter (fun a => Appointment.id a =? z)
                                         (rows (appointments st))))
                   | Throw e => Throw e
                   end
   | _ => Ok None
   end, st).
Proof.
  unfold getAppointment, invalid_id. destruct id as [z| |b]; simpl; try done.
  destruct (z <? 1); [done|]. unfold bind, lift_result. simpl.
  destruct (int4_param z) as [k|e] eqn:E; [|done].
  by apply int4_param_Ok in E as [-> _].
Qed.

Lemma getClient_run (id : number) (st : Storage) :
  getClient id st =
  (match id with
   | Int z => if z <? 1 then Ok None
              else match int4_param z with
                   | Ok _ => Ok (head (filter (fun c => Client.id c =? z) (rows (clients st))))
                   | Throw e => Throw e
                   end
   | _ => Ok None
   end, st).
Proof.
  unfold getClient, invalid_id. destruct id as [z| |b]; simpl; try done.
  destruct (z <? 1); [done|]. unfold bind, lift_result. simpl.
  destruct (int4_param z) as [k|e] eqn:E; [|done].
  by apply int4_param_Ok in E as [-> _].
Qed.

(* An id that the guard lets through and the column can hold. *)
Lemma getAppointment_in_range (z : Z) (st : Storage) :
  1 <= z -> int4 z = true ->
  getAppointment (Int z) st
  = (Ok (head (filter (fun a => Appointment.id a =? z) (rows (appointments st)))), st).
Proof.
  intros Hz Hr. rewrite getAppointment_run, (int4_param_ok _ Hr).
  destruct (z <? 1) eqn:E; [apply Z.ltb_lt in E; lia|done].
Qed.

(** C5, at the inputs where the code departs from it.  [getTeam],
    [getClient] and [getAppointment] answer absent, without a query, for
    every id that is not a positive integer.  [getUser] has no guard: a
    non-integral id goes to the engine, which rejects it, so the promise is
    rejected instead of resolving to absent; and the id 0 is looked up like
    any other, so a user stored under 0 is returned. *)
Theorem getUser_unguarded :
  (forall st id, ~ positive_integer id ->
                 getTeam id st = (Ok None, st) /\
                 getClient id st = (Ok None, st) /\
                 getAppointment id st = (Ok None, st)) /\
  ~ positive_integer (NonInteger 1) /\
  (forall st, getUser (NonInteger 1) st = (Throw InvalidIntegerSyntax, st)) /\
  ~ positive_integer NaN /\
  (forall st, getUser NaN st = (Throw InvalidIntegerSyntax, st)) /\
  ~ positive_integer (Int 0) /\
  (forall scrypt,
     let st := perform scrypt initial_storage
                 (call_createUser [] (InsertUser.mk (Some 0) "zero" "pw" "collector" None None)) in
     exists u, getUser (Int 0) st = (Ok (Some u), st) /\ User.id u = 0).
Proof.
  split; [exact guarded_getters_absent|].
  split; [intros (z & [=] & _)|]. split; [done|].
  split; [intros (z & [=] & _)|]. split; [done|].
  split; [intros (z & [= <-] & Hz); lia|].
  intros scrypt. eexists. split; reflexivity.
Qed.

Lemma getUser_unguarded_witness :
  ~ positive_integer (Int (-3)) /\
  getTeam (Int (-3)) initial_storage = (Ok None, initial_storage) /\
  getClient (Int (-3)) initial_storage = (Ok None, initial_storage) /\
  getAppointment (Int (-3)) initial_storage = (Ok None, initial_storage).
Proof.
  assert (H : ~ positive_integer (Int (-3))) by (intros (z & [= <-] & Hz); lia).
  split; [exact H|].
  exact (proj1 getUser_unguarded initial_storage (Int (-3)) H).
Defined.

(** ** Team membership *)

Lemma updateUserTeam_run (uid : Z) (team : option Z) (st : Storage) :
  unique (rows (users st)) = true ->
  int4 uid = true -> forallb int4 (nullable team) = true ->
  updateUserTeam (Int uid) (Int <$> team) st
  = (Ok tt, set_users (Table (rewritten (fun x => User.id x =? uid) (with_user_teamId team)
                                (rows (users st)))
                             (last_value (users st))) st).
Proof.
  intros Uu Hu Ht. unfold updateUserTeam, bind, lift_result, ret. simpl.
  rewrite (int4_param_ok _ Hu).
  destruct team as [t|]; simpl in *.
  - apply andb_true_iff in Ht as [Ht _]. rewrite (int4_param_ok _ Ht).
    rewrite on_table_run, (update_keeping_clashes _ _ _ Uu); try done.
    intros r1 r2. by destruct (User.id r1 =? uid), (User.id r2 =? uid).
  - rewrite on_table_run, (update_keeping_clashes _ _ _ Uu); try done.
    intros r1 r2. by destruct (User.id r1 =? uid), (User.id r2 =? uid).
Qed.

(* A user id the column cannot hold: the statement is refused. *)
Lemma updateUserTeam_refused (userId : number) (team : option number) (st : Storage) :
  match userId with Int z => int4 z = false | _ => True end ->
  exists e, updateUserTeam userId team st = (Throw e, st) /\ refused_integer e.
Proof.
  intros Hid. unfold updateUserTeam, bind, lift_result, ret.
  destruct (match team with Some n => _ | None => _ end) as [t|e] eqn:Et.
  - destruct userId as [z| |b]; simpl.
    + destruct (int4_param z) as [k|e] eqn:E.
      * apply int4_param_Ok in E as [_ E]. congruence.
      * apply int4_param_Throw in E as [_ E]. eauto.
    + exists InvalidIntegerSyntax. split; [done|by right].
    + exists InvalidIntegerSyntax. split; [done|by right].
  - exists e. split; [done|].
    destruct team as [[z| |b]|]; simpl in Et; try discriminate.
    + destruct (int4_param z) as [k|e'] eqn:E; [discriminate|].
      injection Et as <-. by apply int4_param_Throw in E as [_ E].
    + injection Et as <-. by right.
    + injection Et as <-. by right.
Qed.

(** C9. [removeTeamMember] never looks at its [teamId] argument (the
    boundary passes the sentinel 0) and leaves the [team_members] table as
    it was.  In a database that satisfies its constraints, for every user
    of the table, the call with that user's id is fulfilled and sets the
    [teamId] column of that user to null; no other user changes.  With an
    id that no user has nothing changes: the call is fulfilled when the id
    is a 32-bit integer and is rejected by the engine otherwise. *)
Theorem removeTeamMember_clears_teamId (st : Storage) (teamId userId : number) :
  consistent st ->
  let st' := snd (removeTeamMember teamId userId st) in
  removeTeamMember teamId userId st = removeTeamMember (Int 0) userId st /\
  teamMembers st' = teamMembers st /\
  (forall u, u ∈ rows (users st) -> userId = Int (User.id u) ->
     fst (removeTeamMember teamId userId st) = Ok tt /\
     with_user_teamId None u ∈ rows (users st') /\
     (forall u', u' ∈ rows (users st') -> User.id u' = User.id u -> User.teamId u' = None)) /\
  (forall z u', userId = Int z -> User.id u' <> z ->
     u' ∈ rows (users st') <-> u' ∈ rows (users st)) /\
  ((forall u, u ∈ rows (users st) -> userId <> Int (User.id u)) ->
   st' = st /\
   match userId with
   | Int z => if int4 z then fst (removeTeamMember teamId userId st) = Ok tt
              else exists e, fst (removeTeamMember teamId userId st) = Throw e /\
                             refused_integer e
   | _ => fst (removeTeamMember teamId userId st) = Throw InvalidIntegerSyntax
   end).
Proof.
  intros (Vu & _). pose proof (valid_rows_unique _ Vu) as Uu.
  simpl. split; [done|]. unfold removeTeamMember.
  assert (forall z, int4 z = true ->
            updateUserTeam (Int z) None st
            = (Ok tt, set_users (Table (rewritten (fun x => User.id x =? z)
                                          (with_user_teamId None) (rows (users st)))
                                       (last_value (users st))) st)) as Hrun.
  { intros z Hz. by apply (updateUserTeam_run z None st Uu Hz). }
  assert (forall z, int4 z = false ->
            exists e, updateUserTeam (Int z) None st = (Throw e, st) /\ refused_integer e)
    as Hrefused.
  { intros z Hz. by apply (updateUserTeam_refused (Int z) None st). }
  split; [|split; [|split]].
  - destruct userId as [z| |b]; [|done..].
    destruct (int4 z) eqn:Hz; [by rewrite (Hrun z Hz)|].
    destruct (Hrefused z Hz) as (e & -> & _). done.
  - intros u Hu ->.
    destruct (valid_rows_elem _ _ Vu Hu) as [[Hz _]%andb_true_iff _].
    change (pkey u) with (User.id u) in Hz.
    rewrite (Hrun _ Hz). cbn [fst snd users set_users rows].
    split; [done|]. split.
    + apply elem_of_update. right. exists u. split; [done|]. split; [apply Z.eqb_refl|done].
    + intros u' [[_ Hp]|(r & _ & _ & ->)]%elem_of_update Hid; [|done].
      apply Z.eqb_neq in Hp. contradiction.
  - intros z u' -> Hne.
    destruct (int4 z) eqn:Hz.
    + rewrite (Hrun z Hz). cbn [fst snd users set_users rows].
      rewrite elem_of_update. split.
      * intros [[Hin _]|(r & _ & Hp & ->)]; [done|].
        apply Z.eqb_eq in Hp. simpl in Hne. contradiction.
      * intros Hin. left. split; [done|]. by apply Z.eqb_neq.
    + destruct (Hrefused z Hz) as (e & -> & _). done.
  - intros Hnone. destruct userId as [z| |b]; [|done..].
    destruct (int4 z) eqn:Hz.
    + rewrite (Hrun z Hz). cbn [fst snd]. split; [|done].
      rewrite rewritten_none.
      * by destruct st as [[] ? ? ? ? ?].
      * intros r Hr. apply Z.eqb_neq. intros <-. by eapply Hnone.
    + destruct (Hrefused z Hz) as (e & -> & He). split; [done|eauto].
Qed.

Lemma removeTeamMember_clears_teamId_witness :
  let st := perform toy_scrypt initial_storage
              (call_createUser [] (InsertUser.mk None "alice" "p1" "collector" None (Some 4))) in
  let st' := snd (removeTeamMember (Int 0) (Int 1) st) in
  consistent st /\
  (exists u, u ∈ rows (users st) /\ User.id u = 1 /\ User.teamId u = Some 4) /\
  fst (removeTeamMember (Int 0) (Int 1) st) = Ok tt /\
  (forall u', u' ∈ rows (users st') -> User.id u' = 1 -> User.teamId u' = None).
Proof.
  intros st st'.
  assert (Hst : consistent st) by check_consistent.
  split; [exact Hst|].
  pose (u := User.mk 1 "alice" (hashPassword toy_scrypt [] "p1") "collector" None (Some 4)).
  assert (Hu : u ∈ rows (users st)) by (left).
  split; [exists u; repeat split; exact Hu|].
  destruct (removeTeamMember_clears_teamId st (Int 0) (Int 1) Hst) as (_ & _ & H & _).
  destruct (H u Hu eq_refl) as (H1 & _ & H2).
  split; [exact H1 | exact H2].
Defined.

(** ** Creating an appointment *)

Lemma createAppointment_run (now : string) (ins : InsertAppointment.t) (st : Storage) :
  let id := default (last_value (appointments st) + 1) (InsertAppointment.id ins) in
  match createAppointment now ins st with
  | (Ok a, st') =>
      a = new_appointment now ins id /\
      rows (appointments st') = rows (appointments st) ++ [a] /\
      unique (rows (appointments st')) = true /\
      st' = set_appointments (appointments st') st
  | (Throw e, st') =>
      rows (appointments st') = rows (appointments st) /\
      st' = set_appointments (appointments st') st /\
      ((e = UniqueViolation /\
        unique (rows (appointments st) ++ [new_appointment now ins id]) = false) \/
       (refused_integer e /\
        forallb int4 (insert_integers (InsertAppointment.id ins) (new_appointment now ins))
        = false) \/
       (e = SequenceLimitExceeded /\ InsertAppointment.id ins = None /\
        2147483647 <= last_value (appointments st)))
  end.
Proof.
  unfold createAppointment. rewrite on_table_run.
  match goal with |- context [insert_returning ?s ?mk ?t] =>
    pose proof (insert_returning_rows s mk t) as Hi;
    destruct (insert_returning s mk t) as [[a|e] t'] end; simpl.
  - destruct Hi as (Hr & Hu & -> & _). repeat split; auto.
  - destruct Hi as (Hr & [(He & Hf & _)|[(-> & Hs & Hl & _)|[(-> & Hn)|(-> & Hu)]]]).
    + split; [done|]. split; [done|]. right. left. split; [done|exact Hf].
    + split; [done|]. split; [done|]. right. right. done.
    + discriminate Hn.
    + split; [done|]. split; [done|]. left. done.
Qed.

(** C10. Whatever [bookingDetails] the input record carries, the row that
    [createAppointment] persists has [bookingDetails = {date: now}], [now]
    being the clock as the store reads it; the row is appended to the
    table.  The call fails for a duplicate id, for an integer that a column
    cannot hold and for an exhausted sequence, and then writes no row. *)
Theorem createAppointment_bookingDetails
    (now : string) (insertAppointment : InsertAppointment.t) (st : Storage) :
  match createAppointment now insertAppointment st with
  | (Ok a, st') =>
      Appointment.bookingDetails a = JObj [("date"%string, JStr now)] /\
      rows (appointments st') = rows (appointments st) ++ [a]
  | (Throw e, st') =>
      rows (appointments st') = rows (appointments st) /\
      ((e = UniqueViolation /\
        unique (rows (appointments st) ++
                [new_appointment now insertAppointment
                   (default (last_value (appointments st) + 1)
                            (InsertAppointment.id insertAppointment))]) = false) \/
       (refused_integer e /\
        forallb int4 (insert_integers (InsertAppointment.id insertAppointment)
                        (new_appointment now insertAppointment)) = false) \/
       (e = SequenceLimitExceeded /\ InsertAppointment.id insertAppointment = None /\
        2147483647 <= last_value (appointments st)))
  end.
Proof.
  pose proof (createAppointment_run now insertAppointment st) as Hrun. cbv zeta in Hrun.
  destruct (createAppointment now insertAppointment st) as [[a|e] st'] eqn:E.
  - destruct Hrun as (-> & Hr & _). split; [reflexivity|exact Hr].
  - destruct Hrun as (Hr & _ & Hcases). split; [exact Hr|exact Hcases].
Qed.

Example createAppointment_discards_supplied :
  fst (createAppointment "2025-06-01T10:00:00.000Z"
         (InsertAppointment.mk None 7 3 "pending" 2 None None
            (JObj [("date"%string, JStr "1999-12-31"); ("room"%string, JNum (Int 5))])
            "2025-06-01T09:59:59.000Z")
         initial_storage)
  = Ok (Appointment.mk 1 7 3 "pending" 2 None None
          (JObj [("date"%string, JStr "2025-06-01T10:00:00.000Z")])
          "2025-06-01T09:59:59.000Z").
Proof. reflexivity. Qed.

(** ** Handlers, run *)

Lemma invoke_run {A} (op : StoreOp) (m : M Storage A) (sv : Server) :
  invoke op m sv = (fst (m (storage sv)), mkServer (snd (m (storage sv))) (journal sv ++ [op])).
Proof. unfold invoke. by destruct (m (storage sv)). Qed.

Lemma role_is_spec (u : User.t) (r : string) : role_is u r = true <-> User.role u = r.
Proof. unfold role_is. apply String.eqb_eq. Qed.

(* What the schema accepts of { ...req.body, collectedBy, status, createdAt }. *)
Lemma parse_server_fields (req_body : PartialAppointment.t) (uid : Z) (now : string)
    (ins : InsertAppointment.t) :
  insertAppointmentSchema_parse
    (PartialAppointment.spread req_body
       (PartialAppointment.mk None None None (Some "pending"%string)
          (Some uid) None None None (Some now))) = Ok ins ->
  InsertAppointment.status ins = "pending"%string /\
  InsertAppointment.collectedBy ins = uid /\
  InsertAppointment.createdAt ins = now.
Proof.
  unfold insertAppointmentSchema_parse. simpl.
  destruct (PartialAppointment.clientId req_body); [|discriminate].
  destruct (PartialAppointment.teamId req_body); [|discriminate].
  destruct (PartialAppointment.bookingDetails req_body); [|discriminate].
  intros [= <-]. done.
Qed.

(** C2. When a collector asks for an appointment to be created, the row
    that is persisted and returned (status 201) has [status = "pending"]
    and [collectedBy] the caller's id, whatever the body says for those
    fields; when the request fails (the body lacks a required field, its
    id is taken, an integer does not fit its column, or the sequence of ids
    is exhausted) no appointment is written. *)
Theorem post_api_appointments_server_fields
    (now now' : string) (u : User.t) (req_body : PartialAppointment.t) (sv : Server) :
  User.role u = "collector"%string ->
  match post_api_appointments now now' (Some u) req_body sv with
  | (Ok res, sv') =>
      exists a, res = mkResponse 201 (JsonAppointment (Some a)) /\
                Appointment.status a = "pending"%string /\
                Appointment.collectedBy a = User.id u /\
                rows (appointments (storage sv')) = rows (appointments (storage sv)) ++ [a]
  | (Throw e, sv') =>
      (e = ZodError \/ e = UniqueViolation \/ refused_integer e \/
       e = SequenceLimitExceeded) /\
      rows (appointments (storage sv')) = rows (appointments (storage sv))
  end.
Proof.
  intros Hrole. apply role_is_spec in Hrole.
  unfold post_api_appointments. rewrite Hrole. simpl.
  unfold bind, lift_result, ret.
  match goal with |- context [insertAppointmentSchema_parse ?o] =>
    pose proof (parse_server_fields req_body (User.id u) now) as Hp;
    destruct (insertAppointmentSchema_parse o) as [ins|e] eqn:E end.
  - destruct (Hp ins eq_refl) as (Hs & Hc & _).
    rewrite invoke_run.
    pose proof (createAppointment_run now' ins (storage sv)) as Hrun. cbv zeta in Hrun.
    destruct (createAppointment now' ins (storage sv)) as [[a|e] st']; simpl.
    + destruct Hrun as (-> & Hr & _). exists (new_appointment now' ins
        (default (last_value (appointments (storage sv)) + 1) (InsertAppointment.id ins))).
      repeat split; auto.
    + destruct Hrun as (Hr & _ & [(-> & _)|[(He & _)|(-> & _)]]); auto.
  - unfold insertAppointmentSchema_parse in E.
    repeat match type of E with
           | match ?x with _ => _ end = _ => destruct x
           end; try discriminate; injection E as <-; auto.
Qed.

Lemma post_api_appointments_server_fields_witness :
  let alice := User.mk 5 "alice" "hash.salt" "collector" (Some 1) (Some 2) in
  let req_body := PartialAppointment.mk None (Some 9) (Some 2) (Some "approved"%string)
                    (Some 999) (Some (Some 999)) None (Some JNull) None in
  User.role alice = "collector"%string /\
  exists a sv',
    post_api_appointments "t0" "t1" (Some alice) req_body (mkServer initial_storage [])
    = (Ok (mkResponse 201 (JsonAppointment (Some a))), sv') /\
    Appointment.status a = "pending"%string /\ Appointment.collectedBy a = 5.
Proof.
  intros alice req_body. split; [reflexivity|].
  pose proof (post_api_appointments_server_fields "t0" "t1" alice req_body
                (mkServer initial_storage []) eq_refl) as H.
  destruct (post_api_appointments "t0" "t1" (Some alice) req_body
              (mkServer initial_storage [])) as [[res|e] sv'] eqn:E.
  - destruct H as (a & -> & Hs & Hc & _). exists a, sv'. auto.
  - exfalso. vm_compute in E. discriminate E.
Defined.

(** ** Updating an appointment *)


Lemma same_id_clash (z : Z) (x y : Appointment.t) :
  (Appointment.id x =? z) = true -> (Appointment.id y =? z) = true -> clash x y = true.
Proof. intros Hx%Z.eqb_eq Hy%Z.eqb_eq. simpl. apply Z.eqb_eq. congruence. Qed.

(* What [updateAppointment] does under an id the guard lets through, case
   by case. *)
Lemma updateAppointment_run (z : Z) (update : PartialAppointment.t) (st : Storage) :
  1 <= z ->
  let p := fun a => Appointment.id a =? z in
  let set := PartialAppointment.assign update in
  let rows' := rewritten p set (rows (appointments st)) in
  match updateAppointment (Int z) update st with
  | (Ok updated, st') =>
      rows (appointments st') = rows' /\
      unique rows' = true /\
      updated = set <$> head (filter p (rows (appointments st))) /\
      st' = set_appointments (appointments st') st
  | (Throw e, st') =>
      st' = st /\
      ((e = NoValuesToSet /\ PartialAppointment.is_empty update = true) \/
       (refused_integer e /\
        forallb int4 (PartialAppointment.set_integers update ++ [z]) = false) \/
       (e = NotNullViolation /\
        forallb not_null (set <$> filter p (rows (appointments st))) = false) \/
       (e = UniqueViolation /\ unique rows' = false))
  end.
Proof.
  intros Hz p set rows'. unfold updateAppointment. rewrite invalid_id_Int.
  destruct (z <? 1) eqn:E; [apply Z.ltb_lt in E; lia|].
  destruct (PartialAppointment.is_empty update) eqn:Ee; [by split; [|left]|].
  unfold bind, lift_result, ret. simpl.
  destruct (int4_params (PartialAppointment.set_integers update)) as [[]|e] eqn:Ep.
  2:{ apply int4_params_Throw in Ep as [Hf He]. split; [done|]. right. left.
      split; [done|]. by rewrite forallb_app, Hf. }
  destruct (int4_param z) as [k|e] eqn:Ez.
  2:{ apply int4_param_Throw in Ez as [Hf He]. split; [done|]. right. left.
      split; [done|]. rewrite forallb_app. simpl. rewrite Hf. apply andb_false_r. }
  apply int4_param_Ok in Ez as [-> Hk]. rewrite on_table_run.
  pose proof (update_returning_rows p set (appointments st)) as Hu. cbv zeta in Hu.
  fold p set.
  destruct (update_returning p set (appointments st)) as [[l|e] t']; simpl.
  - destruct Hu as (-> & Hr & Hq & _). repeat split; auto.
    by destruct (filter p (rows (appointments st))).
  - destruct Hu as (-> & Hcases). split; [by destruct st|]. right. right. exact Hcases.
Qed.

Lemma getAppointment_found (id : number) (st st1 : Storage) (a : Appointment.t) :
  getAppointment id st = (Ok (Some a), st1) ->
  exists z, id = Int z /\ 1 <= z /\ int4 z = true /\ st1 = st /\
            head (filter (fun a => Appointment.id a =? z) (rows (appointments st))) = Some a.
Proof.
  rewrite getAppointment_run. destruct id as [z| |b]; try discriminate.
  destruct (z <? 1) eqn:E; [discriminate|]. apply Z.ltb_ge in E.
  destruct (int4_param z) as [k|e] eqn:Ez; [|discriminate].
  apply int4_param_Ok in Ez as [_ Hz].
  intros [= H <-]. exists z. auto.
Qed.

(* An update that keeps the id of the appointment found, has a value to
   set, integers the columns can hold, and leaves no null where none is
   allowed, is accepted. *)
Lemma updateAppointment_found (z : Z) (update : PartialAppointment.t) (st : Storage)
    (a : Appointment.t) :
  1 <= z -> int4 z = true ->
  unique (rows (appointments st)) = true ->
  head (filter (fun x => Appointment.id x =? z) (rows (appointments st))) = Some a ->
  PartialAppointment.id update = None \/ PartialAppointment.id update = Some z ->
  PartialAppointment.is_empty update = false ->
  forallb int4 (PartialAppointment.set_integers update) = true ->
  not_null (PartialAppointment.assign update a) = true ->
  let rows' := rewritten (fun x => Appointment.id x =? z) (PartialAppointment.assign update)
                 (rows (appointments st)) in
  updateAppointment (Int z) update st
  = (Ok (Some (PartialAppointment.assign update a)),
     set_appointments (Table rows' (last_value (appointments st))) st)
  /\ head (filter (fun x => Appointment.id x =? z) rows')
     = Some (PartialAppointment.assign update a).
Proof.
  intros Hz Hr Hu Hhead Hid He Hints Hnn rows'.
  pose proof (unique_filter_one _ _ a Hu (same_id_clash z) Hhead) as Hone.
  set (f := PartialAppointment.assign update) in *.
  assert (forall r, (Appointment.id r =? z) = true -> Appointment.id (f r) = Appointment.id r)
    as Hf.
  { intros r E. apply Z.eqb_eq in E. unfold f. simpl. by destruct Hid as [-> | ->]. }
  split.
  - unfold updateAppointment. rewrite invalid_id_Int.
    destruct (z <? 1) eqn:E; [apply Z.ltb_lt in E; lia|]. fold f. rewrite He.
    unfold bind, lift_result, ret. simpl.
    apply int4_params_ok in Hints. rewrite Hints, (int4_param_ok _ Hr), on_table_run.
    rewrite (update_keeping_clashes _ _ _ Hu).
    + cbn [fst snd]. by rewrite Hone.
    + intros r1 r2. simpl.
      destruct (Appointment.id r1 =? z) eqn:E1, (Appointment.id r2 =? z) eqn:E2;
        by rewrite ?Hf.
    + intros r Hin Hp.
      assert (r ∈ filter (fun x => Appointment.id x =? z) (rows (appointments st))) as Hrf.
      { apply list_elem_of_filter. split; [by apply Is_true_eq_left|done]. }
      rewrite Hone in Hrf. by apply list_elem_of_singleton in Hrf as ->.
  - unfold rows'. rewrite filter_rewritten.
    + by rewrite Hone.
    + intros r E. rewrite (Hf r E). exact E.
Qed.

(* The integers of a PATCH body that are set: approvedBy is overridden. *)
Lemma patch_integers (a : Appointment.t) (b : PartialAppointment.t) (uid z : Z) :
  in_range a = true -> int4 uid = true -> int4 z = true ->
  forallb int4
    (PartialAppointment.set_integers
       (PartialAppointment.spread
          (PartialAppointment.spread (PartialAppointment.of_record a) b)
          (PartialAppointment.mk None None None (Some "approved"%string)
             None (Some (Some uid)) None None None)) ++ [z])
  = forallb int4 (nullable (PartialAppointment.id b) ++ nullable (PartialAppointment.clientId b)
                  ++ nullable (PartialAppointment.teamId b)
                  ++ nullable (PartialAppointment.collectedBy b)).
Proof.
  unfold in_range. simpl. intros Ha Hu Hz'.
  repeat (apply andb_true_iff in Ha as [? Ha]).
  unfold PartialAppointment.set_integers, PartialAppointment.spread,
         PartialAppointment.later. cbn [PartialAppointment.id PartialAppointment.clientId
    PartialAppointment.teamId PartialAppointment.collectedBy PartialAppointment.approvedBy
    PartialAppointment.of_record].
  destruct (PartialAppointment.id b), (PartialAppointment.clientId b),
           (PartialAppointment.teamId b), (PartialAppointment.collectedBy b); simpl;
    repeat match goal with H : int4 _ = true |- _ => rewrite H; clear H end;
    rewrite ?andb_true_r; reflexivity.
Qed.



Example patch_by_collector_forbidden :
  patch_api_appointments_id (Some alice) "1" PartialAppointment.empty one_pending
  = (Ok (mkResponse 403 (Text "Forbidden")), one_pending).
Proof. reflexivity. Qed.

(** ** The id path parameter *)

Lemma parseInt_range (s : string) : forall b, parseInt s <> NonInteger b.
Proof.
  intros b. unfold parseInt.
  destruct (skip_whitespace s) as [|c rest]; simpl; [discriminate|].
  repeat match goal with
         | |- context [match ?x with _ => _ end] => destruct x
         end; discriminate.
Qed.

(** C6, refuted as stated: the parameter "0" parses to 0, which is not a
    positive integer, and "-5" to -5; the request is not answered 400: the
    store's [getAppointment] is invoked, answers absent, and the response
    is 404.  On the team-members route the store runs its query with 0 and
    the response is 200. *)
Lemma nonpositive_id_reaches_store :
  parseInt "0" = Int 0 /\ parseInt "-5" = Int (-5) /\
  get_api_appointments_id (Some alice) "0" one_pending
  = (Ok (mkResponse 404 (Text "Not Found")),
     mkServer (storage one_pending) (journal one_pending ++ [op_getAppointment])) /\
  get_api_appointments_id (Some alice) "-5" one_pending
  = (Ok (mkResponse 404 (Text "Not Found")),
     mkServer (storage one_pending) (journal one_pending ++ [op_getAppointment])) /\
  get_api_teams_id_members (Some (User.mk 1 "admin" "h.s" "admin" None None)) "0" one_pending
  = (Ok (mkResponse 200 (JsonUsers [])),
     mkServer (storage one_pending) (journal one_pending ++ [op_getTeamMembers])).
Proof. repeat split. Qed.

(** C6, amended.  On every route with an id path parameter, for a caller
    the route admits: when parseInt finds no decimal digits in the
    parameter (after leading white space and a sign) the response is 400
    and the store is not invoked, the server is as it was; when the
    parameter parses to an integer below 1 the boundary does not reject it:
    the store is invoked once and, on the client and appointment routes,
    its guard answers absent, so the response is 404 and the store is
    unchanged. *)
Theorem unparsable_id_rejected
    (scrypt : string -> string -> nat -> Buffer)
    (r : request) (params_id : string) (sv : Server) :
  params_id_of r = Some params_id ->
  admitted r = true ->
  match parseInt params_id with
  | NaN => exists msg, handle scrypt r sv = (Ok (mkResponse 400 (Text msg)), sv)
  | Int z =>
      z < 1 -> (forall user, r <> GetTeamMembers user params_id) ->
      exists op, handle scrypt r sv
                 = (Ok (sendStatus 404), mkServer (storage sv) (journal sv ++ [op]))
  | NonInteger _ => False
  end.
Proof.
  intros Hid Hadm.
  destruct (parseInt params_id) as [z| |b] eqn:Hp.
  - intros Hz Hnot. apply Z.ltb_lt in Hz.
    destruct r as [[u|] i|now [u|] t m|[u|] i|now now' [u|] b|[u|] i b|[u|] i f
                  |[u|] i|[u|] i|[u|] i|e [u|] c n];
      try discriminate; injection Hid as ->; simpl in Hadm |- *.
    + exfalso. by eapply Hnot.
    + exists op_getClient. unfold get_api_clients_id, parseId. rewrite Hp. simpl.
      unfold bind. rewrite invoke_run, getClient_run, Hz. done.
    + exists op_getAppointment. unfold patch_api_appointments_id, parseId.
      rewrite Hadm, Hp. simpl.
      unfold bind. rewrite invoke_run, getAppointment_run, Hz. done.
    + exists op_getAppointment. unfold post_api_appointments_id_pdf, parseId.
      rewrite Hadm, Hp. simpl.
      unfold bind. rewrite invoke_run, getAppointment_run, Hz. done.
    + exists op_getAppointment. unfold get_api_appointments_id_download_pdf, parseId.
      rewrite Hp. simpl.
      unfold bind. rewrite invoke_run, getAppointment_run, Hz. done.
    + exists op_getAppointment. unfold get_api_appointments_id, parseId.
      rewrite Hp. simpl.
      unfold bind. rewrite invoke_run, getAppointment_run, Hz. done.
    + exists op_getAppointment. unfold get_api_appointments_id_pdf, parseId.
      rewrite Hp. simpl.
      unfold bind. rewrite invoke_run, getAppointment_run, Hz. done.
  - destruct r as [[u|] i|now [u|] t m|[u|] i|now now' [u|] b|[u|] i b|[u|] i f
                  |[u|] i|[u|] i|[u|] i|e [u|] c n];
      try discriminate; injection Hid as ->; simpl in Hadm |- *;
      unfold get_api_teams_id_members, get_api_clients_id, patch_api_appointments_id,
             post_api_appointments_id_pdf, get_api_appointments_id_download_pdf,
             get_api_appointments_id, get_api_appointments_id_pdf, parseId;
      rewrite ?Hadm, Hp; simpl; eauto.
  - by eapply parseInt_range.
Qed.

Lemma unparsable_id_rejected_witness :
  params_id_of (GetAppointment (Some alice) "abc") = Some "abc"%string /\
  admitted (GetAppointment (Some alice) "abc") = true /\
  exists msg, handle toy_scrypt (GetAppointment (Some alice) "abc") one_pending
              = (Ok (mkResponse 400 (Text msg)), one_pending).
Proof.
  split; [reflexivity|]. split; [reflexivity|].
  exact (unparsable_id_rejected toy_scrypt (GetAppointment (Some alice) "abc") "abc"
           one_pending eq_refl eq_refl).
Defined.

(** ** Downloading the PDF *)

(** C7, refuted as stated: appointment 1 exists and has no bytes in the
    blob store, appointment 2 does not exist, and the two download requests
    get the same response, 404 "Not Found". *)
Lemma missing_blob_same_as_missing_appointment :
  (exists a, getAppointment (Int 1) (storage one_pending)
             = (Ok (Some a), storage one_pending)) /\
  getPdf (Int 1) (storage one_pending) = (Ok None, storage one_pending) /\
  getAppointment (Int 2) (storage one_pending) = (Ok None, storage one_pending) /\
  fst (get_api_appointments_id_download_pdf (Some alice) "1" one_pending)
  = Ok (mkResponse 404 (Text "Not Found")) /\
  fst (get_api_appointments_id_download_pdf (Some alice) "2" one_pending)
  = Ok (mkResponse 404 (Text "Not Found")).
Proof. split; [eexists; reflexivity|]. repeat split. Qed.

(** C7, amended.  A download request on an existing appointment whose id
    has no bytes in the blob store is answered 404 "Not Found"; that is
    the very response given when the appointment does not exist.  Neither
    request changes the store. *)
Theorem download_pdf_not_found
    (u : User.t) (params_id : string) (sv : Server) (id : number) (a : Appointment.t) :
  parseId params_id = Some id ->
  getAppointment id (storage sv) = (Ok (Some a), storage sv) ->
  getPdf id (storage sv) = (Ok None, storage sv) ->
  let '(res, sv1) := get_api_appointments_id_download_pdf (Some u) params_id sv in
  res = Ok (sendStatus 404) /\ storage sv1 = storage sv /\
  forall (u' : User.t) (params_id' : string) (sv' : Server) (id' : number),
    parseId params_id' = Some id' ->
    getAppointment id' (storage sv') = (Ok None, storage sv') ->
    fst (get_api_appointments_id_download_pdf (Some u') params_id' sv') = res.
Proof.
  intros Hparse Hget Hpdf.
  unfold get_api_appointments_id_download_pdf at 1. rewrite Hparse.
  unfold bind, ret. rewrite invoke_run, Hget. cbn [fst snd].
  rewrite invoke_run. cbn [storage]. rewrite Hpdf. cbn [fst snd storage].
  split; [done|]. split; [done|].
  intros u' params_id' sv' id' Hparse' Hget'.
  unfold get_api_appointments_id_download_pdf. rewrite Hparse'.
  unfold bind, ret. rewrite invoke_run, Hget'. done.
Qed.

Lemma download_pdf_not_found_witness :
  parseId "1" = Some (Int 1) /\
  fst (get_api_appointments_id_download_pdf (Some bob) "1" one_pending)
  = Ok (sendStatus 404) /\
  fst (get_api_appointments_id_download_pdf (Some alice) "77" one_pending)
  = Ok (sendStatus 404).
Proof.
  split; [reflexivity|].
  pose proof (download_pdf_not_found bob "1" one_pending (Int 1) _
                eq_refl eq_refl eq_refl) as H.
  destruct (get_api_appointments_id_download_pdf (Some bob) "1" one_pending)
    as [res sv1] eqn:E.
  destruct H as (-> & _ & H). split; [reflexivity|].
  exact (H alice "77"%string one_pending (Int 77) eq_refl eq_refl).
Defined.

(** ** The status of an appointment *)

(* The two handlers, await by await, are the handlers when nothing else
   runs in between. *)
Lemma run_patch_task (user : option User.t) (params_id : string)
    (req_body : PartialAppointment.t) (sv : Server) :
  run_task (patch_api_appointments_id_task user params_id req_body) sv
  = patch_api_appointments_id user params_id req_body sv.
Proof.
  unfold patch_api_appointments_id_task, patch_api_appointments_id.
  destruct user as [u|]; [|done].
  destruct (negb (role_is u "approver")); [done|].
  destruct (parseId params_id) as [id|]; [|done].
  simpl. unfold bind.
  by destruct (invoke op_getAppointment (getAppointment id) sv) as [[[a|]|e] sv1].
Qed.

Lemma run_upload_task (user : option User.t) (params_id : string)
    (part : option UploadedFile) (sv : Server) :
  run_task (post_api_appointments_id_pdf_task user params_id part) sv
  = post_api_appointments_id_pdf user params_id part sv.
Proof.
  unfold post_api_appointments_id_pdf_task, post_api_appointments_id_pdf.
  destruct user as [u|]; [|done].
  destruct (negb (role_is u "approver")); [done|].
  destruct (parseId params_id) as [id|]; [|done].
  simpl. unfold bind.
  destruct (invoke op_getAppointment (getAppointment id) sv) as [[[a|]|e] sv1]; try done.
  by destruct (upload_single part) as [f|].
Qed.

(* What the upload handler sets: every column of the row it read, the
   pdfUrl replaced. *)
Lemma upload_update (a : Appointment.t) (pdfUrl : string) :
  let update := PartialAppointment.spread (PartialAppointment.of_record a)
                  (PartialAppointment.mk None None None None None None
                     (Some (Some pdfUrl)) None None) in
  PartialAppointment.id update = Some (Appointment.id a) /\
  PartialAppointment.is_empty update = false /\
  PartialAppointment.assign update a = with_pdfUrl pdfUrl a /\
  (in_range a = true -> forallb int4 (PartialAppointment.set_integers update) = true) /\
  not_null (PartialAppointment.assign update a) = not_null a.
Proof.
  repeat split.
  unfold in_range. simpl. destruct (Appointment.approvedBy a); simpl; intros Hr;
    repeat (apply andb_true_iff in Hr as [? Hr]);
    repeat match goal with E : int4 _ = true |- _ => rewrite E; clear E end; done.
Qed.

(* One turn of the first or of the second of two handlers. *)
Lemma interleave_first (rest : list nat) (t0 t1 : task) (st : Storage) :
  interleave (0%nat :: rest) [t0; t1] st
  = interleave rest [fst (resume t0 st); t1] (snd (resume t0 st)).
Proof. simpl. by destruct (resume t0 st). Qed.

Lemma interleave_second (rest : list nat) (t0 t1 : task) (st : Storage) :
  interleave (1%nat :: rest) [t0; t1] st
  = interleave rest [t0; fst (resume t1 st)] (snd (resume t1 st)).
Proof. simpl. by destruct (resume t1 st). Qed.

(** C1, where the code departs from it.  The upload handler reads the
    appointment, and after two awaits writes every column of what it read
    back, the status among them.  In a database that satisfies its
    constraints, let an upload by an approver have read an appointment when
    an approval of it is served: the approval is answered 200 with the
    appointment approved, and approved it is in the store; then the upload
    goes on, is answered 200 with the appointment as it read it, and so it
    is in the store again, with the status it had before the approval. *)
Theorem approval_reverted_by_upload
    (u v : User.t) (params_id : string) (f : UploadedFile) (sv : Server)
    (id : number) (a : Appointment.t) :
  consistent (storage sv) ->
  User.role u = "approver"%string -> User.role v = "approver"%string ->
  int4 (User.id v) = true ->
  mimetype f = "application/pdf"%string ->
  parseId params_id = Some id ->
  getAppointment id (storage sv) = (Ok (Some a), storage sv) ->
  let upload := post_api_appointments_id_pdf_task (Some u) params_id (Some f) in
  let approve := patch_api_appointments_id_task (Some v) params_id PartialAppointment.empty in
  let first := interleave [0; 1; 1]%nat [upload; approve] (storage sv) in
  let last := interleave [0; 0]%nat (fst first) (snd first) in
  let read := with_pdfUrl ("/api/appointments/" +:+ number_to_string id +:+ "/download-pdf")
                a in
  exists approved,
    Appointment.status approved = "approved"%string /\
    Appointment.approvedBy approved = Some (User.id v) /\
    answer <$> fst first
    = [None; Some (Ok (mkResponse 200 (JsonAppointment (Some approved))))] /\
    getAppointment id (snd first) = (Ok (Some approved), snd first) /\
    status_under id (snd first) = Some "approved"%string /\
    answer <$> fst last
    = [Some (Ok (mkResponse 200 (JsonAppointment (Some read))));
       Some (Ok (mkResponse 200 (JsonAppointment (Some approved))))] /\
    getAppointment id (snd last) = (Ok (Some read), snd last) /\
    status_under id (snd last) = Some (Appointment.status a).
Proof.
  intros Hst Hu Hv Hv4 Hmime Hparse Hget upload approve first last read.
  apply role_is_spec in Hu, Hv.
  assert (upload_single (Some f) = Some f) as Hup.
  { unfold upload_single. by rewrite Hmime. }
  pose proof Hget as Hfound.
  apply getAppointment_found in Hfound as (z & -> & Hz & Hz4 & _ & Hhead).
  destruct Hst as (_ & _ & _ & _ & Va & _). pose proof (valid_rows_unique _ Va) as Ua.
  destruct (head_filter_lookup _ _ _ Hhead) as (Hp & k & Hk). apply Z.eqb_eq in Hp.
  destruct (valid_rows_elem _ a Va) as (Hra & Hna); [by eapply list_elem_of_lookup_2|].
  set (update := PartialAppointment.spread
                   (PartialAppointment.spread (PartialAppointment.of_record a)
                      PartialAppointment.empty)
                   (PartialAppointment.mk None None None (Some "approved"%string)
                      None (Some (Some (User.id v))) None None None)).
  set (update' := PartialAppointment.spread (PartialAppointment.of_record a)
                    (PartialAppointment.mk None None None None None None
                       (Some (Some ("/api/appointments/" +:+ number_to_string (Int z)
                                    +:+ "/download-pdf"))) None None)).
  set (a1 := PartialAppointment.assign update a).
  (* the approval writes *)
  destruct (updateAppointment_found z update (storage sv) a Hz Hz4 Ua Hhead)
    as (Hrun1 & Hafter1).
  { right. unfold update. simpl. by rewrite Hp. }
  { reflexivity. }
  { pose proof (patch_integers a PartialAppointment.empty (User.id v) z Hra Hv4 Hz4) as Hi.
    fold update in Hi. rewrite forallb_app in Hi. by apply andb_true_iff in Hi as [Hi _]. }
  { exact Hna. }
  pose proof (updateAppointment_run z update (storage sv) Hz) as Hu1. cbv zeta in Hu1.
  rewrite Hrun1 in Hu1. destruct Hu1 as (_ & Huniq1 & _).
  fold a1 in Hrun1, Hafter1.
  match type of Hrun1 with _ = (_, ?s) => set (st1 := s) in * end.
  assert (getAppointment (Int z) st1 = (Ok (Some a1), st1)) as Hget1.
  { rewrite (getAppointment_in_range z st1 Hz Hz4). unfold st1.
    cbn [appointments set_appointments rows]. by rewrite Hafter1. }
  (* the upload stores the bytes and writes back what it read *)
  set (st2 := set_pdfStorage (<[Int z := buffer f]> (pdfStorage st1)) st1).
  destruct (upload_update a ("/api/appointments/" +:+ number_to_string (Int z)
                             +:+ "/download-pdf")) as (Uid & Uem & Uas & Uint & Unn).
  fold update' in Uid, Uem, Uas, Uint, Unn.
  assert (forall x, PartialAppointment.assign update' x = read) as Hwrite by done.
  destruct (updateAppointment_found z update' st2 a1 Hz Hz4 Huniq1 Hafter1)
    as (Hrun2 & Hafter2).
  { right. by rewrite Uid, Hp. }
  { exact Uem. }
  { exact (Uint Hra). }
  { by rewrite Hwrite. }
  rewrite Hwrite in Hrun2, Hafter2.
  match type of Hrun2 with _ = (_, ?s) => set (st3 := s) in * end.
  assert (getAppointment (Int z) st3 = (Ok (Some read), st3)) as Hget3.
  { rewrite (getAppointment_in_range z st3 Hz Hz4). unfold st3.
    cbn [appointments set_appointments rows]. by rewrite Hafter2. }
  (* the turns *)
  assert (exists waiting,
            first = ([waiting; Settled (Ok (mkResponse 200 (JsonAppointment (Some a1))))], st1)
            /\ answer waiting = None
            /\ resume (fst (resume waiting st1)) (snd (resume waiting st1))
               = (Settled (Ok (mkResponse 200 (JsonAppointment (Some read)))), st3))
    as (waiting & Hfirst & Hwaiting & Hresume).
  { eexists. split; [|split].
    - unfold first, upload, approve,
             post_api_appointments_id_pdf_task, patch_api_appointments_id_task.
      rewrite Hup, Hu, Hv, Hparse. cbn [negb].
      rewrite interleave_first. cbn [resume]. rewrite Hget. cbn [fst snd].
      rewrite interleave_second. cbn [resume]. rewrite Hget. cbn [fst snd].
      rewrite interleave_second. cbn [resume]. fold update. rewrite Hrun1.
      reflexivity.
    - reflexivity.
    - cbn [resume]. unfold storePdf, modify. cbn [fst snd resume]. fold st2 update'.
      by rewrite Hrun2. }
  assert (last = ([Settled (Ok (mkResponse 200 (JsonAppointment (Some read))));
                   Settled (Ok (mkResponse 200 (JsonAppointment (Some a1))))], st3))
    as Hlast.
  { unfold last. rewrite Hfirst. cbn [fst snd].
    rewrite !interleave_first. rewrite Hresume. reflexivity. }
  clearbody first last. subst first last. cbn [fst snd].
  exists a1. split; [reflexivity|]. split; [reflexivity|].
  split; [cbn; by rewrite Hwaiting|]. split; [exact Hget1|].
  split; [unfold status_under; by rewrite Hget1|].
  split; [reflexivity|]. split; [exact Hget3|].
  unfold status_under. by rewrite Hget3.
Qed.

Lemma approval_reverted_by_upload_witness :
  let file := mkFile "application/pdf" [x25; x50; x44; x46] in
  let upload := post_api_appointments_id_pdf_task (Some bob) "1" (Some file) in
  let approve := patch_api_appointments_id_task (Some bob) "1" PartialAppointment.empty in
  let first := interleave [0; 1; 1]%nat [upload; approve] (storage one_pending) in
  let last := interleave [0; 0]%nat (fst first) (snd first) in
  consistent (storage one_pending) /\
  User.role bob = "approver"%string /\ int4 (User.id bob) = true /\
  parseId "1" = Some (Int 1) /\
  status_under (Int 1) (storage one_pending) = Some "pending"%string /\
  status_under (Int 1) (snd first) = Some "approved"%string /\
  status_under (Int 1) (snd last) = Some "pending"%string.
Proof.
  intros file upload approve first last.
  assert (H0 : consistent (storage one_pending)) by check_consistent.
  split; [exact H0|]. do 4 (split; [reflexivity|]).
  destruct (approval_reverted_by_upload bob bob "1" file one_pending (Int 1) _
              H0 eq_refl eq_refl eq_refl eq_refl eq_refl eq_refl)
    as (approved & _ & _ & _ & _ & H1 & _ & _ & H2).
  split; [exact H1|exact H2].
Defined.

(* The rows and the answers of that run. *)
Example approval_reverted_rows :
  let file := mkFile "application/pdf" [x25; x50; x44; x46] in
  let upload := post_api_appointments_id_pdf_task (Some bob) "1" (Some file) in
  let approve := patch_api_appointments_id_task (Some bob) "1" PartialAppointment.empty in
  let st0 := storage one_pending in
  let first := interleave [0; 1; 1]%nat [upload; approve] st0 in
  let last := interleave [0; 0]%nat (fst first) (snd first) in
  let created := Appointment.mk 1 9 2 "pending" 5 None None
                   (JObj [("date"%string, JStr "2025-06-01T09:00:00.001Z")])
                   "2025-06-01T09:00:00.000Z" in
  let approved := Appointment.mk 1 9 2 "approved" 5 (Some 8) None
                    (JObj [("date"%string, JStr "2025-06-01T09:00:00.001Z")])
                    "2025-06-01T09:00:00.000Z" in
  rows (appointments st0) = [created] /\
  answer <$> fst first
  = [None; Some (Ok (mkResponse 200 (JsonAppointment (Some approved))))] /\
  rows (appointments (snd first)) = [approved] /\
  answer <$> fst last
  = [Some (Ok (mkResponse 200 (JsonAppointment
             (Some (with_pdfUrl "/api/appointments/1/download-pdf" created)))));
     Some (Ok (mkResponse 200 (JsonAppointment (Some approved))))] /\
  rows (appointments (snd last))
  = [with_pdfUrl "/api/appointments/1/download-pdf" created].
Proof. repeat split. Qed.

(* The same requests served one after the other, in either order, leave
   the appointment approved. *)
Example approval_and_upload_in_turn :
  let file := mkFile "application/pdf" [x25; x50; x44; x46] in
  let upload := PostPdf (Some bob) "1" (Some file) in
  let approve := PatchAppointment (Some bob) "1" PartialAppointment.empty in
  status_under (Int 1) (storage (serve_all toy_scrypt one_pending [upload; approve]))
  = Some "approved"%string /\
  status_under (Int 1) (storage (serve_all toy_scrypt one_pending [approve; upload]))
  = Some "approved"%string.
Proof. split; reflexivity. Qed.

(* The id is a column like the others: an approver's PATCH body can move
   the approved row to another id, after which the id it had is free for a
   new appointment. *)
Example approved_row_moved :
  let move := PatchAppointment (Some bob) "1"
                (PartialAppointment.mk (Some 2) None None None None None None None None) in
  let reuse := PostAppointment "t2" "t3" (Some alice)
                 (PartialAppointment.mk (Some 1) (Some 9) (Some 2) None None None None
                    (Some JNull) None) in
  let sv := serve_all toy_scrypt one_approved [move; reuse] in
  (Appointment.id <$> rows (appointments (storage sv)) = [2; 1]) /\
  (Appointment.status <$> rows (appointments (storage sv)) = ["approved"; "pending"]%string).
Proof. split; reflexivity. Qed.

(** ** Handlers that leave the appointments alone *)

Section Stability.
Variable Rel : list Appointment.t -> list Appointment.t -> Prop.

Hypothesis Rel_refl : forall t, Rel t t.
Hypothesis Rel_trans : forall t1 t2 t3, Rel t1 t2 -> Rel t2 t3 -> Rel t1 t3.

Lemma stable_ret {A} (a : A) : stable Rel (ret a).
Proof. intros sv. apply Rel_refl. Qed.

Lemma stable_lift_result {A} (r : result A) : stable Rel (lift_result r).
Proof. intros sv. apply Rel_refl. Qed.

Lemma stable_bind {A B} (m : M Server A) (k : A -> M Server B) :
  stable Rel m -> (forall a, stable Rel (k a)) -> stable Rel (bind m k).
Proof.
  intros Hm Hk sv. unfold bind. specialize (Hm sv).
  destruct (m sv) as [[a|e] sv1]; simpl in *; [|done].
  eapply Rel_trans; [exact Hm|apply Hk].
Qed.

Lemma stable_invoke {A} (op : StoreOp) (m : M Storage A) :
  (forall st, Rel (rows (appointments st)) (rows (appointments (snd (m st))))) ->
  stable Rel (invoke op m).
Proof. intros Hm sv. rewrite invoke_run. simpl. apply Hm. Qed.

(* A store operation that does not write the appointments table. *)
Lemma stable_invoke_frame {A} (op : StoreOp) (m : M Storage A) :
  (forall st, appointments (snd (m st)) = appointments st) ->
  stable Rel (invoke op m).
Proof. intros Hm. apply stable_invoke. intros st. rewrite Hm. apply Rel_refl. Qed.

Lemma getUser_frame id st : appointments (snd (getUser id st)) = appointments st.
Proof. run_store. Qed.

Lemma getTeamMembers_frame id st :
  appointments (snd (getTeamMembers id st)) = appointments st.
Proof. run_store. Qed.

Lemma addTeamMember_frame now m st :
  appointments (snd (addTeamMember now m st)) = appointments st.
Proof. run_store. Qed.

Lemma updateUserTeam_frame u t st :
  appointments (snd (updateUserTeam u t st)) = appointments st.
Proof. run_store. Qed.

Lemma removeTeamMember_frame t u st :
  appointments (snd (removeTeamMember t u st)) = appointments st.
Proof. run_store. Qed.

Lemma updateUserPassword_frame scrypt e id pw st :
  appointments (snd (updateUserPassword scrypt e id pw st)) = appointments st.
Proof. run_store. Qed.

Lemma getClient_frame id st : appointments (snd (getClient id st)) = appointments st.
Proof. by rewrite getClient_run. Qed.

Lemma getAppointment_frame id st :
  appointments (snd (getAppointment id st)) = appointments st.
Proof. by rewrite getAppointment_run. Qed.

Lemma getPdf_frame id st : appointments (snd (getPdf id st)) = appointments st.
Proof. done. Qed.

Lemma storePdf_frame id buf st : appointments (snd (storePdf id buf st)) = appointments st.
Proof. done. Qed.

Ltac step_stable :=
  first
    [ apply stable_ret
    | apply stable_lift_result
    | apply stable_bind; [|intros ?]
    | apply stable_invoke_frame; intros ?;
      first [ apply getUser_frame | apply getTeamMembers_frame | apply addTeamMember_frame
            | apply updateUserTeam_frame | apply removeTeamMember_frame
            | apply updateUserPassword_frame | apply getClient_frame
            | apply getAppointment_frame | apply getPdf_frame | apply storePdf_frame ]
    | match goal with
      | |- stable Rel (match ?x with _ => _ end) => destruct x
      end ].

Lemma get_api_teams_id_members_stable user id :
  stable Rel (get_api_teams_id_members user id).
Proof. unfold get_api_teams_id_members. repeat step_stable. Qed.

Lemma post_api_teams_members_stable now user t u :
  stable Rel (post_api_teams_members now user t u).
Proof. unfold post_api_teams_members. repeat step_stable. Qed.

Lemma get_api_clients_id_stable user id : stable Rel (get_api_clients_id user id).
Proof. unfold get_api_clients_id. repeat step_stable. Qed.

Lemma get_api_appointments_id_download_pdf_stable user id :
  stable Rel (get_api_appointments_id_download_pdf user id).
Proof. unfold get_api_appointments_id_download_pdf. repeat step_stable. Qed.

Lemma get_api_appointments_id_stable user id :
  stable Rel (get_api_appointments_id user id).
Proof. unfold get_api_appointments_id. repeat step_stable. Qed.

Lemma get_api_appointments_id_pdf_stable user id :
  stable Rel (get_api_appointments_id_pdf user id).
Proof. unfold get_api_appointments_id_pdf. repeat step_stable. Qed.

Lemma post_api_users_change_password_stable scrypt e user c n :
  stable Rel (post_api_users_change_password scrypt e user c n).
Proof. unfold post_api_users_change_password. repeat step_stable. Qed.

End Stability.

(** ** Passwords *)

Lemma from_hex_of_byte (b : byte) (s : string) :
  from_hex (hex_of_byte b +:+ s) = b :: from_hex s.
Proof. destruct b; reflexivity. Qed.

Lemma from_hex_to_hex (buf : Buffer) : from_hex (to_hex buf) = buf.
Proof.
  induction buf as [|b buf IH]; [done|].
  cbn [to_hex]. by rewrite from_hex_of_byte, IH.
Qed.

Lemma hex_of_byte_is_hex (b : byte) : string_forall is_hex (hex_of_byte b) = true.
Proof. destruct b; reflexivity. Qed.

Lemma string_forall_app p (s1 s2 : string) :
  string_forall p (s1 +:+ s2) = string_forall p s1 && string_forall p s2.
Proof.
  induction s1 as [|c s1 IH]; [done|]. simpl. by rewrite IH, andb_assoc.
Qed.

Lemma to_hex_is_hex (buf : Buffer) : string_forall is_hex (to_hex buf) = true.
Proof.
  induction buf as [|b buf IH]; [done|].
  cbn [to_hex]. by rewrite string_forall_app, hex_of_byte_is_hex, IH.
Qed.



Lemma split_on_none (sep : ascii) (s : string) :
  string_forall (fun c => negb (Ascii.eqb c sep)) s = true -> split_on sep s = [s].
Proof.
  induction s as [|c s IH]; [done|]. simpl.
  intros [Hc Hs]%andb_true_iff. apply negb_true_iff in Hc. rewrite Hc, IH; done.
Qed.

Lemma split_on_first (sep : ascii) (s1 s2 : string) :
  string_forall (fun c => negb (Ascii.eqb c sep)) s1 = true ->
  split_on sep (s1 +:+ String sep s2) = s1 :: split_on sep s2.
Proof.
  induction s1 as [|c s1 IH]; simpl.
  - intros _. by rewrite Ascii.eqb_refl.
  - intros [Hc Hs]%andb_true_iff. apply negb_true_iff in Hc. rewrite Hc, IH; done.
Qed.

Lemma string_forall_impl (p q : ascii -> bool) (s : string) :
  (forall c, p c = true -> q c = true) ->
  string_forall p s = true -> string_forall q s = true.
Proof.
  intros Hpq. induction s as [|c s IH]; [done|]. simpl.
  intros [Hc Hs]%andb_true_iff. by rewrite (Hpq c Hc), IH.
Qed.

Lemma is_hex_not_dot (c : ascii) : is_hex c = true -> negb (Ascii.eqb c ".") = true.
Proof.
  intros Hc. apply negb_true_iff, Ascii.eqb_neq. intros ->. discriminate Hc.
Qed.

(* The stored password splits back into the hash and the salt. *)
Lemma split_stored (key entropy : Buffer) :
  split_on "." (to_hex key +:+ "." +:+ to_hex entropy) = [to_hex key; to_hex entropy].
Proof.
  change (to_hex key +:+ "." +:+ to_hex entropy)
    with (to_hex key +:+ String "." (to_hex entropy)).
  rewrite split_on_first.
  - rewrite split_on_none; [done|].
    eapply string_forall_impl; [apply is_hex_not_dot|apply to_hex_is_hex].
  - eapply string_forall_impl; [apply is_hex_not_dot|apply to_hex_is_hex].
Qed.














Section PasswordFacts.
Variable scrypt : string -> string -> nat -> Buffer.
Hypothesis scrypt_length : forall password salt, length (scrypt password salt 64) = 64%nat.

(* Verification against a stored password compares the two derived keys. *)
Lemma comparePasswords_stored (entropy : Buffer) (password supplied : string) :
  comparePasswords scrypt supplied (hashPassword scrypt entropy password)
  = Ok (bool_decide (scrypt supplied (to_hex entropy) 64
                     = scrypt password (to_hex entropy) 64)).
Proof.
  unfold comparePasswords, hashPassword. rewrite split_stored, from_hex_to_hex.
  unfold timingSafeEqual. rewrite !scrypt_length, Nat.eqb_refl.
  f_equal. apply bool_decide_ext. split; congruence.
Qed.



End PasswordFacts.

Lemma length_toy_scrypt (password salt : string) (keylen : nat) :
  length (toy_scrypt password salt keylen) = keylen.
Proof.
  unfold toy_scrypt. rewrite length_take, length_app, repeat_length. lia.
Qed.




(** * More of the store and of the routes *)

(** ** Requests act through the storage interface *)

Section ByCalls.
Variable scrypt : string -> string -> nat -> Buffer.

Lemma perform_all_app (st : Storage) (cs1 cs2 : list call) :
  perform_all scrypt st (cs1 ++ cs2) = perform_all scrypt (perform_all scrypt st cs1) cs2.
Proof. unfold perform_all. apply fold_left_app. Qed.

Section Lifted.
Context {S : Type} (proj : S -> Storage).

Lemma calls_ret {A} (a : A) : acts_by_calls scrypt proj (ret a).
Proof. intros s. by exists []. Qed.

Lemma calls_throw {A} (e : error) : acts_by_calls scrypt proj (@throw S A e).
Proof. intros s. by exists []. Qed.

Lemma calls_lift_result {A} (r : result A) : acts_by_calls scrypt proj (lift_result r).
Proof. intros s. by exists []. Qed.

Lemma calls_gets {A} (f : S -> A) : acts_by_calls scrypt proj (gets f).
Proof. intros s. by exists []. Qed.

Lemma calls_bind {A B} (m : M S A) (k : A -> M S B) :
  acts_by_calls scrypt proj m -> (forall a, acts_by_calls scrypt proj (k a)) ->
  acts_by_calls scrypt proj (bind m k).
Proof.
  intros Hm Hk s. unfold bind. destruct (Hm s) as (cs1 & E1).
  destruct (m s) as [[a|e] s1]; simpl in *.
  - destruct (Hk a s1) as (cs2 & E2). exists (cs1 ++ cs2).
    by rewrite perform_all_app, <- E1.
  - by exists cs1.
Qed.
End Lifted.

(* One call. *)
Lemma calls_one {A} (m : M Storage A) (c : call) :
  (forall st, snd (m st) = perform scrypt st c) -> acts_by_calls scrypt id m.
Proof. intros Hm st. exists [c]. simpl. apply Hm. Qed.

(* A read. *)
Lemma calls_none {A} (m : M Storage A) :
  (forall st, snd (m st) = st) -> acts_by_calls scrypt id m.
Proof. intros Hm st. exists []. simpl. apply Hm. Qed.

Lemma calls_invoke {A} (op : StoreOp) (m : M Storage A) :
  acts_by_calls scrypt id m -> acts_by_calls scrypt storage (invoke op m).
Proof. intros Hm sv. rewrite invoke_run. simpl. apply Hm. Qed.

Lemma calls_on_storage {A} (h : M Server A) :
  acts_by_calls scrypt storage h -> acts_by_calls scrypt id (on_storage h).
Proof.
  intros Hh st. unfold on_storage. destruct (Hh (mkServer st [])) as (cs & E).
  destruct (h (mkServer st [])) as [r sv]. simpl in *. by exists cs.
Qed.

Lemma getUser_reads id st : snd (getUser id st) = st.
Proof. unfold getUser, bind, lift_result, gets, ret. by destruct (int_param id). Qed.

Lemma getTeamMembers_reads id st : snd (getTeamMembers id st) = st.
Proof. unfold getTeamMembers, bind, lift_result, gets. by destruct (int_param id). Qed.

Lemma getClient_reads id st : snd (getClient id st) = st.
Proof. by rewrite getClient_run. Qed.

Lemma getAppointment_reads id st : snd (getAppointment id st) = st.
Proof. by rewrite getAppointment_run. Qed.

Ltac store_calls :=
  lazymatch goal with
  | |- acts_by_calls _ id (createUser _ ?e ?u) => apply (calls_one _ (call_createUser e u))
  | |- acts_by_calls _ id (updateUserPassword _ ?e ?i ?p) =>
      apply (calls_one _ (call_updateUserPassword e i p))
  | |- acts_by_calls _ id (updateUserTeam ?u ?t) => apply (calls_one _ (call_updateUserTeam u t))
  | |- acts_by_calls _ id (createTeam ?n ?t) => apply (calls_one _ (call_createTeam n t))
  | |- acts_by_calls _ id (addTeamMember ?n ?m) => apply (calls_one _ (call_addTeamMember n m))
  | |- acts_by_calls _ id (removeTeamMember ?t ?u) =>
      apply (calls_one _ (call_removeTeamMember t u))
  | |- acts_by_calls _ id (createAppointment ?n ?a) =>
      apply (calls_one _ (call_createAppointment n a))
  | |- acts_by_calls _ id (updateAppointment ?i ?u) =>
      apply (calls_one _ (call_updateAppointment i u))
  | |- acts_by_calls _ id (storePdf ?i ?b) => apply (calls_one _ (call_storePdf i b))
  | |- acts_by_calls _ id (getUser _) => apply calls_none; apply getUser_reads
  | |- acts_by_calls _ id (getTeamMembers _) => apply calls_none; apply getTeamMembers_reads
  | |- acts_by_calls _ id (getClient _) => apply calls_none; apply getClient_reads
  | |- acts_by_calls _ id (getAppointment _) => apply calls_none; apply getAppointment_reads
  | |- acts_by_calls _ id _ => apply calls_none
  end; intros ?; reflexivity.

Ltac step_calls :=
  first
    [ apply calls_ret
    | apply calls_lift_result
    | apply calls_invoke; store_calls
    | store_calls
    | apply calls_bind; [|intros ?]
    | match goal with
      | |- acts_by_calls _ _ (match ?x with _ => _ end) => destruct x
      end ].

Lemma handle_by_calls (r : request) : acts_by_calls scrypt storage (handle scrypt r).
Proof.
  destruct r; simpl;
    unfold get_api_teams_id_members, post_api_teams_members, get_api_clients_id,
           post_api_appointments, patch_api_appointments_id, post_api_appointments_id_pdf,
           get_api_appointments_id_download_pdf, get_api_appointments_id,
           get_api_appointments_id_pdf, post_api_users_change_password;
    repeat step_calls.
Qed.

Lemma handle_any_by_calls (r : any_request) : acts_by_calls scrypt id (handle_any scrypt r).
Proof.
  destruct r; simpl;
    unfold post_api_users, get_api_users, post_api_teams, get_api_teams,
           get_api_clients, get_api_appointments;
    repeat step_calls.
  apply calls_on_storage, handle_by_calls.
Qed.

Lemma serve_any_all_by_calls (rs : list any_request) (st : Storage) :
  exists cs, serve_any_all scrypt st rs = perform_all scrypt st cs.
Proof.
  revert st. induction rs as [|r rs IH]; intros st; [by exists []|].
  simpl. destruct (handle_any_by_calls r st) as (cs1 & E1).
  destruct (IH (serve_any scrypt st r)) as (cs2 & E2).
  exists (cs1 ++ cs2). rewrite perform_all_app, E2. unfold serve_any. simpl in E1.
  by rewrite E1.
Qed.
End ByCalls.

(** ** Nothing is deleted *)

Lemma snd_bind_ret {S A B} (m : M S A) (f : A -> B) (s : S) :
  snd (bind m (fun a => ret (f a)) s) = snd (m s).
Proof. unfold bind, ret. by destruct (m s) as [[a|e] s']. Qed.

Lemma snd_bind_lift {S A B} (r : result A) (k : A -> M S B) (s : S) :
  snd (bind (lift_result r) k s) = match r with Ok a => snd (k a s) | Throw _ => s end.
Proof. unfold bind, lift_result. by destruct r. Qed.

Lemma insert_rows_cases {R} `{Row R} supplied mk (t : table R) :
  rows (snd (insert_returning supplied mk t)) = rows t \/
  exists r, rows (snd (insert_returning supplied mk t)) = rows t ++ [r].
Proof.
  pose proof (insert_returning_rows supplied mk t) as Hi.
  destruct (insert_returning supplied mk t) as [[r|e] t']; simpl.
  - right. exists r. by destruct Hi as (-> & _).
  - left. by destruct Hi as (-> & _).
Qed.

Lemma update_rows_cases {R} `{Row R} (p : R -> bool) (set : R -> R) (t : table R) :
  rows (snd (update_returning p set t)) = rows t \/
  rows (snd (update_returning p set t)) = rewritten p set (rows t).
Proof.
  pose proof (update_returning_rows p set t) as Hu. cbv zeta in Hu.
  destruct (update_returning p set t) as [[l|e] t']; simpl.
  - right. by destruct Hu as (_ & -> & _).
  - left. by destruct Hu as (-> & _).
Qed.

Lemma same_identity_refl u : same_identity u u.
Proof. by repeat split. Qed.

Lemma grows_refl st : grows st st.
Proof.
  repeat split; try done.
  intros u Hu. exists u. split; [done|apply same_identity_refl].
Qed.

Lemma grows_trans st1 st2 st3 : grows st1 st2 -> grows st2 st3 -> grows st1 st3.
Proof.
  intros (U1 & L1 & T1 & M1 & C1 & A1 & P1) (U2 & L2 & T2 & M2 & C2 & A2 & P2).
  split; [|split; [|split; [|split; [|split; [|split]]]]].
  - intros u Hu. destruct (U1 u Hu) as (u' & Hu' & (I1 & I2 & I3 & I4)).
    destruct (U2 u' Hu') as (u'' & Hu'' & (J1 & J2 & J3 & J4)).
    exists u''. split; [done|]. repeat split; congruence.
  - lia.
  - by etrans.
  - by etrans.
  - by etrans.
  - lia.
  - auto.
Qed.

(* The ways a call writes the users table. *)
Lemma grows_users t st :
  (forall u, u ∈ rows (users st) -> exists u', u' ∈ rows t /\ same_identity u u') ->
  (length (rows (users st)) <= length (rows t))%nat ->
  grows st (set_users t st).
Proof.
  intros Hu Hl. destruct (grows_refl st) as (_ & _ & T & M & C & A & P).
  by repeat split.
Qed.

Lemma grows_users_insert supplied mk st :
  grows st (set_users (snd (insert_returning supplied mk (users st))) st).
Proof.
  destruct (insert_rows_cases supplied mk (users st)) as [E | (r & E)];
    apply grows_users; rewrite E.
  - intros u Hu. exists u. split; [done|apply same_identity_refl].
  - done.
  - intros u Hu. exists u. split; [|apply same_identity_refl].
    apply elem_of_app. by left.
  - rewrite length_app. lia.
Qed.

Lemma grows_users_update (p : User.t -> bool) (set : User.t -> User.t) st :
  (forall u, same_identity u (set u)) ->
  grows st (set_users (snd (update_returning p set (users st))) st).
Proof.
  intros Hset.
  destruct (update_rows_cases p set (users st)) as [E | E]; apply grows_users; rewrite E.
  - intros u Hu. exists u. split; [done|apply same_identity_refl].
  - done.
  - intros u Hu. destruct (p u) eqn:Hp.
    + exists (set u). split; [|apply Hset]. apply elem_of_update. right. by exists u.
    + exists u. split; [|apply same_identity_refl]. apply elem_of_update. by left.
  - by rewrite length_update.
Qed.

Lemma grows_appointments t st :
  (length (rows (appointments st)) <= length (rows t))%nat ->
  grows st (set_appointments t st).
Proof.
  intros Ha. destruct (grows_refl st) as (U & L & T & M & C & _ & P).
  by repeat split.
Qed.

Lemma updateUserTeam_grows u t st : grows st (snd (updateUserTeam u t st)).
Proof.
  unfold updateUserTeam.
  rewrite snd_bind_lift.
  destruct (match t with Some n => _ | None => _ end); [|apply grows_refl].
  rewrite snd_bind_lift. destruct (int_param u); [|apply grows_refl].
  rewrite snd_bind_ret, on_table_run. simpl.
  apply grows_users_update. intros x. by repeat split.
Qed.

Section CallGrowth.
Variable scrypt : string -> string -> nat -> Buffer.

Lemma perform_grows (st : Storage) (c : call) : grows st (perform scrypt st c).
Proof.
  destruct c; simpl.
  - unfold createUser. rewrite on_table_run. apply grows_users_insert.
  - unfold updateUserPassword. rewrite snd_bind_lift.
    destruct (int_param id); [|apply grows_refl].
    rewrite snd_bind_ret, on_table_run. simpl.
    apply grows_users_update. intros x. by repeat split.
  - apply updateUserTeam_grows.
  - unfold createTeam. rewrite on_table_run. simpl.
    destruct (grows_refl st) as (U & L & _ & M & C & A & P).
    repeat split; try done. simpl.
    match goal with |- context [insert_returning ?s ?mk ?t] =>
      destruct (insert_rows_cases s mk t) as [-> | (r & ->)] end;
      [done|by apply prefix_app_r].
  - unfold addTeamMember. rewrite snd_bind_lift.
    destruct (int_param _) as [t|]; [|apply grows_refl].
    rewrite snd_bind_lift. destruct (int_param _) as [u|]; [|apply grows_refl].
    rewrite on_table_run. simpl.
    destruct (grows_refl st) as (U & L & T & _ & C & A & P).
    repeat split; try done. simpl.
    match goal with |- context [insert_returning ?s ?mk ?t] =>
      destruct (insert_rows_cases s mk t) as [-> | (r & ->)] end;
      [done|by apply prefix_app_r].
  - apply updateUserTeam_grows.
  - unfold createClient. rewrite on_table_run. simpl.
    destruct (grows_refl st) as (U & L & T & M & _ & A & P).
    repeat split; try done. simpl.
    match goal with |- context [insert_returning ?s ?mk ?t] =>
      destruct (insert_rows_cases s mk t) as [-> | (r & ->)] end;
      [done|by apply prefix_app_r].
  - unfold createAppointment. rewrite on_table_run. apply grows_appointments.
    match goal with |- context [insert_returning ?s ?mk ?t] =>
      destruct (insert_rows_cases s mk t) as [-> | (r & ->)] end; [done|].
    rewrite length_app. lia.
  - unfold updateAppointment. destruct (invalid_id id); [apply grows_refl|].
    destruct (PartialAppointment.is_empty update); [apply grows_refl|].
    rewrite snd_bind_lift. destruct (int4_params _); [|apply grows_refl].
    rewrite snd_bind_lift. destruct (int_param id); [|apply grows_refl].
    rewrite snd_bind_ret, on_table_run. apply grows_appointments.
    match goal with |- context [update_returning ?p ?f ?t] =>
      destruct (update_rows_cases p f t) as [-> | ->] end; [done|].
    by rewrite length_update.
  - destruct (grows_refl st) as (U & L & T & M & C & A & _).
    repeat split; try done. simpl. intros id Hid.
    destruct (decide (appointmentId = id)) as [->|Hne].
    + rewrite lookup_insert_eq. eauto.
    + by rewrite lookup_insert_ne.
Qed.

Lemma perform_all_grows (st : Storage) (cs : list call) :
  grows st (perform_all scrypt st cs).
Proof.
  revert st. induction cs as [|c cs IH]; intros st; [apply grows_refl|].
  simpl. eapply grows_trans; [apply perform_grows|apply IH].
Qed.

Lemma serve_any_all_grows (st : Storage) (rs : list any_request) :
  grows st (serve_any_all scrypt st rs).
Proof.
  destruct (serve_any_all_by_calls scrypt rs st) as (cs & ->). apply perform_all_grows.
Qed.
End CallGrowth.

(** X2. No request deletes anything.  After any sequence of requests, on
    any routes but POST /api/clients, answered or failed: the users and the appointments are at
    least as many as before; the teams, the team members and the clients
    that were there are there unchanged, followed by the new ones; and
    every id that had a PDF in the blob store has one. *)
Theorem nothing_is_deleted
    (scrypt : string -> string -> nat -> Buffer) (st : Storage) (rs : list any_request) :
  let st' := serve_any_all scrypt st rs in
  (length (rows (users st)) <= length (rows (users st')))%nat /\
  rows (teams st) `prefix_of` rows (teams st') /\
  rows (teamMembers st) `prefix_of` rows (teamMembers st') /\
  rows (clients st) `prefix_of` rows (clients st') /\
  (length (rows (appointments st)) <= length (rows (appointments st')))%nat /\
  (forall id, is_Some (pdfStorage st !! id) -> is_Some (pdfStorage st' !! id)).
Proof.
  destruct (serve_any_all_grows scrypt st rs) as (U & L & T & M & C & A & P).
  simpl. by repeat split.
Qed.

Lemma nothing_is_deleted_witness :
  let st := storage (snd (post_api_appointments_id_pdf (Some bob) "1"
                            (Some (mkFile "application/pdf" [x25; x50])) one_pending)) in
  let rs := [Earlier (PostPdf (Some bob) "1" (Some (mkFile "application/pdf" [x44])));
             Earlier (PostTeamMember "t0" (Some admin) (Int 0) (Int 5));
             PostTeam "t1" (Some admin) (PartialTeam.mk (Some 1) (Some "north") None None)] in
  is_Some (pdfStorage st !! Int 1) /\
  is_Some (pdfStorage (serve_any_all toy_scrypt st rs) !! Int 1) /\
  rows (teams st) `prefix_of` rows (teams (serve_any_all toy_scrypt st rs)).
Proof.
  intros st rs.
  assert (H0 : is_Some (pdfStorage st !! Int 1)) by (eexists; reflexivity).
  destruct (nothing_is_deleted toy_scrypt st rs) as (_ & Ht & _ & _ & _ & Hp).
  split; [exact H0|]. split; [exact (Hp (Int 1) H0)|exact Ht].
Defined.

(** X3. A user keeps its identity.  Whatever requests are served, for
    every row of the users table there is afterwards a row with the id, the
    user name, the role and the creator it had: no route changes anything
    of a user but the password and the team, and none deletes a user. *)
Theorem user_identity_kept
    (scrypt : string -> string -> nat -> Buffer) (st : Storage) (rs : list any_request)
    (u : User.t) :
  u ∈ rows (users st) ->
  exists u', u' ∈ rows (users (serve_any_all scrypt st rs)) /\
             User.id u' = User.id u /\ User.username u' = User.username u /\
             User.role u' = User.role u /\ User.createdBy u' = User.createdBy u.
Proof.
  intros Hu. destruct (serve_any_all_grows scrypt st rs) as (U & _).
  destruct (U u Hu) as (u' & Hu' & Hid). exists u'. split; [exact Hu'|exact Hid].
Qed.

Example booted_users : rows (users booted) = [admin].
Proof. reflexivity. Qed.

Lemma user_identity_kept_witness :
  let rs := [Earlier (ChangePassword (repeat x02 16) (Some admin) "admin123" "s3cret");
             Earlier (PostTeamMember "t0" (Some admin) (Int 3) (Int 1))] in
  admin ∈ rows (users booted) /\
  exists u', u' ∈ rows (users (serve_any_all toy_scrypt booted rs)) /\
             User.id u' = 1 /\ User.username u' = "admin"%string /\
             User.role u' = "admin"%string /\ User.createdBy u' = None.
Proof.
  intros rs.
  assert (H0 : admin ∈ rows (users booted)) by (rewrite booted_users; left).
  split; [exact H0|]. exact (user_identity_kept toy_scrypt booted rs admin H0).
Defined.

(** ** Creating and finding a user *)

(* The row [createUser] appends. *)
Lemma createUser_appended
    (scrypt : string -> string -> nat -> Buffer)
    (entropy : Buffer) (insertUser : InsertUser.t) (st st' : Storage) (u : User.t) :
  createUser scrypt entropy insertUser st = (Ok u, st') ->
  rows (users st') = rows (users st) ++ [u] /\
  unique (rows (users st')) = true /\
  User.username u = InsertUser.username insertUser /\
  User.password u = hashPassword scrypt entropy (InsertUser.password insertUser).
Proof.
  unfold createUser. rewrite on_table_run.
  match goal with |- context [insert_returning ?s ?mk ?t] =>
    pose proof (insert_returning_rows s mk t) as Hi;
    destruct (insert_returning s mk t) as [[u0|e] t'] end; [|discriminate].
  cbn [fst snd]. intros [= -> <-]. destruct Hi as (Hr & Hu & -> & _). done.
Qed.

Lemma createUser_found_by_name
    (scrypt : string -> string -> nat -> Buffer)
    (entropy : Buffer) (insertUser : InsertUser.t) (st st' : Storage) (u : User.t) :
  createUser scrypt entropy insertUser st = (Ok u, st') ->
  getUserByUsername (InsertUser.username insertUser) st' = (Ok (Some u), st').
Proof.
  intros (Hr & Hu & Hname & _)%createUser_appended.
  unfold getUserByUsername, bind, gets, ret, select_where. simpl. f_equal. f_equal.
  apply (head_filter_only _ _ (length (rows (users st))) _ Hu).
  - rewrite Hr. apply lookup_snoc_last.
  - rewrite Hname. apply String.eqb_refl.
  - intros x Hx. simpl. apply String.eqb_eq in Hx.
    rewrite Hx, Hname, String.eqb_refl. apply orb_true_r.
Qed.


(* A rejected [createUser]: the id or the user name is taken, an integer is
   outside the range of its column, or the sequence is exhausted. *)
Lemma createUser_rejected
    (scrypt : string -> string -> nat -> Buffer)
    (entropy : Buffer) (insertUser : InsertUser.t) (st st' : Storage) (e : error) :
  unique (rows (users st)) = true ->
  createUser scrypt entropy insertUser st = (Throw e, st') ->
  rows (users st') = rows (users st) /\
  ((e = UniqueViolation /\
    exists u0, u0 ∈ rows (users st) /\
      (User.id u0 = default (last_value (users st) + 1) (InsertUser.id insertUser) \/
       User.username u0 = InsertUser.username insertUser)) \/
   (refused_integer e /\ st' = st /\
    forallb int4 (nullable (InsertUser.id insertUser) ++
                  nullable (InsertUser.createdBy insertUser) ++
                  nullable (InsertUser.teamId insertUser)) = false) \/
   (e = SequenceLimitExceeded /\ st' = st /\
    InsertUser.id insertUser = None /\ 2147483647 <= last_value (users st))).
Proof.
  intros Uu E. unfold createUser in E. rewrite on_table_run in E.
  match type of E with context [insert_returning ?s ?mk ?t] =>
    pose proof (insert_returning_rows s mk t) as Hi;
    destruct (insert_returning s mk t) as [[u0|e0] t'] end; [discriminate|].
  cbn [fst snd] in E. injection E as -> <-.
  destruct Hi as (Hr & [(He & Hf & ->)|[(-> & Hs & Hl & ->)|[(_ & Hn)|(-> & U)]]]).
  - split; [done|]. right. left. split; [exact He|]. split; [by destruct st|].
    rewrite <- Hf. by destruct (InsertUser.id insertUser).
  - split; [done|]. right. right. split; [done|]. split; [by destruct st|]. done.
  - discriminate Hn.
  - split; [exact Hr|]. left. split; [done|].
    destruct (unique_snoc_false _ _ Uu U) as (u0 & Hin & Hc). exists u0.
    split; [exact Hin|]. simpl in Hc.
    apply orb_true_iff in Hc as [Hc|Hc];
      [left; by apply Z.eqb_eq|right; by apply String.eqb_eq].
Qed.



(** ** The first administrator *)

Lemma getUserByUsername_run (username : string) (st : Storage) :
  getUserByUsername username st =
  (Ok (head (filter (fun u => String.eqb (User.username u) username) (rows (users st)))), st).
Proof. reflexivity. Qed.

Lemma ensureAdminUser_run scrypt (entropy : Buffer) (st : Storage) :
  ensureAdminUser scrypt entropy st =
  match head (filter (fun u => String.eqb (User.username u) "admin") (rows (users st))) with
  | Some _ => (Ok tt, st)
  | None =>
      match createUser scrypt entropy
              (InsertUser.mk None "admin" "admin123" "admin" None None) st with
      | (Ok _, st') => (Ok tt, st')
      | (Throw e, st') => (Throw e, st')
      end
  end.
Proof.
  unfold ensureAdminUser. unfold bind at 1. rewrite getUserByUsername_run.
  destruct (head _); [done|]. unfold bind, ret.
  by destruct (createUser _ _ _ st) as [[u|e] st'].
Qed.

(** X5. [ensureAdminUser] in a database that satisfies its constraints.
    When it is fulfilled a user named "admin" exists, and running it again
    changes nothing.  A user named "admin" that was there is left as it
    is, whatever its role or password.  When there was none, the user made
    has the role "admin" and the password "admin123" verifies for it.  It
    is rejected only when the id drawn from the sequence is taken or the
    sequence is exhausted, and then writes no row. *)
Theorem ensureAdminUser_once
    (scrypt : string -> string -> nat -> Buffer) (entropy : Buffer) (st : Storage) :
  (forall password salt, length (scrypt password salt 64%nat) = 64%nat) ->
  consistent st ->
  match ensureAdminUser scrypt entropy st with
  | (Ok _, st') =>
      (forall entropy', ensureAdminUser scrypt entropy' st' = (Ok tt, st')) /\
      match fst (getUserByUsername "admin" st) with
      | Ok (Some u0) => st' = st
      | _ => exists u, getUserByUsername "admin" st' = (Ok (Some u), st') /\
                       User.role u = "admin"%string /\
                       comparePasswords scrypt "admin123" (User.password u) = Ok true /\
                       rows (users st') = rows (users st) ++ [u]
      end
  | (Throw e, st') =>
      rows (users st') = rows (users st) /\
      ((e = UniqueViolation /\
        exists u0, u0 ∈ rows (users st) /\ User.id u0 = last_value (users st) + 1) \/
       (e = SequenceLimitExceeded /\ st' = st /\ 2147483647 <= last_value (users st)))
  end.
Proof.
  intros Hlen Hst. rewrite ensureAdminUser_run, getUserByUsername_run. cbn [fst].
  destruct (head (filter _ (rows (users st)))) as [u0|] eqn:Hfound.
  - split; [|done]. intros entropy'. by rewrite ensureAdminUser_run, Hfound.
  - assert (forall u st', createUser scrypt entropy
              (InsertUser.mk None "admin" "admin123" "admin" None None) st = (Ok u, st') ->
            User.role u = "admin"%string) as Hrole.
    { intros u st' E. unfold createUser in E. rewrite on_table_run in E.
      injection E as E _.
      match type of E with context [insert_returning ?s ?mk ?t] =>
        pose proof (insert_returning_rows s mk t) as Hi;
        destruct (insert_returning s mk t) as [[u1|e1] t1] end;
        simpl in E; [|discriminate].
      injection E as <-. by destruct Hi as (_ & _ & -> & _). }
    destruct (createUser scrypt entropy _ st) as [[u|e] st'] eqn:E.
    + pose proof (createUser_appended _ _ _ _ _ _ E) as (Hrows & _ & _ & Hpw).
      pose proof (createUser_found_by_name _ _ _ _ _ _ E) as Hname.
      cbn [InsertUser.username InsertUser.password] in Hname, Hpw.
      pose proof Hname as Hhead. rewrite getUserByUsername_run in Hhead.
      injection Hhead as Hhead. split.
      * intros entropy'. by rewrite ensureAdminUser_run, Hhead.
      * exists u. split; [exact Hname|]. split; [by eapply Hrole|].
        split; [|exact Hrows].
        rewrite Hpw, (comparePasswords_stored scrypt Hlen).
        f_equal. by apply bool_decide_eq_true.
    + destruct Hst as (Uu%valid_rows_unique & _).
      destruct (createUser_rejected _ _ _ _ _ _ Uu E)
        as (Hrows & [(-> & u0 & Hin & [Hid|Hname])|[(_ & _ & Hf)|(-> & -> & _ & Hl)]]).
      * split; [exact Hrows|]. left. split; [done|]. exists u0.
        split; [exact Hin|exact Hid].
      * exfalso. simpl in Hname. apply head_None in Hfound.
        assert (u0 ∈ filter (fun u => String.eqb (User.username u) "admin")
                       (rows (users st))) as Hf.
        { apply list_elem_of_filter. split; [|exact Hin].
          apply Is_true_eq_left, String.eqb_eq. exact Hname. }
        rewrite Hfound in Hf. by apply elem_of_nil in Hf.
      * discriminate Hf.
      * split; [done|]. right. done.
Qed.

Lemma ensureAdminUser_once_witness :
  consistent initial_storage /\
  (exists u, getUserByUsername "admin" booted = (Ok (Some u), booted) /\
             User.role u = "admin"%string /\
             comparePasswords toy_scrypt "admin123" (User.password u) = Ok true) /\
  ensureAdminUser toy_scrypt [x05] booted = (Ok tt, booted).
Proof.
  assert (H0 : consistent initial_storage) by check_consistent.
  split; [exact H0|].
  pose proof (ensureAdminUser_once toy_scrypt (repeat x01 16) initial_storage
                (fun p s => length_toy_scrypt p s 64) H0) as H.
  change (ensureAdminUser toy_scrypt (repeat x01 16) initial_storage)
    with (Ok tt, booted) in H.
  destruct H as (Hagain & u & Hfound & Hrole & Hpw & _).
  split; [|exact (Hagain [x05])].
  exists u. split; [exact Hfound|]. split; [exact Hrole|exact Hpw].
Defined.

(** ** Changing a password *)

Lemma getUser_run (z : Z) (st : Storage) :
  getUser (Int z) st
  = (match int4_param z with
     | Ok _ => Ok (head (filter (fun u => User.id u =? z) (rows (users st))))
     | Throw e => Throw e
     end, st).
Proof.
  unfold getUser, bind, lift_result, gets, ret. cbn [int_param].
  destruct (int4_param z) as [k|e] eqn:E; [|done].
  by apply int4_param_Ok in E as [-> _].
Qed.

Lemma getUser_found (z : Z) (st st1 : Storage) (usr : User.t) :
  getUser (Int z) st = (Ok (Some usr), st1) ->
  int4 z = true /\
  head (filter (fun u => User.id u =? z) (rows (users st))) = Some usr.
Proof.
  rewrite getUser_run. destruct (int4_param z) as [k|e] eqn:E; [|discriminate].
  apply int4_param_Ok in E as [_ E]. by intros [= -> _].
Qed.

Lemma updateUserPassword_run scrypt (entropy : Buffer) (z : Z) (newPassword : string)
    (st : Storage) :
  unique (rows (users st)) = true -> int4 z = true ->
  updateUserPassword scrypt entropy (Int z) newPassword st
  = (Ok tt, set_users (Table (rewritten (fun u => User.id u =? z)
                                (with_user_password (hashPassword scrypt entropy newPassword))
                                (rows (users st)))
                             (last_value (users st))) st).
Proof.
  intros Uu Hz. unfold updateUserPassword, bind, lift_result, ret. cbn [int_param].
  rewrite (int4_param_ok _ Hz).
  rewrite on_table_run, (update_keeping_clashes _ _ _ Uu); try done.
  intros r1 r2. by destruct (User.id r1 =? z), (User.id r2 =? z).
Qed.

(* The user with a given id, in a table with its primary key. *)
Lemma users_with_id (z : Z) (l : list User.t) (usr : User.t) :
  unique l = true ->
  head (filter (fun u => User.id u =? z) l) = Some usr ->
  filter (fun u => User.id u =? z) l = [usr].
Proof.
  intros U. apply (unique_filter_one (fun u => User.id u =? z) l usr U).
  intros x y Hx%Z.eqb_eq Hy%Z.eqb_eq. simpl. apply orb_true_iff. left.
  apply Z.eqb_eq. congruence.
Qed.

(** X6. Changing the password, by an administrator whose row is in the
    database (which satisfies its constraints).  When the current password
    supplied verifies against the stored one, the answer is 200, the row
    has the hash of the new password, whatever it is (the empty string
    too), the new password verifies from then on, and no other user is
    touched: the users are the other rows as they were and the row with
    the new hash.  When it does not verify, the answer is 400 and the store
    is unchanged.  When verification throws, the request fails with that
    error and the store is unchanged. *)
Theorem change_password
    (scrypt : string -> string -> nat -> Buffer) (entropy : Buffer)
    (u usr : User.t) (currentPassword newPassword : string) (sv : Server) :
  (forall password salt, length (scrypt password salt 64%nat) = 64%nat) ->
  consistent (storage sv) ->
  User.role u = "admin"%string ->
  getUser (Int (User.id u)) (storage sv) = (Ok (Some usr), storage sv) ->
  let '(res, sv') := post_api_users_change_password scrypt entropy (Some u)
                       currentPassword newPassword sv in
  match comparePasswords scrypt currentPassword (User.password usr) with
  | Ok true =>
      let stored := hashPassword scrypt entropy newPassword in
      res = Ok (mkResponse 200 (JsonMessage "Password updated successfully")) /\
      getUser (Int (User.id u)) (storage sv')
      = (Ok (Some (with_user_password stored usr)), storage sv') /\
      comparePasswords scrypt newPassword stored = Ok true /\
      rows (users (storage sv'))
      = filter (fun x => negb (User.id x =? User.id u)) (rows (users (storage sv)))
        ++ [with_user_password stored usr]
  | Ok false =>
      res = Ok (mkResponse 400 (Text "Current password is incorrect")) /\
      storage sv' = storage sv
  | Throw e => res = Throw e /\ storage sv' = storage sv
  end.
Proof.
  intros Hlen Hst Hrole Hget. apply role_is_spec in Hrole.
  unfold post_api_users_change_password. rewrite Hrole. cbn [negb].
  unfold bind at 1. rewrite invoke_run, Hget. cbn [fst snd].
  unfold bind at 1. unfold lift_result at 1.
  destruct (comparePasswords scrypt currentPassword (User.password usr)) as [[|]|e];
    cbn [negb]; [|done..].
  unfold bind, ret. rewrite invoke_run. cbn [storage journal].
  destruct Hst as (Uu%valid_rows_unique & _).
  apply getUser_found in Hget as (Hz & Hhead).
  destruct (head_filter_lookup _ _ _ Hhead) as (Hid & _). apply Z.eqb_eq in Hid.
  pose proof (users_with_id _ _ _ Uu Hhead) as Hone.
  rewrite Hid, (updateUserPassword_run scrypt entropy (User.id u) newPassword _ Uu Hz).
  cbn [fst snd storage].
  split; [done|]. split; [|split].
  - rewrite getUser_run, (int4_param_ok _ Hz). f_equal. f_equal.
    cbn [users set_users rows].
    rewrite (filter_rewritten (fun x => User.id x =? User.id u)), Hone; [done|].
    by intros r.
  - rewrite (comparePasswords_stored scrypt Hlen). f_equal. by apply bool_decide_eq_true.
  - cbn [users set_users rows]. unfold rewritten. by rewrite Hone.
Qed.

Lemma change_password_witness :
  let sv := mkServer booted [] in
  consistent booted /\
  User.role admin = "admin"%string /\
  getUser (Int 1) booted = (Ok (Some admin), booted) /\
  comparePasswords toy_scrypt "admin123" (User.password admin) = Ok true /\
  fst (post_api_users_change_password toy_scrypt [x02] (Some admin) "admin123" "" sv)
  = Ok (mkResponse 200 (JsonMessage "Password updated successfully")) /\
  fst (post_api_users_change_password toy_scrypt [x02] (Some admin) "admin124" "" sv)
  = Ok (mkResponse 400 (Text "Current password is incorrect")).
Proof.
  intros sv.
  assert (H0 : consistent booted) by check_consistent.
  split; [exact H0|]. split; [reflexivity|]. split; [reflexivity|].
  split; [reflexivity|]. split; [|reflexivity].
  pose proof (change_password toy_scrypt [x02] admin admin "admin123" "" sv
                (fun p s => length_toy_scrypt p s 64) H0 eq_refl eq_refl) as H.
  destruct (post_api_users_change_password toy_scrypt [x02] (Some admin) "admin123" "" sv)
    as [res sv'].
  change (comparePasswords toy_scrypt "admin123" (User.password admin))
    with (@Ok bool true) in H.
  exact (proj1 H).
Defined.

(** X7. A stored password that is not of the form hash.salt.  Without a
    "." in it verification throws a TypeError whatever plaintext is
    supplied; with one, but a first part that does not decode to 64 bytes,
    it throws a RangeError.  It answers false only for a well-formed
    stored password. *)
Theorem comparePasswords_malformed
    (scrypt : string -> string -> nat -> Buffer) (supplied stored : string) :
  (forall password salt, length (scrypt password salt 64%nat) = 64%nat) ->
  (string_forall (fun c => negb (Ascii.eqb c ".")) stored = true ->
   comparePasswords scrypt supplied stored = Throw TypeError) /\
  (forall hashed rest,
     string_forall (fun c => negb (Ascii.eqb c ".")) hashed = true ->
     stored = hashed +:+ String "." rest ->
     length (from_hex hashed) <> 64%nat ->
     comparePasswords scrypt supplied stored = Throw RangeError) /\
  (comparePasswords scrypt supplied stored = Ok false ->
   exists hashed salt more,
     split_on "." stored = hashed :: salt :: more /\
     length (from_hex hashed) = 64%nat /\
     from_hex hashed <> scrypt supplied salt 64%nat).
Proof.
  intros Hlen. split; [|split].
  - intros Hdot. unfold comparePasswords. by rewrite split_on_none.
  - intros hashed rest Hdot -> Hl. unfold comparePasswords.
    rewrite split_on_first by exact Hdot.
    destruct (split_on "." rest) as [|salt more] eqn:E.
    { destruct rest; simpl in E; [discriminate|].
      destruct (Ascii.eqb a "."); [discriminate|]. by destruct (split_on "." rest). }
    unfold timingSafeEqual. rewrite Hlen.
    destruct (length (from_hex hashed) =? 64)%nat eqn:El; [|done].
    apply Nat.eqb_eq in El. contradiction.
  - unfold comparePasswords.
    destruct (split_on "." stored) as [|hashed [|salt more]]; try discriminate.
    unfold timingSafeEqual. rewrite Hlen.
    destruct (length (from_hex hashed) =? 64)%nat eqn:El; [|discriminate].
    apply Nat.eqb_eq in El. intros [= Hb]. apply bool_decide_eq_false in Hb.
    exists hashed, salt, more. done.
Qed.

Lemma comparePasswords_malformed_witness :
  comparePasswords toy_scrypt "admin123" "admin123" = Throw TypeError /\
  comparePasswords toy_scrypt "admin123" "abcd.ef" = Throw RangeError.
Proof.
  destruct (comparePasswords_malformed toy_scrypt "admin123" "admin123"
              (fun p s => length_toy_scrypt p s 64)) as (H1 & _).
  destruct (comparePasswords_malformed toy_scrypt "admin123" "abcd.ef"
              (fun p s => length_toy_scrypt p s 64)) as (_ & H2 & _).
  split; [exact (H1 eq_refl)|].
  apply (H2 "abcd"%string "ef"%string eq_refl eq_refl). vm_compute. discriminate.
Defined.

(** ** Uploading and downloading the PDF *)

(** X8. Upload, then download.  An approver uploads a PDF for an existing
    appointment (in a database that satisfies its constraints): the answer
    is 200 with the appointment as it was but for its pdfUrl, which is
    /api/appointments/<id>/download-pdf; that is the appointment then found
    under the id; and a download by any authenticated caller under a
    parameter that parses to the id is answered 200 with exactly the bytes
    uploaded, as the attachment appointment-<id>.pdf. *)
Theorem upload_then_download
    (u v : User.t) (params_id params_id' : string) (f : UploadedFile) (sv : Server)
    (id : number) (a : Appointment.t) :
  consistent (storage sv) ->
  User.role u = "approver"%string ->
  mimetype f = "application/pdf"%string ->
  parseId params_id = Some id ->
  parseId params_id' = Some id ->
  getAppointment id (storage sv) = (Ok (Some a), storage sv) ->
  let '(res, sv1) := post_api_appointments_id_pdf (Some u) params_id (Some f) sv in
  let a' := with_pdfUrl ("/api/appointments/" +:+ number_to_string id +:+ "/download-pdf") a in
  res = Ok (mkResponse 200 (JsonAppointment (Some a'))) /\
  getAppointment id (storage sv1) = (Ok (Some a'), storage sv1) /\
  fst (get_api_appointments_id_download_pdf (Some v) params_id' sv1)
  = Ok (mkResponse 200
          (Attachment ("appointment-" +:+ number_to_string id +:+ ".pdf") (buffer f))).
Proof.
  intros Hst Hrole Hmime Hparse Hparse' Hget. apply role_is_spec in Hrole.
  assert (upload_single (Some f) = Some f) as Hup.
  { unfold upload_single. by rewrite Hmime. }
  unfold post_api_appointments_id_pdf. rewrite Hup, Hrole, Hparse. cbn [negb].
  unfold bind, ret. rewrite invoke_run, Hget. cbn [fst snd].
  apply getAppointment_found in Hget as (z & -> & Hz & Hz4 & _ & Hhead).
  rewrite invoke_run. cbn [fst snd storage journal storePdf modify].
  rewrite invoke_run. cbn [storage journal].
  match goal with |- context [updateAppointment (Int z) ?upd ?st] =>
    set (update := upd); set (st2 := st) end.
  destruct Hst as (_ & _ & _ & _ & Va & _). pose proof (valid_rows_unique _ Va) as Ua.
  destruct (head_filter_lookup _ _ _ Hhead) as (Hp & k & Hk). apply Z.eqb_eq in Hp.
  destruct (valid_rows_elem _ a Va) as (Hra & Hna); [by eapply list_elem_of_lookup_2|].
  destruct (upload_update a ("/api/appointments/" +:+ number_to_string (Int z)
                             +:+ "/download-pdf")) as (Uid & Uem & Uas & Uint & Unn).
  fold update in Uid, Uem, Uas, Uint, Unn.
  destruct (updateAppointment_found z update st2 a Hz Hz4 Ua Hhead) as (Hrun & Hafter).
  { right. by rewrite Uid, Hp. }
  { exact Uem. }
  { exact (Uint Hra). }
  { by rewrite Unn. }
  rewrite Hrun. cbn [fst snd storage]. rewrite Uas in *.
  match goal with |- context [set_appointments ?t st2] =>
    set (st3 := set_appointments t st2) end.
  assert (getAppointment (Int z) st3
          = (Ok (Some (with_pdfUrl ("/api/appointments/" +:+ number_to_string (Int z)
                                    +:+ "/download-pdf") a)), st3)) as Hget'.
  { rewrite (getAppointment_in_range z st3 Hz Hz4). unfold st3.
    cbn [appointments set_appointments rows]. by rewrite Hafter. }
  split; [done|]. split; [exact Hget'|].
  unfold get_api_appointments_id_download_pdf. rewrite Hparse'.
  unfold bind, ret. rewrite invoke_run. cbn [storage journal]. rewrite Hget'.
  cbn [fst snd]. rewrite invoke_run. cbn [storage]. unfold getPdf, gets.
  cbn [fst snd]. unfold st3, st2. cbn [pdfStorage set_appointments set_pdfStorage].
  by rewrite lookup_insert_eq.
Qed.

Lemma upload_then_download_witness :
  let f := mkFile "application/pdf" [x25; x50; x44; x46] in
  consistent (storage one_pending) /\
  parseId "1" = Some (Int 1) /\ parseId " 1abc" = Some (Int 1) /\
  fst (get_api_appointments_id_download_pdf (Some alice) " 1abc"
         (snd (post_api_appointments_id_pdf (Some bob) "1" (Some f) one_pending)))
  = Ok (mkResponse 200 (Attachment "appointment-1.pdf" [x25; x50; x44; x46])).
Proof.
  intros f.
  assert (H0 : consistent (storage one_pending)) by check_consistent.
  split; [exact H0|]. split; [reflexivity|]. split; [reflexivity|].
  pose proof (upload_then_download bob alice "1" " 1abc" f one_pending (Int 1) _
                H0 eq_refl eq_refl eq_refl eq_refl eq_refl) as H.
  destruct (post_api_appointments_id_pdf (Some bob) "1" (Some f) one_pending) as [res sv1].
  exact (proj2 (proj2 H)).
Defined.

(** X9. A part that is not a PDF is not stored.  When the request of an
    approver on an existing appointment carries no file, or one whose type
    is not application/pdf, the answer is 400 "No PDF file uploaded" and
    neither the blob store nor the appointment changes. *)
Theorem upload_without_pdf
    (u : User.t) (params_id : string) (part : option UploadedFile) (sv : Server)
    (id : number) (a : Appointment.t) :
  User.role u = "approver"%string ->
  parseId params_id = Some id ->
  getAppointment id (storage sv) = (Ok (Some a), storage sv) ->
  match part with
  | Some f => mimetype f <> "application/pdf"%string
  | None => True
  end ->
  let '(res, sv1) := post_api_appointments_id_pdf (Some u) params_id part sv in
  res = Ok (mkResponse 400 (Text "No PDF file uploaded")) /\ storage sv1 = storage sv.
Proof.
  intros Hrole Hparse Hget Hpart. apply role_is_spec in Hrole.
  unfold post_api_appointments_id_pdf. rewrite Hrole, Hparse. cbn [negb].
  unfold bind, ret. rewrite invoke_run, Hget. cbn [fst snd].
  assert (upload_single part = None) as ->.
  { destruct part as [f|]; [|done]. unfold upload_single.
    destruct (String.eqb (mimetype f) "application/pdf") eqn:E; [|done].
    apply String.eqb_eq in E. contradiction. }
  done.
Qed.

Lemma upload_without_pdf_witness :
  fst (post_api_appointments_id_pdf (Some bob) "1"
         (Some (mkFile "image/png" [x89; x50])) one_pending)
  = Ok (mkResponse 400 (Text "No PDF file uploaded")) /\
  pdfStorage (storage (snd (post_api_appointments_id_pdf (Some bob) "1"
                              (Some (mkFile "image/png" [x89; x50])) one_pending)))
  = pdfStorage (storage one_pending).
Proof.
  pose proof (upload_without_pdf bob "1" (Some (mkFile "image/png" [x89; x50]))
                one_pending (Int 1) _ eq_refl eq_refl eq_refl) as H.
  destruct (post_api_appointments_id_pdf (Some bob) "1"
              (Some (mkFile "image/png" [x89; x50])) one_pending) as [res sv1].
  destruct H as (Hres & Hsv); [discriminate|]. simpl. split; [exact Hres|].
  by rewrite Hsv.
Defined.

(** ** Who may ask *)

Lemma handle_unauthenticated scrypt (r : request) (sv : Server) :
  caller_of r = None -> handle scrypt r sv = (Ok (sendStatus 401), sv).
Proof. destruct r; simpl; intros ->; reflexivity. Qed.

Lemma handle_forbidden scrypt (r : request) (u : User.t) (sv : Server) :
  caller_of r = Some u -> admitted r = false ->
  handle scrypt r sv = (Ok (sendStatus 403), sv).
Proof.
  destruct r; simpl; intros -> Hadm; try discriminate;
    unfold get_api_teams_id_members, post_api_teams_members, post_api_appointments,
           patch_api_appointments_id, post_api_appointments_id_pdf,
           post_api_users_change_password;
    rewrite Hadm; reflexivity.
Qed.

Ltac split_cases :=
  repeat match goal with
         | |- context [match ?x with _ => _ end] => destruct x eqn:?
         | |- context [if ?x then _ else _] => destruct x eqn:?
         end.

(* An admitted caller is never answered 401 or 403. *)
Lemma handle_admitted scrypt (r : request) (sv : Server) (res : response) :
  admitted r = true -> fst (handle scrypt r sv) = Ok res ->
  code res <> 401 /\ code res <> 403.
Proof.
  destruct r as [[u|] i|now [u|] t m|[u|] i|now now' [u|] b|[u|] i b|[u|] i f
                |[u|] i|[u|] i|[u|] i|e [u|] c n];
    simpl; intros Hadm; try discriminate;
    unfold get_api_teams_id_members, post_api_teams_members, get_api_clients_id,
           post_api_appointments, patch_api_appointments_id, post_api_appointments_id_pdf,
           get_api_appointments_id_download_pdf, get_api_appointments_id,
           get_api_appointments_id_pdf, post_api_users_change_password;
    rewrite ?Hadm; cbn [negb]; unfold bind, ret, lift_result;
    split_cases; simpl; intros [= <-]; split; discriminate.
Qed.

(** X10. The access gate, on every route but POST /api/clients.  A request
    without an authenticated caller is answered 401; one whose caller has not the role
    the route asks for (admin for users, teams, members and passwords,
    collector to open an appointment, approver to approve or upload) is
    answered 403; in both cases the store is not touched.  A caller the
    route admits is never answered 401 or 403. *)
Theorem access_gate
    (scrypt : string -> string -> nat -> Buffer) (r : any_request) (st : Storage) :
  match caller_of_any r with
  | None => handle_any scrypt r st = (Ok (sent (sendStatus 401)), st)
  | Some u =>
      if admitted_any r
      then forall res, fst (handle_any scrypt r st) = Ok res ->
                       code_more res <> 401 /\ code_more res <> 403
      else handle_any scrypt r st = (Ok (sent (sendStatus 403)), st)
  end.
Proof.
  destruct r as [r0|e [u|] b|[u|]|now [u|] b|[u|]|[u|]|[u|]]; simpl; try reflexivity.
  - destruct (caller_of r0) as [u|] eqn:Hc.
    + destruct (admitted r0) eqn:Hadm.
      * intros res. unfold bind, ret, on_storage.
        pose proof (handle_admitted scrypt r0 (mkServer st []) ) as Ha.
        destruct (handle scrypt r0 (mkServer st [])) as [[res0|e0] sv']; simpl in *;
          [|discriminate].
        intros [= <-]. simpl. by apply Ha.
      * unfold bind, ret, on_storage.
        by rewrite (handle_forbidden scrypt r0 u _ Hc Hadm).
    + unfold bind, ret, on_storage. by rewrite (handle_unauthenticated scrypt r0 _ Hc).
  - unfold post_api_users. destruct (role_is u "admin"); [|reflexivity].
    intros res. cbn [negb]. unfold bind, ret, lift_result.
    split_cases; simpl; intros [= <-]; split; discriminate.
  - unfold get_api_users. destruct (role_is u "admin"); [|reflexivity].
    intros res [= <-]. split; discriminate.
  - unfold post_api_teams. destruct (role_is u "admin"); [|reflexivity].
    intros res. cbn [negb]. unfold bind, ret, lift_result.
    split_cases; simpl; intros [= <-]; split; discriminate.
  - unfold get_api_teams. destruct (role_is u "admin"); [|reflexivity].
    intros res [= <-]. split; discriminate.
  - intros res [= <-]. split; discriminate.
  - intros res [= <-]. split; discriminate.
Qed.

Lemma access_gate_witness :
  handle_any toy_scrypt (GetClients None) booted = (Ok (sent (sendStatus 401)), booted) /\
  handle_any toy_scrypt (Earlier (PatchAppointment (Some alice) "1" PartialAppointment.empty))
    (storage one_pending)
  = (Ok (sent (sendStatus 403)), storage one_pending) /\
  (fst (handle_any toy_scrypt (GetTeams (Some admin)) booted)
   = Ok (mkResponseMore 200 (JsonTeams [])) ->
   code_more (mkResponseMore 200 (JsonTeams [])) <> 401 /\
   code_more (mkResponseMore 200 (JsonTeams [])) <> 403).
Proof.
  split; [exact (access_gate toy_scrypt (GetClients None) booted)|].
  split; [exact (access_gate toy_scrypt
                   (Earlier (PatchAppointment (Some alice) "1" PartialAppointment.empty))
                   (storage one_pending))|].
  exact (access_gate toy_scrypt (GetTeams (Some admin)) booted
           (mkResponseMore 200 (JsonTeams []))).
Defined.

(** ** Team membership through the routes *)

Lemma getTeamMembers_run (t : Z) (st : Storage) :
  int4 t = true ->
  getTeamMembers (Int t) st
  = (Ok (select_where
           (fun x => match User.teamId x with Some k => k =? t | None => false end)
           (users st)), st).
Proof.
  intros Ht. unfold getTeamMembers, bind, lift_result, gets. cbn [int_param].
  by rewrite (int4_param_ok _ Ht).
Qed.

Lemma addTeamMember_run (now : string) (supplied : option Z) (t uid addedBy : Z)
    (addedAt : option string) (st : Storage) :
  int4 t = true -> int4 uid = true ->
  let stmt := insert_returning supplied
                (fun id => TeamMember.mk id t uid addedBy (default now addedAt)) in
  addTeamMember now (InsertTeamMember.mk supplied (Int t) (Int uid) addedBy addedAt) st
  = (fst (stmt (teamMembers st)), set_teamMembers (snd (stmt (teamMembers st))) st).
Proof.
  intros Ht Hu. unfold addTeamMember, bind, lift_result. simpl.
  by rewrite (int4_param_ok _ Ht), (int4_param_ok _ Hu), on_table_run.
Qed.

(* A team or a user the columns cannot hold. *)
Lemma addTeamMember_refused (now : string) (supplied : option Z) (t uid addedBy : Z)
    (addedAt : option string) (st : Storage) :
  int4 t && int4 uid = false ->
  exists e, addTeamMember now (InsertTeamMember.mk supplied (Int t) (Int uid) addedBy addedAt) st
            = (Throw e, st) /\ refused_integer e.
Proof.
  intros H4. unfold addTeamMember, bind, lift_result. simpl.
  destruct (int4_param t) as [k|e] eqn:Et.
  - apply int4_param_Ok in Et as [-> Et]. rewrite Et in H4. simpl in H4.
    destruct (int4_param uid) as [k|e] eqn:Eu.
    + apply int4_param_Ok in Eu as [_ Eu]. congruence.
    + apply int4_param_Throw in Eu as [_ Eu]. eauto.
  - apply int4_param_Throw in Et as [_ Et]. eauto.
Qed.

(** X11. Adding a member through POST /api/teams/members, by an
    administrator, with integers for the team (not 0) and the user, in a
    database that satisfies its constraints.  Neither the team nor the user
    is looked up.  When the request is served the answer is 201 with the
    new team_members row, which names the team, the user, the caller and
    the time; the row is appended; every user with that id has the team as
    its teamId and is listed by getTeamMembers; no other user changes.
    The request fails only when the id drawn for the row is taken, when
    the team, the user or the caller's id is outside the 32-bit range of
    the columns, or when the sequence of ids is exhausted; and then no row
    is written and no user changes. *)
Theorem add_team_member
    (now : string) (u : User.t) (t uid : Z) (sv : Server) :
  consistent (storage sv) ->
  User.role u = "admin"%string ->
  t <> 0 ->
  match post_api_teams_members now (Some u) (Int t) (Int uid) sv with
  | (Ok res, sv1) =>
      let tm := TeamMember.mk (last_value (teamMembers (storage sv)) + 1) t uid
                  (User.id u) now in
      res = mkResponse 201 (JsonTeamMember tm) /\
      rows (teamMembers (storage sv1)) = rows (teamMembers (storage sv)) ++ [tm] /\
      rows (users (storage sv1))
      = rewritten (fun x => User.id x =? uid) (with_user_teamId (Some t))
          (rows (users (storage sv))) /\
      (forall x, x ∈ rows (users (storage sv)) -> User.id x = uid ->
         exists l, fst (getTeamMembers (Int t) (storage sv1)) = Ok l /\
                   with_user_teamId (Some t) x ∈ l) /\
      (forall x, User.id x <> uid ->
         x ∈ rows (users (storage sv1)) <-> x ∈ rows (users (storage sv)))
  | (Throw e, sv1) =>
      rows (teamMembers (storage sv1)) = rows (teamMembers (storage sv)) /\
      users (storage sv1) = users (storage sv) /\
      ((e = UniqueViolation /\
        exists m, m ∈ rows (teamMembers (storage sv)) /\
                  TeamMember.id m = last_value (teamMembers (storage sv)) + 1) \/
       (refused_integer e /\ storage sv1 = storage sv /\
        forallb int4 [t; uid; User.id u] = false) \/
       (e = SequenceLimitExceeded /\ storage sv1 = storage sv /\
        2147483647 <= last_value (teamMembers (storage sv))))
  end.
Proof.
  intros Hst Hrole Ht. apply role_is_spec in Hrole.
  unfold post_api_teams_members. rewrite Hrole. cbn [negb].
  rewrite bool_decide_eq_false_2 by (intros [=]; contradiction).
  unfold bind, ret. rewrite invoke_run.
  destruct (int4 t && int4 uid) eqn:H4.
  - apply andb_true_iff in H4 as [Ht4 Hu4].
    rewrite (addTeamMember_run _ _ _ _ _ _ _ Ht4 Hu4). cbn [fst snd].
    match goal with |- context [insert_returning ?s ?mk ?tb] =>
      pose proof (insert_returning_rows s mk tb) as Hi;
      destruct (insert_returning s mk tb) as [[tm|e] tb'] end; cbn [fst snd].
    + destruct Hi as (Hrows & _ & -> & _). cbn [default].
      rewrite invoke_run. cbn [storage journal].
      destruct Hst as (Uu%valid_rows_unique & _).
      rewrite (updateUserTeam_run uid (Some t)); [|exact Uu|exact Hu4|by simpl; rewrite Ht4].
      cbn [fst snd storage users teamMembers set_users set_teamMembers rows].
      split; [done|]. split; [exact Hrows|]. split; [done|]. split.
      * intros x Hx Hid. rewrite (getTeamMembers_run _ _ Ht4). eexists.
        split; [reflexivity|].
        unfold select_where. apply list_elem_of_filter. split.
        -- simpl. apply Is_true_eq_left, Z.eqb_refl.
        -- cbn [users set_users rows]. apply elem_of_update. right. exists x.
           split; [exact Hx|]. split; [by apply Z.eqb_eq|done].
      * intros x Hx. rewrite elem_of_update. apply Z.eqb_neq in Hx. split.
        -- intros [[Hin _]|(r & _ & Hp & ->)]; [done|]. simpl in Hx. congruence.
        -- intros Hin. by left.
    + destruct Hi as (Hrows & [(He & Hf & ->)|[(-> & _ & Hl & ->)|[(_ & Hn)|(-> & U)]]]).
      * split; [done|]. split; [done|]. right. left. split; [exact He|].
        split; [by destruct sv as [[] ?]|exact Hf].
      * split; [done|]. split; [done|]. right. right. split; [done|].
        split; [by destruct sv as [[] ?]|exact Hl].
      * discriminate Hn.
      * split; [exact Hrows|]. split; [done|]. left. split; [done|].
        destruct Hst as (_ & _ & Um%valid_rows_unique & _).
        destruct (unique_snoc_false _ _ Um U) as (m & Hin & Hc). exists m.
        split; [exact Hin|]. simpl in Hc. by apply Z.eqb_eq in Hc.
  - destruct (addTeamMember_refused now None t uid (User.id u) None (storage sv) H4)
      as (e & -> & He). cbn [fst snd storage].
    split; [done|]. split; [done|]. right. left. split; [exact He|].
    split; [done|]. simpl. apply andb_false_iff in H4 as [-> | ->]; [done|].
    by rewrite andb_false_r.
Qed.

Lemma add_team_member_witness :
  let sv := mkServer booted [] in
  consistent booted /\ User.role admin = "admin"%string /\
  fst (post_api_teams_members "t0" (Some admin) (Int 99) (Int 77) sv)
  = Ok (mkResponse 201 (JsonTeamMember (TeamMember.mk 1 99 77 1 "t0"))) /\
  rows (teams booted) = [] /\
  fst (post_api_teams_members "t0" (Some admin) (Int 2147483648) (Int 1) sv)
  = Throw NumericValueOutOfRange.
Proof.
  intros sv.
  assert (H0 : consistent booted) by check_consistent.
  split; [exact H0|]. split; [reflexivity|]. split; [|split; reflexivity].
  pose proof (add_team_member "t0" admin 99 77 sv H0 eq_refl) as H.
  destruct (post_api_teams_members "t0" (Some admin) (Int 99) (Int 77) sv)
    as [[res|e] sv1] eqn:E.
  - destruct H as (-> & _); [discriminate|reflexivity].
  - exfalso. vm_compute in E. discriminate E.
Defined.

(* After [removeTeamMember] no user with the id is in a team. *)
Lemma removeTeamMember_leaves_none (st : Storage) (anyTeam : number) (uid : Z) :
  consistent st ->
  let st' := snd (removeTeamMember anyTeam (Int uid) st) in
  rows (teamMembers st') = rows (teamMembers st) /\
  forall x, x ∈ rows (users st') -> User.id x = uid -> User.teamId x = None.
Proof.
  intros (Vu & _). simpl. unfold removeTeamMember.
  destruct (int4 uid) eqn:H4.
  - change (@None number) with (Int <$> @None Z).
    rewrite (updateUserTeam_run uid None st (valid_rows_unique _ Vu) H4 eq_refl).
    cbn [fst snd teamMembers users set_users rows]. split; [done|].
    intros x [[_ Hp]|(r & _ & _ & ->)]%elem_of_update Hid; [|done].
    apply Z.eqb_neq in Hp. contradiction.
  - destruct (updateUserTeam_refused (Int uid) None st H4) as (e & -> & _).
    cbn [snd]. split; [done|]. intros x Hx Hid.
    destruct (valid_rows_elem _ x Vu Hx) as (Hr & _). unfold in_range in Hr.
    simpl in Hr. apply andb_true_iff in Hr as [Hr _]. congruence.
Qed.

(** X12. Who is in a team is read from the users, not from team_members.
    getTeamMembers lists the users whose teamId is the team, so it answers
    the same in two stores with the same users; addTeamMember alone does
    not change its answer; and after removeTeamMember, in a database that
    satisfies its constraints, the user is listed in no team while every
    team_members row is still there. *)
Theorem listing_follows_users (now : string) (m : InsertTeamMember.t)
    (team anyTeam : number) (uid : Z) (st : Storage) :
  (forall st', users st' = users st ->
               fst (getTeamMembers team st') = fst (getTeamMembers team st)) /\
  fst (getTeamMembers team (snd (addTeamMember now m st))) = fst (getTeamMembers team st) /\
  (consistent st ->
   let st' := snd (removeTeamMember anyTeam (Int uid) st) in
   rows (teamMembers st') = rows (teamMembers st) /\
   forall l x, fst (getTeamMembers team st') = Ok l -> x ∈ l -> User.id x <> uid).
Proof.
  assert (forall st', users st' = users st ->
            fst (getTeamMembers team st') = fst (getTeamMembers team st)) as Hsame.
  { intros st' E. unfold getTeamMembers, bind, lift_result, gets, select_where.
    destruct (int_param team); [|done]. simpl. by rewrite E. }
  split; [exact Hsame|]. split.
  - apply Hsame. unfold addTeamMember, bind, lift_result.
    destruct (int_param _); [|done]. destruct (int_param _); [|done].
    by rewrite on_table_run.
  - intros Hst st'.
    destruct (removeTeamMember_leaves_none st anyTeam uid Hst) as (Hm & Hr).
    split; [exact Hm|].
    intros l x Hl Hx Hid. unfold getTeamMembers, bind, lift_result, gets, select_where in Hl.
    destruct (int_param team) as [t|]; [|discriminate]. simpl in Hl. injection Hl as <-.
    apply list_elem_of_filter in Hx as (Hp & Hin).
    fold st' in Hr. by rewrite (Hr x Hin Hid) in Hp.
Qed.

Lemma listing_follows_users_witness :
  let st := snd (updateUserTeam (Int 1) (Some (Int 4)) booted) in
  let st' := snd (removeTeamMember (Int 0) (Int 1) st) in
  consistent st /\
  fst (getTeamMembers (Int 4) st) = Ok [User.mk 1 "admin" (User.password admin) "admin"
                                          None (Some 4)] /\
  rows (teamMembers st') = rows (teamMembers st) /\
  forall l x, fst (getTeamMembers (Int 4) st') = Ok l -> x ∈ l -> User.id x <> 1.
Proof.
  intros st st'.
  assert (H0 : consistent st) by check_consistent.
  split; [exact H0|]. split; [reflexivity|].
  exact (proj2 (proj2 (listing_follows_users "t0" (InsertTeamMember.mk None (Int 4) (Int 1) 1 None)
                         (Int 4) (Int 0) 1 st)) H0).
Defined.

(** ** An id, written and parsed *)

Lemma leading_digits_uint (d : Decimal.uint) (tail : string) :
  leading_digits (NilEmpty.string_of_uint d +:+ tail) = uint_digits d ++ leading_digits tail.
Proof. induction d; simpl; [done|by rewrite IHd..]. Qed.

Lemma digits_acc (d : Decimal.uint) (acc : positive) :
  fold_left (fun a k => 10 * a + k) (uint_digits d) (Z.pos acc)
  = Z.pos (Pos.of_uint_acc d acc).
Proof.
  revert acc. induction d; intros acc; simpl; [done|..];
    match goal with
    | |- fold_left _ _ ?x = Z.pos (Pos.of_uint_acc _ ?y) =>
        replace x with (Z.pos y) by lia
    end; apply IHd.
Qed.

Lemma digits_value (d : Decimal.uint) :
  digits_to_Z (uint_digits d) = Z.of_N (Pos.of_uint d).
Proof.
  unfold digits_to_Z. induction d; simpl; [done|exact IHd|..];
    match goal with
    | |- fold_left _ _ ?x = Z.pos (Pos.of_uint_acc _ ?y) =>
        change x with (Z.pos y)
    end; apply digits_acc.
Qed.

(* A numeral that opens with a digit, bare or behind a minus sign. *)
Lemma parseInt_digit (c : ascii) (rest : string) (k : Z) :
  digit_value c = Some k ->
  parseInt (String c rest) = Int (digits_to_Z (k :: leading_digits rest)) /\
  parseInt (String "-" (String c rest)) = Int (- digits_to_Z (k :: leading_digits rest)).
Proof.
  intros Hk. unfold parseInt.
  change (skip_whitespace (String "-" (String c rest))) with (String "-" (String c rest)).
  cbv beta iota zeta. cbn [leading_digits]. rewrite Hk.
  destruct c as [[] [] [] [] [] [] [] []]; try (vm_compute in Hk; discriminate Hk);
    cbn [skip_whitespace];
    match goal with
    | |- context [is_whitespace ?c] => change (is_whitespace c) with false
    end;
    cbv beta iota zeta; cbn [leading_digits]; rewrite Hk;
    split; f_equal; lia.
Qed.

(* A numeral of a positive number, then anything but a digit. *)
Lemma parseInt_positive (p : positive) (tail : string) :
  leading_digits tail = [] ->
  parseInt (NilEmpty.string_of_uint (Pos.to_uint p) +:+ tail) = Int (Z.pos p) /\
  parseInt (String "-" (NilEmpty.string_of_uint (Pos.to_uint p) +:+ tail)) = Int (Z.neg p).
Proof.
  intros Htail.
  pose proof (leading_digits_uint (Pos.to_uint p) tail) as Hd.
  pose proof (digits_value (Pos.to_uint p)) as Hv.
  rewrite DecimalPos.Unsigned.of_to in Hv. rewrite Htail, app_nil_r in Hd.
  pose proof (DecimalPos.Unsigned.to_uint_nonnil p) as Hnil.
  rewrite <- Hd in Hv.
  destruct (Pos.to_uint p) as [|d|d|d|d|d|d|d|d|d|d]; [done|..];
    cbn [NilEmpty.string_of_uint] in *;
    match goal with
    | |- parseInt (String ?c ?s +:+ ?t) = _ /\ _ =>
        change (String c s +:+ t) with (String c (s +:+ t)) in *;
        destruct (parseInt_digit c (s +:+ t) _ eq_refl) as [Hplus Hminus]
    end;
    rewrite Hplus, Hminus; cbn [leading_digits digit_value] in Hv;
    (split; f_equal; [exact Hv | rewrite <- Pos2Z.opp_pos; f_equal; exact Hv]).
Qed.

(** X13. An id written into a string is read back.  For an integer in the
    range where JavaScript numbers are exact, the text the template literals
    of the routes write for it (as in the pdfUrl and the attachment name),
    followed by anything that does not start with a digit, is parsed by
    parseId to the same integer: trailing text is ignored, not rejected. *)
Theorem id_written_then_parsed (z : Z) (tail : string) :
  Z.abs z <= 9007199254740991 ->
  leading_digits tail = [] ->
  parseId (number_to_string (Int z) +:+ tail) = Some (Int z).
Proof.
  intros _ Htail. unfold parseId, number_to_string.
  destruct z as [|p|p].
  - change (NilZero.string_of_int (Z.to_int 0) +:+ tail) with (String "0" tail).
    destruct (parseInt_digit "0" tail 0 eq_refl) as [-> _]. by rewrite Htail.
  - destruct (parseInt_positive p tail Htail) as [Hp _].
    pose proof (DecimalPos.Unsigned.to_uint_nonnil p) as Hnil.
    change (Z.to_int (Z.pos p)) with (Decimal.Pos (Pos.to_uint p)).
    cbn [NilZero.string_of_int]. unfold NilZero.string_of_uint.
    destruct (Pos.to_uint p); [done|by rewrite Hp..].
  - destruct (parseInt_positive p tail Htail) as [_ Hp].
    pose proof (DecimalPos.Unsigned.to_uint_nonnil p) as Hnil.
    change (Z.to_int (Z.neg p)) with (Decimal.Neg (Pos.to_uint p)).
    cbn [NilZero.string_of_int]. unfold NilZero.string_of_uint.
    change (String "-" ?s +:+ tail) with (String "-" (s +:+ tail)).
    destruct (Pos.to_uint p); [done|by rewrite Hp..].
Qed.

Lemma id_written_then_parsed_witness :
  number_to_string (Int 42) +:+ "/download-pdf" = "42/download-pdf"%string /\
  parseId "42/download-pdf" = Some (Int 42).
Proof.
  split; [reflexivity|].
  exact (id_written_then_parsed 42 "/download-pdf" ltac:(lia) eq_refl).
Defined.


(** ** Creating, finding and changing an appointment *)





(** ** Creating users and teams over the routes *)






(** ** Approved appointments name their approver *)

Lemma keeps_signed_refl t : keeps_signed t t.
Proof. by intros H. Qed.

Lemma keeps_signed_trans t1 t2 t3 :
  keeps_signed t1 t2 -> keeps_signed t2 t3 -> keeps_signed t1 t3.
Proof. unfold keeps_signed. auto. Qed.

(* The rows after [updateAppointment], fulfilled or rejected. *)
Lemma updateAppointment_rows (id : number) (update : PartialAppointment.t) (st : Storage) :
  rows (appointments (snd (updateAppointment id update st))) = rows (appointments st) \/
  exists z, id = Int z /\
    rows (appointments (snd (updateAppointment id update st)))
    = rewritten (fun a => Appointment.id a =? z) (PartialAppointment.assign update)
        (rows (appointments st)).
Proof.
  unfold updateAppointment. destruct (invalid_id id); [by left|].
  destruct (PartialAppointment.is_empty update); [by left|].
  rewrite snd_bind_lift. destruct (int4_params _); [|by left].
  rewrite snd_bind_lift. destruct id as [z| |b]; cbn [int_param]; [|by left..].
  destruct (int4_param z) as [k|e] eqn:Ez; [|by left].
  apply int4_param_Ok in Ez as [-> _].
  rewrite snd_bind_ret, on_table_run. cbn [snd appointments set_appointments].
  match goal with |- context [update_returning ?p ?f ?t] =>
    destruct (update_rows_cases p f t) as [-> | ->] end; [by left|].
  right. by exists z.
Qed.

(* Rewriting the rows of an id with rows that name their approver. *)
Lemma updateAppointment_signed (z : Z) (update : PartialAppointment.t) (st : Storage) :
  (forall a, a ∈ rows (appointments st) ->
             approver_recorded (PartialAppointment.assign update a)) ->
  keeps_signed (rows (appointments st))
               (rows (appointments (snd (updateAppointment (Int z) update st)))).
Proof.
  intros Hnew Hsigned.
  destruct (updateAppointment_rows (Int z) update st) as [->|(z' & _ & ->)];
    [exact Hsigned|].
  intros a' [[Ha _]|(a & Ha & _ & ->)]%elem_of_update; [by apply Hsigned|by apply Hnew].
Qed.

Lemma post_api_appointments_signed now now' user b :
  stable keeps_signed (post_api_appointments now now' user b).
Proof.
  intros sv. unfold post_api_appointments.
  destruct user as [u|]; [|apply keeps_signed_refl].
  destruct (negb (role_is u "collector")); [apply keeps_signed_refl|].
  unfold bind, lift_result, ret.
  destruct (insertAppointmentSchema_parse _) as [ins|e] eqn:Hparse;
    [|apply keeps_signed_refl].
  apply parse_server_fields in Hparse as (Hstatus & _).
  cbn [fst snd]. rewrite invoke_run. cbn [fst snd storage].
  pose proof (createAppointment_run now' ins (storage sv)) as Hrun.
  destruct (createAppointment now' ins (storage sv)) as [[x|e] st']; cbn [fst snd storage].
  - destruct Hrun as (Hx & Hr & _). rewrite Hr. intros Hsigned a Ha.
    apply elem_of_app in Ha as [Ha|Ha]; [by apply Hsigned|].
    apply list_elem_of_singleton in Ha as ->. intros Happroved.
    rewrite Hx in Happroved. simpl in Happroved. rewrite Hstatus in Happroved.
    discriminate Happroved.
  - destruct Hrun as (-> & _). apply keeps_signed_refl.
Qed.

Lemma patch_api_appointments_id_signed user id req_body :
  stable keeps_signed (patch_api_appointments_id user id req_body).
Proof.
  intros sv. unfold patch_api_appointments_id.
  destruct user as [u|]; [|apply keeps_signed_refl].
  destruct (negb (role_is u "approver")); [apply keeps_signed_refl|].
  destruct (parseId id) as [n|]; [|apply keeps_signed_refl].
  unfold bind, ret. rewrite invoke_run.
  destruct (getAppointment n (storage sv)) as [[[a|]|e] st1] eqn:Hget;
    cbn [fst snd]; try apply keeps_signed_refl;
    try (rewrite getAppointment_run in Hget; injection Hget as _ <-;
         apply keeps_signed_refl).
  apply getAppointment_found in Hget as (z & -> & Hz & _ & -> & Hhead).
  rewrite invoke_run. cbn [storage journal].
  match goal with |- context [updateAppointment (Int z) ?upd ?st] =>
    pose proof (updateAppointment_signed z upd st) as Hk;
    destruct (updateAppointment (Int z) upd st) as [[x|e] st3] end;
    cbn [fst snd storage] in *; apply Hk; intros a0 _ _; discriminate.
Qed.

Lemma post_api_appointments_id_pdf_signed user id part :
  stable keeps_signed (post_api_appointments_id_pdf user id part).
Proof.
  intros sv. unfold post_api_appointments_id_pdf.
  destruct user as [u|]; [|apply keeps_signed_refl].
  destruct (negb (role_is u "approver")); [apply keeps_signed_refl|].
  destruct (parseId id) as [n|]; [|apply keeps_signed_refl].
  unfold bind, ret. rewrite invoke_run.
  destruct (getAppointment n (storage sv)) as [[[a|]|e] st1] eqn:Hget;
    cbn [fst snd]; try apply keeps_signed_refl;
    try (rewrite getAppointment_run in Hget; injection Hget as _ <-;
         apply keeps_signed_refl).
  apply getAppointment_found in Hget as (z & -> & Hz & _ & -> & Hhead).
  destruct (upload_single part) as [f|]; [|apply keeps_signed_refl].
  rewrite invoke_run. cbn [fst snd storage journal storePdf modify].
  rewrite invoke_run. cbn [storage journal].
  destruct (head_filter_lookup _ _ _ Hhead) as (_ & k & Hk).
  apply list_elem_of_lookup_2 in Hk.
  intros Hsigned.
  match goal with |- context [updateAppointment (Int z) ?upd ?st] =>
    pose proof (updateAppointment_signed z upd st) as Hupd;
    destruct (updateAppointment (Int z) upd st) as [[x|e] st3] end;
    cbn [fst snd storage] in *; (apply Hupd; [|exact Hsigned]);
    intros a0 _; exact (Hsigned a Hk).
Qed.

Lemma handle_signed scrypt (r : request) : stable keeps_signed (handle scrypt r).
Proof.
  destruct r; simpl.
  - apply get_api_teams_id_members_stable; [exact keeps_signed_refl|exact keeps_signed_trans].
  - apply post_api_teams_members_stable; [exact keeps_signed_refl|exact keeps_signed_trans].
  - apply get_api_clients_id_stable; [exact keeps_signed_refl|exact keeps_signed_trans].
  - apply post_api_appointments_signed.
  - apply patch_api_appointments_id_signed.
  - apply post_api_appointments_id_pdf_signed.
  - apply get_api_appointments_id_download_pdf_stable;
      [exact keeps_signed_refl|exact keeps_signed_trans].
  - apply get_api_appointments_id_stable; [exact keeps_signed_refl|exact keeps_signed_trans].
  - apply get_api_appointments_id_pdf_stable; [exact keeps_signed_refl|exact keeps_signed_trans].
  - apply post_api_users_change_password_stable; [exact keeps_signed_refl|exact keeps_signed_trans].
Qed.

(* The routes on users, teams and listings leave the appointments alone. *)
Lemma handle_any_signed scrypt (r : any_request) (st : Storage) :
  keeps_signed (rows (appointments st))
               (rows (appointments (snd (handle_any scrypt r st)))).
Proof.
  destruct r as [r0|e [u|] b|[u|]|now [u|] b|[u|]|[u|]|[u|]]; simpl;
    try apply keeps_signed_refl.
  - unfold bind, ret, on_storage.
    pose proof (handle_signed scrypt r0 (mkServer st [])) as H.
    destruct (handle scrypt r0 (mkServer st [])) as [[res|e] sv]; exact H.
  - unfold post_api_users. destruct (negb (role_is u "admin")); [apply keeps_signed_refl|].
    unfold bind, lift_result, ret.
    destruct (insertUserSchema_parse _) as [ins|e0]; [|apply keeps_signed_refl].
    cbn [fst snd]. unfold createUser. rewrite on_table_run. cbn [fst snd].
    destruct (fst _); apply keeps_signed_refl.
  - unfold get_api_users. destruct (negb (role_is u "admin")); apply keeps_signed_refl.
  - unfold post_api_teams. destruct (negb (role_is u "admin")); [apply keeps_signed_refl|].
    unfold bind, lift_result, ret.
    destruct (insertTeamSchema_parse _) as [ins|e0]; [|apply keeps_signed_refl].
    cbn [fst snd]. unfold createTeam. rewrite on_table_run. cbn [fst snd].
    destruct (fst _); apply keeps_signed_refl.
  - unfold get_api_teams. destruct (negb (role_is u "admin")); apply keeps_signed_refl.
Qed.

(** X18. Every approved appointment names its approver.  If every
    appointment whose status is "approved" has an approvedBy, then so it is
    after any requests, on any routes but POST /api/clients and with any
    callers, parameters and bodies, answered or failed: creation writes "pending" whatever the body
    says, approval writes the status together with the caller's id, and the
    upload writes back the status and the approver it read. *)
Theorem approvals_are_signed
    (scrypt : string -> string -> nat -> Buffer) (st : Storage) (rs : list any_request) :
  approvals_signed (rows (appointments st)) ->
  approvals_signed (rows (appointments (serve_any_all scrypt st rs))).
Proof.
  revert st. induction rs as [|r rs IH]; intros st Hst; [exact Hst|].
  simpl. apply IH. unfold serve_any. by apply handle_any_signed.
Qed.

Lemma approvals_are_signed_witness :
  let rs := [Earlier (PostAppointment "t0" "t1" (Some alice)
               (PartialAppointment.mk None (Some 9) (Some 2) (Some "approved"%string) None
                  (Some None) None (Some JNull) None));
             Earlier (PatchAppointment (Some bob) "1"
               (PartialAppointment.mk None None None None None (Some None) None None None))] in
  approvals_signed (rows (appointments initial_storage)) /\
  approvals_signed (rows (appointments (serve_any_all toy_scrypt initial_storage rs))) /\
  (fun a => (Appointment.status a, Appointment.approvedBy a))
    <$> rows (appointments (serve_any_all toy_scrypt initial_storage rs))
  = [("approved"%string, Some 8)].
Proof.
  intros rs.
  assert (H0 : approvals_signed (rows (appointments initial_storage))).
  { intros a Ha. by apply elem_of_nil in Ha. }
  split; [exact H0|]. split; [|reflexivity].
  exact (approvals_are_signed toy_scrypt initial_storage rs H0).
Defined.


(** ** Creating and serving a client *)

(** X19. In a database that satisfies its constraints, a client that
    [createClient] has made is the last of the clients GET /api/clients
    lists, and GET /api/clients/:id, under a parameter that parses to its
    id, answers any authenticated caller 200 with that client; unless the
    id, which the input may supply, is below 1: then the answer is 404,
    although the client is stored and listed. *)
Theorem createClient_then_served
    (insertClient : InsertClient.t) (st st' : Storage) (c : Client.t)
    (u : User.t) (params_id : string) (journal : list StoreOp) :
  consistent st ->
  createClient insertClient st = (Ok c, st') ->
  parseId params_id = Some (Int (Client.id c)) ->
  fst (get_api_clients (Some u) st')
  = Ok (mkResponseMore 200 (JsonClients (rows (clients st) ++ [c]))) /\
  fst (get_api_clients_id (Some u) params_id (mkServer st' journal))
  = Ok (if Client.id c <? 1 then sendStatus 404 else mkResponse 200 (JsonClient c)).
Proof.
  intros (_ & _ & _ & Uc & _ & _ & _ & _ & Hl & _) Hrun Hparse.
  unfold createClient in Hrun. rewrite on_table_run in Hrun.
  match type of Hrun with context [insert_returning ?s ?mk ?t] =>
    pose proof (insert_returning_rows s mk t) as Hi;
    pose proof (insert_returning_pkey s mk t) as H4;
    destruct (insert_returning s mk t) as [[c0|e] t'] end; [|discriminate].
  cbn [fst snd] in Hrun. injection Hrun as -> <-. destruct Hi as (Hr & Hu & _).
  specialize (H4 t' c (fun id => eq_refl) Hl eq_refl).
  change (pkey c) with (Client.id c) in H4.
  split.
  - unfold get_api_clients, getAllClients, bind, gets, ret. simpl. by rewrite Hr.
  - unfold get_api_clients_id. rewrite Hparse. unfold bind, ret.
    rewrite invoke_run, getClient_run, (int4_param_ok _ H4).
    cbn [fst snd storage clients set_clients].
    destruct (Client.id c <? 1); [done|].
    rewrite (head_filter_only _ _ (length (rows (clients st))) c Hu); [done|..].
    + rewrite Hr. apply lookup_snoc_last.
    + apply Z.eqb_refl.
    + intros x Hx. exact Hx.
Qed.

Lemma createClient_then_served_witness :
  let ins := InsertClient.mk None "P123" "Dana" "0123456789" "d@x.org" "N1" "img"
               "nurse" "Qatar" "female" in
  consistent booted /\
  exists c st', createClient ins booted = (Ok c, st') /\
    parseId "1" = Some (Int (Client.id c)) /\
    fst (get_api_clients_id (Some alice) "1" (mkServer st' []))
    = Ok (mkResponse 200 (JsonClient c)).
Proof.
  intros ins.
  assert (H0 : consistent booted) by check_consistent.
  split; [exact H0|].
  destruct (createClient ins booted) as [[c|e] st'] eqn:E;
    [|exfalso; vm_compute in E; discriminate E].
  assert (Client.id c = 1) as Hid by (vm_compute in E; by injection E as <- _).
  exists c, st'. split; [reflexivity|].
  assert (parseId "1" = Some (Int (Client.id c))) as Hp by (by rewrite Hid).
  split; [exact Hp|].
  destruct (createClient_then_served ins booted st' c alice "1" [] H0 E Hp) as (_ & H).
  rewrite Hid in H. exact H.
Defined.


(** ** The GET routes *)

Lemma parseId_Int (s : string) (n : number) :
  parseId s = Some n -> exists z, n = Int z.
Proof.
  unfold parseId. pose proof (parseInt_range s) as Hr.
  destruct (parseInt s) as [z| |b]; simpl; [|discriminate|by destruct (Hr b)].
  intros [= <-]. by exists z.
Qed.

(* A parameter the engine takes or refuses. *)
Lemma int4_param_cases (z : Z) :
  (int4 z = true /\ int4_param z = Ok z) \/
  (exists e, int4_param z = Throw e /\ refused_integer e /\ int4 z = false).
Proof.
  destruct (int4_param z) as [k|e] eqn:E.
  - left. by apply int4_param_Ok in E as [-> E].
  - right. apply int4_param_Throw in E as [E He]. eauto.
Qed.

(* The clients of the appointments of a consistent store are in range. *)
Lemma found_clientId (z : Z) (st : Storage) (a : Appointment.t) :
  consistent st ->
  head (filter (fun x => Appointment.id x =? z) (rows (appointments st))) = Some a ->
  int4 (Appointment.clientId a) = true.
Proof.
  intros (_ & _ & _ & _ & Va & _) Hh.
  destruct (head_filter_lookup _ _ _ Hh) as (_ & k & Hk).
  destruct (valid_rows_elem _ a Va) as (Hr & _); [by eapply list_elem_of_lookup_2|].
  unfold in_range in Hr. simpl in Hr.
  by repeat (apply andb_true_iff in Hr as [? Hr]).
Qed.

(* A GET handler answers or is refused by the engine, and leaves the store
   as it found it. *)
Ltac answered := left; eexists _, _; reflexivity.
Ltac refused He H4 s z Hp :=
  right; eexists _, _; split; [reflexivity|]; split; [exact He|];
  intros _; exists s, z; split; [reflexivity|]; split; [exact Hp|exact H4].

Lemma handle_get_reads scrypt (r : request) (st : Storage) j :
  method_of (Earlier r) = GET ->
  (exists res j', handle scrypt r (mkServer st j) = (Ok res, mkServer st j')) \/
  (exists e j', handle scrypt r (mkServer st j) = (Throw e, mkServer st j') /\
     refused_integer e /\
     (consistent st ->
      exists s z, params_id_of r = Some s /\ parseId s = Some (Int z) /\ int4 z = false)).
Proof.
  destruct r as [[u|] i|now [u|] t m|[u|] i|now now' [u|] b|[u|] i b|[u|] i f
                |[u|] i|[u|] i|[u|] i|e [u|] c n];
    try discriminate; intros _; simpl; try answered;
    unfold get_api_teams_id_members, get_api_clients_id,
           get_api_appointments_id_download_pdf, get_api_appointments_id,
           get_api_appointments_id_pdf;
    try (destruct (negb (role_is u "admin")); [answered|]);
    (destruct (parseId i) as [n|] eqn:Hp; [|answered]);
    destruct (parseId_Int _ _ Hp) as (z & ->);
    unfold bind, ret; rewrite invoke_run; cbn [storage journal].
  - unfold getTeamMembers, bind, lift_result, gets. cbn [int_param].
    destruct (int4_param_cases z) as [(H4 & ->)|(e & -> & He & H4)]; cbn [fst snd].
    + answered.
    + refused He H4 i z Hp.
  - rewrite getClient_run. cbn [fst snd]. destruct (z <? 1); [answered|].
    destruct (int4_param_cases z) as [(H4 & ->)|(e & -> & He & H4)].
    + destruct (head _); answered.
    + refused He H4 i z Hp.
  - rewrite getAppointment_run. cbn [fst snd]. destruct (z <? 1); [answered|].
    destruct (int4_param_cases z) as [(H4 & ->)|(e & -> & He & H4)].
    + destruct (head _); [|answered]. rewrite invoke_run. cbn [storage journal].
      unfold getPdf, gets. cbn [fst snd]. destruct (pdfStorage st !! Int z); answered.
    + refused He H4 i z Hp.
  - rewrite getAppointment_run. cbn [fst snd]. destruct (z <? 1); [answered|].
    destruct (int4_param_cases z) as [(H4 & ->)|(e & -> & He & H4)].
    + destruct (head _); answered.
    + refused He H4 i z Hp.
  - rewrite getAppointment_run. cbn [fst snd]. destruct (z <? 1); [answered|].
    destruct (int4_param_cases z) as [(H4 & ->)|(e & -> & He & H4)].
    + destruct (head (filter _ (rows (appointments st)))) as [a|] eqn:Hh; [|answered].
      rewrite invoke_run, getClient_run. cbn [storage journal fst snd].
      destruct (Appointment.clientId a <? 1); [answered|].
      destruct (int4_param_cases (Appointment.clientId a))
        as [(Hc & ->)|(e & -> & He & Hc)].
      * destruct (head (filter _ (rows (clients st)))); answered.
      * right. eexists _, _. split; [reflexivity|]. split; [exact He|].
        intros Hst. rewrite (found_clientId z st a Hst Hh) in Hc. discriminate Hc.
    + refused He H4 i z Hp.
Qed.

(** X20. The GET routes only read.  A request on a GET route, whoever the
    caller and whatever the parameter, leaves the store exactly as it was.
    The handler throws only an error of the engine for an integer it
    refuses; in a database that satisfies its constraints that integer is
    the id parameter, outside the 32-bit range of the column, and every
    other request on a GET route is answered. *)
Theorem get_requests_only_read
    (scrypt : string -> string -> nat -> Buffer) (r : any_request) (st : Storage) :
  method_of r = GET ->
  snd (handle_any scrypt r st) = st /\
  (forall e, fst (handle_any scrypt r st) = Throw e ->
     refused_integer e /\
     (consistent st ->
      exists r0 s z, r = Earlier r0 /\ params_id_of r0 = Some s /\
                     parseId s = Some (Int z) /\ int4 z = false)) /\
  (consistent st ->
   (forall r0 s z, r = Earlier r0 -> params_id_of r0 = Some s ->
                   parseId s = Some (Int z) -> int4 z = true) ->
   exists res, fst (handle_any scrypt r st) = Ok res).
Proof.
  intros Hget.
  assert (snd (handle_any scrypt r st) = st /\
          forall e, fst (handle_any scrypt r st) = Throw e ->
            refused_integer e /\
            (consistent st ->
             exists r0 s z, r = Earlier r0 /\ params_id_of r0 = Some s /\
                            parseId s = Some (Int z) /\ int4 z = false)) as [Hsnd Hthrow].
  { destruct r as [r0|e [u|] b|[u|]|now [u|] b|[u|]|[u|]|[u|]]; try discriminate;
      simpl; try (split; [reflexivity|discriminate]).
    - unfold bind, on_storage, ret.
      destruct (handle_get_reads scrypt r0 st [] Hget)
        as [(res & j & ->)|(e & j & -> & He & Hz)]; simpl; [by split|].
      split; [done|]. intros e' [= <-]. split; [exact He|].
      intros Hst. destruct (Hz Hst) as (s & z & H1 & H2 & H3). by exists r0, s, z.
    - unfold get_api_users. destruct (negb (role_is u "admin")); by split.
    - unfold get_api_teams. destruct (negb (role_is u "admin")); by split. }
  split; [exact Hsnd|]. split; [exact Hthrow|].
  intros Hst Hin. destruct (fst (handle_any scrypt r st)) as [res|e] eqn:E; [by eexists|].
  destruct (Hthrow e eq_refl) as (_ & Hz).
  destruct (Hz Hst) as (r0 & s & z & -> & H1 & H2 & H3).
  rewrite (Hin r0 s z eq_refl H1 H2) in H3. discriminate H3.
Qed.

Example get_appointment_out_of_range :
  handle_any toy_scrypt (Earlier (GetAppointment (Some alice) "2147483648"))
    (storage one_pending)
  = (Throw NumericValueOutOfRange, storage one_pending).
Proof. reflexivity. Qed.

Lemma get_requests_only_read_witness :
  method_of (Earlier (GetAppointmentPdf (Some alice) "1")) = GET /\
  consistent (storage one_pending) /\
  snd (handle_any toy_scrypt (Earlier (GetAppointmentPdf (Some alice) "1"))
         (storage one_pending)) = storage one_pending /\
  exists res, fst (handle_any toy_scrypt (Earlier (GetAppointmentPdf (Some alice) "1"))
                     (storage one_pending)) = Ok res.
Proof.
  assert (H0 : consistent (storage one_pending)) by check_consistent.
  split; [reflexivity|]. split; [exact H0|].
  destruct (get_requests_only_read toy_scrypt (Earlier (GetAppointmentPdf (Some alice) "1"))
              (storage one_pending) eq_refl) as (Hsnd & _ & Hok).
  split; [exact Hsnd|]. apply (Hok H0).
  intros r0 s z [= <-] [= <-] [= <-]. reflexivity.
Defined.
